(** * Obsidian vault server: note graph and link resolution

    A shallow embedding of the vault service (services/vault.ts), the note,
    link and navigation tools (tools/notes.ts, tools/links.ts,
    tools/navigation.ts) and of the constants they use, with the properties
    of the specification stated and proved against it.

    Modelling conventions.
    - A JavaScript string is a [string]: a sequence of code units, here
      restricted to the range 0..255 (Latin-1).  [toLowerCase] follows the
      Unicode simple case mapping on that range.
    - A JavaScript number that holds an index, a length, a limit or a score
      is a [Z].
    - A function that can throw returns a [Result]; a function that cannot
      is a plain function.
    - A vault scan ([getAllNotes]) is the list of the notes it returns, in
      scan order.  The file system of the mutating operations is a finite
      map from absolute paths to file contents.
    - Front matter is an ordered key/value bag, as the object gray-matter
      returns.  Its [title], [aliases] and [tags] are read as JavaScript
      reads them, whatever value the YAML gave them: a method called on a
      value that lacks it throws a [TypeError]. *)

From Stdlib Require Import List String Ascii ZArith Bool Lia Arith PeanoNat.
From Stdlib Require Import Sorting.Sorted Sorting.Permutation.
From Stdlib Require Import Numbers.DecimalString.
Import ListNotations.

Set Warnings "-register-all".

Local Open Scope string_scope.
Local Open Scope list_scope.

(** ** JavaScript values, errors and string primitives *)

Module Js.

Inductive Error : Type :=
| TypeError (msg : string)
| SyntaxError (msg : string)
| Err (msg : string).

Inductive Result (A : Type) : Type :=
| Ok (a : A)
| Throw (e : Error).
Arguments Ok {A} a.
Arguments Throw {A} e.

Definition bind {A B} (r : Result A) (k : A -> Result B) : Result B :=
  match r with
  | Ok a => k a
  | Throw e => Throw e
  end.

Definition isOk {A} (r : Result A) : bool :=
  match r with Ok _ => true | Throw _ => false end.

(** Values found in parsed YAML front matter and in tool inputs: scalars
    and sequences.  Mappings and dates, which YAML can give as well, are
    left out. *)
Inductive Val : Type :=
| VNull
| VBool (b : bool)
| VNum (z : Z)
| VStr (s : string)
| VArr (l : list Val).

(** ToBoolean on those values. *)
Definition truthy (v : Val) : bool :=
  match v with
  | VNull => false
  | VBool b => b
  | VNum z => negb (z =? 0)%Z
  | VStr s => negb (s =? "")
  | VArr _ => true
  end.

Definition LF : ascii := ascii_of_nat 10.
Definition CR : ascii := ascii_of_nat 13.

(** [s.startsWith(p)] *)
Definition startsWith (s p : string) : bool := String.prefix p s.

(** [s.slice(n)] for [0 <= n] *)
Fixpoint drop (n : nat) (s : string) : string :=
  match n, s with
  | O, _ => s
  | S n', String _ s' => drop n' s'
  | S _, EmptyString => EmptyString
  end.

(** [s.slice(0, n)] for [0 <= n] *)
Fixpoint take (n : nat) (s : string) : string :=
  match n, s with
  | O, _ => EmptyString
  | S n', String c s' => String c (take n' s')
  | S _, EmptyString => EmptyString
  end.

(** [s.endsWith(p)] *)
Definition endsWith (s p : string) : bool :=
  (String.length p <=? String.length s)%nat
  && (drop (String.length s - String.length p) s =? p).

(** [s.slice(0, -k)] *)
Definition dropLast (k : nat) (s : string) : string :=
  take (String.length s - k) s.

(** [s.substring(a, b)] for [0 <= a <= b] *)
Definition substring (a b : Z) (s : string) : string :=
  take (Z.to_nat (b - a)) (drop (Z.to_nat a) s).

(** Simple lower-case mapping of one code unit below 256: the letters A-Z
    and the Latin-1 capitals 0xC0-0xDE other than the multiplication sign
    0xD7 move up by 32. *)
Definition lowerChar (c : ascii) : ascii :=
  let n := nat_of_ascii c in
  if ((65 <=? n) && (n <=? 90))%nat
     || ((192 <=? n) && (n <=? 222) && negb (n =? 215))%nat
  then ascii_of_nat (n + 32)
  else c.

(** [s.toLowerCase()] *)
Fixpoint toLowerCase (s : string) : string :=
  match s with
  | EmptyString => EmptyString
  | String c s' => String (lowerChar c) (toLowerCase s')
  end.

(** [s.indexOf(q)]: the first index at which [q] occurs, [-1] when none. *)
Fixpoint indexOfFrom (i : Z) (q s : string) : Z :=
  if String.prefix q s then i
  else match s with
       | EmptyString => (-1)%Z
       | String _ s' => indexOfFrom (i + 1) q s'
       end.

Definition indexOf (s q : string) : Z := indexOfFrom 0 q s.

(** [s.includes(q)] *)
Fixpoint includes (s q : string) : bool :=
  String.prefix q s
  || match s with
     | EmptyString => false
     | String _ s' => includes s' q
     end.

(** [xs.includes(x)] on an array of strings *)
Definition arrIncludes (xs : list string) (x : string) : bool :=
  existsb (String.eqb x) xs.

(** [xs.slice(a, b)] on an array, for any integers [a] and [b]: a negative
    index counts from the end, and both are clamped to the array. *)
Definition sliceIndex (len i : Z) : Z :=
  if (i <? 0)%Z then Z.max 0 (len + i) else Z.min i len.

Definition slice {A} (a b : Z) (xs : list A) : list A :=
  let len := Z.of_nat (List.length xs) in
  let k := sliceIndex len a in
  let e := sliceIndex len b in
  firstn (Z.to_nat (e - k)) (skipn (Z.to_nat k) xs).

(** [xs.find(p)] *)
Definition find {A} (p : A -> bool) (xs : list A) : option A := List.find p xs.

(** [xs.find(p)] for a callback that can throw: the elements are tried
    from the left, and an exception of the callback ends the walk. *)
Fixpoint findR {A} (p : A -> Result bool) (xs : list A) : Result (option A) :=
  match xs with
  | [] => Ok None
  | x :: rest =>
      bind (p x) (fun b => if b then Ok (Some x) else findR p rest)
  end.

(** [xs.some(p)] for a callback that can throw. *)
Fixpoint someR {A} (p : A -> Result bool) (xs : list A) : Result bool :=
  match xs with
  | [] => Ok false
  | x :: rest => bind (p x) (fun b => if b then Ok true else someR p rest)
  end.

(** [v.toLowerCase()] on a value that need not be a string: only a string
    has the method. *)
Definition toLowerCaseOf (v : Val) : Result string :=
  match v with
  | VStr s => Ok (toLowerCase s)
  | VNull => Throw (TypeError "Cannot read properties of null")
  | _ => Throw (TypeError "toLowerCase is not a function")
  end.

(** The decimal numeral of an integer. *)
Definition numberToString (z : Z) : string :=
  NilZero.string_of_int (Z.to_int z).

(** [String(v)], which is also what a template literal makes of [v];
    numbers are the integers a number holds exactly, below [2^53] in
    magnitude.  In the join of an array [null] counts as empty. *)
Fixpoint toString (v : Val) : string :=
  match v with
  | VNull => "null"
  | VBool true => "true"
  | VBool false => "false"
  | VNum z => numberToString z
  | VStr s => s
  | VArr l =>
      (fix joined (l : list Val) : string :=
         match l with
         | [] => EmptyString
         | x :: rest =>
             let text := match x with VNull => EmptyString | _ => toString x end in
             match rest with
             | [] => text
             | _ => (text ++ "," ++ joined rest)%string
             end
         end) l
  end.

End Js.

Import Js.

(** ** Constants (constants.ts) *)

Module Constants.

Definition SEARCH_SNIPPET_LENGTH : Z := 150.

Definition TITLE_EXACT : Z := 100.
Definition TITLE_PARTIAL : Z := 50.
Definition CONTENT_EARLY : Z := 20.
Definition CONTENT_LATE : Z := 5.

Definition MARKDOWN_EXTENSIONS : list string := [".md"; ".markdown"].

Definition NOTE_NOT_FOUND : string := "Note not found".

(** *** The link patterns

    [WIKI_LINK_REGEX] reads: an optional bang, two opening brackets, a
    target of one or more characters other than ] | # ^, then optionally
    # and a heading (one or more characters other than ] | ^), optionally
    ^ and a block reference (one or more characters other than ] |),
    optionally | and a display text (one or more characters other than ]),
    and two closing brackets.  [MARKDOWN_LINK_REGEX] reads: an optional
    bang, an opening bracket, a text of any number of characters other
    than ], a closing bracket, an opening parenthesis, a target of one or
    more characters other than the closing parenthesis, and a closing
    parenthesis.  Both are global.
    In each of them every repetition is over a character class whose
    complement contains every character that may follow the repetition, so
    a shorter repetition can never be continued: the greedy choice is the
    only one, and matching at a position is a single left-to-right pass. *)

Definition isChar (c d : ascii) : bool := Ascii.eqb c d.

(** The four classes of the wiki pattern. *)
Definition wikiTargetChar (c : ascii) : bool :=
  negb (isChar c "]" || isChar c "|" || isChar c "#" || isChar c "^").
Definition wikiHeadingChar (c : ascii) : bool :=
  negb (isChar c "]" || isChar c "|" || isChar c "^").
Definition wikiBlockChar (c : ascii) : bool :=
  negb (isChar c "]" || isChar c "|").
Definition wikiDisplayChar (c : ascii) : bool :=
  negb (isChar c "]").

(** The two classes of the markdown pattern. *)
Definition mdTextChar (c : ascii) : bool := negb (isChar c "]").
Definition mdTargetChar (c : ascii) : bool := negb (isChar c ")").

(** The longest prefix of [s] inside the class, and what follows it. *)
Fixpoint span (cls : ascii -> bool) (s : string) : string * string :=
  match s with
  | String c s' =>
      if cls c then let (a, b) := span cls s' in (String c a, b)
      else (EmptyString, s)
  | EmptyString => (EmptyString, EmptyString)
  end.

(** An optional group [(?:d(cls+))?]: the capture, [None] for undefined. *)
Definition optGroup (d : ascii) (cls : ascii -> bool) (s : string)
  : option string * string :=
  match s with
  | String c s' =>
      if isChar c d then
        let (g, r) := span cls s' in
        match g with
        | EmptyString => (None, s)
        | _ => (Some g, r)
        end
      else (None, s)
  | EmptyString => (None, s)
  end.

(** The optional leading [!]. *)
Definition optBang (s : string) : string :=
  match s with
  | String c s' => if isChar c "!" then s' else s
  | EmptyString => s
  end.

(** One match of the wiki pattern: [match[0]] to [match[4]]. *)
Record WikiMatch : Type := mkWikiMatch {
  wm0 : string;
  wm1 : string;
  wm2 : option string;
  wm3 : option string;
  wm4 : option string
}.

(** One match of the markdown pattern: [match[0]] to [match[2]]. *)
Record MdMatch : Type := mkMdMatch {
  mm0 : string;
  mm1 : string;
  mm2 : string
}.

(** The text a match consumed, given the input and what is left of it. *)
Definition consumed (s rest : string) : string :=
  take (String.length s - String.length rest) s.

Definition wikiMatchAt (s : string) : option WikiMatch :=
  match optBang s with
  | String "[" (String "[" s2) =>
      let (target, s3) := span wikiTargetChar s2 in
      match target with
      | EmptyString => None
      | _ =>
          let (heading, s4) := optGroup "#" wikiHeadingChar s3 in
          let (block, s5) := optGroup "^" wikiBlockChar s4 in
          let (display, s6) := optGroup "|" wikiDisplayChar s5 in
          match s6 with
          | String "]" (String "]" rest) =>
              Some (mkWikiMatch (consumed s rest) target heading block display)
          | _ => None
          end
      end
  | _ => None
  end.

Definition mdMatchAt (s : string) : option MdMatch :=
  match optBang s with
  | String "[" s1 =>
      let (text, s2) := span mdTextChar s1 in
      match s2 with
      | String "]" (String "(" s3) =>
          let (target, s4) := span mdTargetChar s3 in
          match target, s4 with
          | EmptyString, _ => None
          | _, String ")" rest =>
              Some (mkMdMatch (consumed s rest) text target)
          | _, _ => None
          end
      | _ => None
      end
  | _ => None
  end.

(** [content.matchAll(regex)] for a global pattern whose matches are never
    empty: the leftmost match from the current position, then on from its
    end.  [skip] counts the characters of the last match still to pass. *)
Fixpoint matchAllFrom {M} (matchAt : string -> option M) (len : M -> nat)
    (skip : nat) (s : string) : list M :=
  match s with
  | EmptyString => []
  | String _ s' =>
      match skip with
      | S k => matchAllFrom matchAt len k s'
      | O =>
          match matchAt s with
          | Some m => m :: matchAllFrom matchAt len (len m - 1) s'
          | None => matchAllFrom matchAt len 0 s'
          end
      end
  end.

Definition matchAllWiki (s : string) : list WikiMatch :=
  matchAllFrom wikiMatchAt (fun m => String.length (wm0 m)) 0 s.

Definition matchAllMd (s : string) : list MdMatch :=
  matchAllFrom mdMatchAt (fun m => String.length (mm0 m)) 0 s.

End Constants.

Import Constants.

(** ** Node's path module, for the paths the service handles

    Paths use forward slashes and carry no [.] or [..] segments. *)

Module Path.

(** What follows the last slash. *)
Fixpoint lastSegment (s : string) : string :=
  match s with
  | EmptyString => EmptyString
  | String c s' =>
      if includes s' "/" then lastSegment s'
      else if isChar c "/" then s' else s
  end.

(** Position of the last dot of [s], if any. *)
Fixpoint lastDot (s : string) : option nat :=
  match s with
  | EmptyString => None
  | String c s' =>
      match lastDot s' with
      | Some i => Some (S i)
      | None => if isChar c "." then Some O else None
      end
  end.

(** [path.extname(p)]: from the last dot of the last segment, empty when
    there is none or when it is the segment's first character. *)
Definition extname (p : string) : string :=
  let b := lastSegment p in
  match lastDot b with
  | Some (S i) => drop (S i) b
  | _ => EmptyString
  end.

(** [path.basename(p, ext)] *)
Definition basename (p ext : string) : string :=
  let b := lastSegment p in
  if endsWith b ext && negb (b =? ext) then dropLast (String.length ext) b
  else b.

(** [path.join(root, p)] for a root and a path in normal form, where
    joining is putting a slash between the two: no empty segment, no [.]
    or [..] segment, and no slash at the junction. *)
Definition join (root p : string) : string := root ++ "/" ++ p.

(** [path.relative(root, p)] for a path [p] below [root]. *)
Definition relative (root p : string) : string :=
  if startsWith p (root ++ "/") then drop (S (String.length root)) p else p.

End Path.

(** ** Data model (types.ts) *)

Module Types.

(** [NoteFrontmatter]: an open bag of keys. *)
Definition NoteFrontmatter : Type := list (string * Val).

Fixpoint lookup {V} (k : string) (o : list (string * V)) : option V :=
  match o with
  | [] => None
  | (k', v) :: o' => if k' =? k then Some v else lookup k o'
  end.

(** [o[k] = v] on an object: an own key keeps its place. *)
Fixpoint assign {V} (k : string) (v : V) (o : list (string * V))
  : list (string * V) :=
  match o with
  | [] => [(k, v)]
  | (k', v') :: o' =>
      if k' =? k then (k, v) :: o' else (k', v') :: assign k v o'
  end.

Record Heading : Type := mkHeading {
  h_text : string;
  h_level : Z;
  h_line : Z
}.

Record Note : Type := mkNote {
  path : string;
  name : string;
  content : string;
  frontmatter : option NoteFrontmatter;
  tags : list string;
  links : list string;
  headings : list Heading;
  blocks : list (string * Z);
  backlinks : option (list string);
  created : Z;
  modified : Z
}.

Inductive MatchType : Type :=
| MTitle | MHeading | MContent | MTag | MFrontmatter.

Record SearchResult : Type := mkSearchResult {
  sr_path : string;
  sr_name : string;
  sr_score : Z;
  sr_snippet : option string;
  sr_matchType : MatchType
}.

Record ParsedLink : Type := mkParsedLink {
  raw : string;
  original : string;
  target : string;
  displayText : option string;
  heading : option string;
  blockRef : option string;
  isEmbed : bool
}.

(** The strings of an array of strings. *)
Fixpoint strings (l : list Val) : list string :=
  match l with
  | [] => []
  | VStr s :: l' => s :: strings l'
  | _ :: l' => strings l'
  end.

(** [note.frontmatter?.[key]] for [title] and [aliases]: whatever value
    the YAML gave the key, [None] being [undefined]. *)
Definition field (key : string) (n : Note) : option Val :=
  match frontmatter n with
  | Some fm => lookup key fm
  | None => None
  end.

End Types.

Import Types.

(** ** The vault service (services/vault.ts): parsing *)

Module Parser.

Definition between (lo hi : nat) (c : ascii) : bool :=
  let n := nat_of_ascii c in ((lo <=? n) && (n <=? hi))%nat.

Definition isAlnum (c : ascii) : bool :=
  between 97 122 c || between 65 90 c || between 48 57 c.

(** The class of [TAG_REGEX]: letters, digits, underscore, slash, hyphen. *)
Definition tagChar (c : ascii) : bool :=
  isAlnum c || isChar c "_" || isChar c "/" || isChar c "-".

(** The class of a block identifier: letters, digits, hyphen. *)
Definition idChar (c : ascii) : bool := isAlnum c || isChar c "-".

(** White space, the class written backslash-s, below 256. *)
Definition isSpace (c : ascii) : bool :=
  let n := nat_of_ascii c in
  (between 9 13 c || (n =? 32) || (n =? 160))%nat.

(** Line terminators, which the dot does not match. *)
Definition isLineTerminator (c : ascii) : bool :=
  let n := nat_of_ascii c in ((n =? 10) || (n =? 13))%nat.

Fixpoint allSpace (s : string) : bool :=
  match s with
  | EmptyString => true
  | String c s' => isSpace c && allSpace s'
  end.

Fixpoint trimStart (s : string) : string :=
  match s with
  | String c s' => if isSpace c then trimStart s' else s
  | EmptyString => EmptyString
  end.

Fixpoint trimEnd (s : string) : string :=
  match s with
  | EmptyString => EmptyString
  | String c s' =>
      match trimEnd s' with
      | EmptyString => if isSpace c then EmptyString else String c EmptyString
      | t => String c t
      end
  end.

(** [s.trim()] *)
Definition trim (s : string) : string := trimEnd (trimStart s).

(** [s.split(LF)]: never empty. *)
Fixpoint splitLines (s : string) : list string :=
  match s with
  | EmptyString => [EmptyString]
  | String c s' =>
      if isChar c LF then EmptyString :: splitLines s'
      else match splitLines s' with
           | l :: ls => String c l :: ls
           | [] => [String c EmptyString]
           end
  end.

(** One match of [TAG_REGEX] at a position: a hash and one or more tag
    characters.  The pair is [match[0]] and [match[1]]. *)
Definition tagMatchAt (s : string) : option (string * string) :=
  match s with
  | String "#" s' =>
      match span tagChar s' with
      | (EmptyString, _) => None
      | (t, _) => Some (String "#" t, t)
      end
  | _ => None
  end.

Definition matchAllTags (s : string) : list (string * string) :=
  matchAllFrom tagMatchAt (fun m => String.length (fst m)) 0 s.

(** [set.add(x)] on a set kept in insertion order. *)
Definition setAdd (x : string) (xs : list string) : list string :=
  if arrIncludes xs x then xs else xs ++ [x].

(** The body of the [forEach] callback over the front-matter tags: a tag
    that is not a string has no [startsWith] to call. *)
Fixpoint addFrontmatterTags (l : list Val) (acc : list string)
  : Result (list string) :=
  match l with
  | [] => Ok acc
  | VStr tag :: l' =>
      let cleanTag := if startsWith tag "#" then drop 1 tag else tag in
      addFrontmatterTags l' (setAdd cleanTag acc)
  | _ :: _ => Throw (TypeError "tag.startsWith is not a function")
  end.

(** [extractTags(content, frontmatterTags)]; [None] is [undefined]. *)
Definition extractTags (content : string) (frontmatterTags : option Val)
  : Result (list string) :=
  bind
    (match frontmatterTags with
     | None => Ok []
     | Some v =>
         if truthy v then
           match v with
           | VArr l => addFrontmatterTags l []
           | _ => Throw (TypeError "frontmatterTags.forEach is not a function")
           end
         else Ok []
     end)
    (fun tags =>
       Ok (fold_left (fun acc m => setAdd (snd m) acc)
                     (matchAllTags content) tags)).

Definition wikiLink (m : WikiMatch) : ParsedLink :=
  mkParsedLink (wm0 m) (wm0 m) (wm1 m) (wm4 m) (wm2 m) (wm3 m)
               (startsWith (wm0 m) "!").

Definition mdLink (m : MdMatch) : ParsedLink :=
  mkParsedLink (mm0 m) (mm0 m) (mm2 m) (Some (mm1 m)) None None
               (startsWith (mm0 m) "!").

(** The guard of the markdown loop: only internal links are kept. *)
Definition isInternal (tgt : string) : bool :=
  negb (startsWith tgt "http://") && negb (startsWith tgt "https://").

(** The links pushed by the first loop, over the wiki matches. *)
Definition wikiLinks (content : string) : list ParsedLink :=
  map wikiLink (matchAllWiki content).

(** The links pushed by the second loop, over the markdown matches. *)
Definition mdLinks (content : string) : list ParsedLink :=
  map mdLink (filter (fun m => isInternal (mm2 m)) (matchAllMd content)).

(** [extractLinks(content)] *)
Definition extractLinks (content : string) : list ParsedLink :=
  wikiLinks content ++ mdLinks content.

(** *** Headings

    The line pattern reads: line start, one to six hashes, one or more
    spaces, a lazy text of one or more characters other than line
    terminators, optionally spaces with a block anchor, any spaces, end. *)

(** The tail after the text: an optional anchor (spaces, a caret, an
    identifier), then only spaces up to the end. *)
Definition headingTail (t : string) : bool :=
  allSpace t
  || match t with
     | String c _ =>
         isSpace c
         && match trimStart t with
            | String "^" r =>
                match span idChar r with
                | (EmptyString, _) => false
                | (_, r') => allSpace r'
                end
            | _ => false
            end
     | EmptyString => false
     end.

(** The lazy text from a position: the shortest run of one or more
    characters after which the tail matches. *)
Fixpoint lazyText (s : string) : option string :=
  match s with
  | EmptyString => None
  | String c s' =>
      if isLineTerminator c then None
      else if headingTail s' then Some (String c EmptyString)
      else option_map (String c) (lazyText s')
  end.

(** After a first space: the greedy run of spaces takes as many as it can
    and gives them back one at a time while the text finds no match. *)
Fixpoint spacesThenText (s : string) : option string :=
  match s with
  | String c s' =>
      if isSpace c then
        match spacesThenText s' with
        | Some g => Some g
        | None => lazyText s
        end
      else lazyText s
  | EmptyString => None
  end.

(** The match of the heading pattern on a line: [match[1]] and
    [match[2]]. *)
Definition headingMatch (line : string) : option (string * string) :=
  let (hashes, r) := span (fun c => isChar c "#") line in
  if ((1 <=? String.length hashes) && (String.length hashes <=? 6))%nat then
    match r with
    | String c r' =>
        if isSpace c then option_map (pair hashes) (spacesThenText r')
        else None
    | EmptyString => None
    end
  else None.

(** The loop over the lines, [i] being the index of the first of them. *)
Fixpoint headingsFrom (i : Z) (lines : list string) : list Heading :=
  match lines with
  | [] => []
  | line :: rest =>
      match headingMatch line with
      | Some (m1, m2) =>
          mkHeading (trim m2) (Z.of_nat (String.length m1)) (i + 1)
          :: headingsFrom (i + 1) rest
      | None => headingsFrom (i + 1) rest
      end
  end.

(** [extractHeadings(content)] *)
Definition extractHeadings (content : string) : list Heading :=
  headingsFrom 0 (splitLines content).

(** *** Block references

    The line pattern reads: a caret, an identifier of one or more letters,
    digits or hyphens, any spaces, end.  [exec] returns the leftmost
    match. *)
Definition blockMatchAt (s : string) : option string :=
  match s with
  | String "^" r =>
      match span idChar r with
      | (EmptyString, _) => None
      | (id, r') => if allSpace r' then Some id else None
      end
  | _ => None
  end.

Fixpoint blockMatch (line : string) : option string :=
  match blockMatchAt line with
  | Some id => Some id
  | None => match line with
            | String _ s' => blockMatch s'
            | EmptyString => None
            end
  end.

Fixpoint blocksFrom (i : Z) (lines : list string) (acc : list (string * Z))
  : list (string * Z) :=
  match lines with
  | [] => acc
  | line :: rest =>
      match blockMatch line with
      | Some id => blocksFrom (i + 1) rest (assign id (i + 1)%Z acc)
      | None => blocksFrom (i + 1) rest acc
      end
  end.

(** [extractBlocks(content)] *)
Definition extractBlocks (content : string) : list (string * Z) :=
  blocksFrom 0 (splitLines content) [].

(** *** parseNote

    gray-matter is an external library: [matter] stands for its entry
    point, which returns the parsed data and the body, or throws. *)
Record GrayMatterFile : Type := mkFile {
  gm_data : NoteFrontmatter;
  gm_content : string
}.

Definition Matter : Type := string -> Result GrayMatterFile.

(** [parseNote(filePath, content, stats)] for the vault at [vaultPath];
    [stats] is the pair of [mtime] and [birthtime]. *)
Definition parseNote (matter : Matter) (vaultPath filePath content : string)
    (stats : Z * Z) : Result Note :=
  bind (matter content) (fun parsed =>
  let fm := gm_data parsed in
  bind (extractTags (gm_content parsed) (lookup "tags" fm)) (fun tags =>
  let links := extractLinks (gm_content parsed) in
  let headings := extractHeadings (gm_content parsed) in
  let blocks := extractBlocks (gm_content parsed) in
  let relativePath := Path.relative vaultPath filePath in
  let name := Path.basename filePath (Path.extname filePath) in
  Ok (mkNote relativePath name (gm_content parsed)
        (if (0 <? List.length fm)%nat then Some fm else None)
        tags (map target links) headings blocks None
        (snd stats) (fst stats)))).

End Parser.

Import Parser.

(** ** The vault service: queries over a scan *)

Module VaultService.

(** [array.sort(compare)]: the sort is stable, so for a comparator that
    orders its arguments consistently the result is the one insertion
    sort builds from the right. *)
Fixpoint insertBy {A} (compare : A -> A -> Z) (x : A) (l : list A) : list A :=
  match l with
  | [] => [x]
  | y :: l' =>
      if (compare x y <=? 0)%Z then x :: y :: l'
      else y :: insertBy compare x l'
  end.

Definition sort {A} (compare : A -> A -> Z) (l : list A) : list A :=
  fold_right (insertBy compare) [] l.

(** The [.md] suffix the link matcher removes. *)
Definition stripMd (s : string) : string :=
  if endsWith s ".md" then dropLast 3 s else s.

(** The callback [alias => alias.toLowerCase() === lower]. *)
Definition aliasIs (lower : string) (alias : Val) : Result bool :=
  bind (toLowerCaseOf alias) (fun a => Ok (a =? lower)).

(** [aliases.some(alias => alias.toLowerCase() === lower)] on the value
    of the [aliases] key: only an array has the method. *)
Definition someAlias (lower : string) (aliases : Val) : Result bool :=
  match aliases with
  | VArr l => someR (aliasIs lower) l
  | _ => Throw (TypeError "aliases.some is not a function")
  end.

(** [linksMatch(linkTarget, note)]: the aliases are read only when the
    name and the path both differ, and walked only when truthy. *)
Definition linksMatch (linkTarget : string) (note : Note) : Result bool :=
  let cleanLink := stripMd linkTarget in
  if toLowerCase cleanLink =? toLowerCase (name note) then Ok true
  else
    let cleanNotePath := stripMd (path note) in
    if toLowerCase cleanLink =? toLowerCase cleanNotePath then Ok true
    else
      match field "aliases" note with
      | Some aliases =>
          if truthy aliases then someAlias (toLowerCase cleanLink) aliases
          else Ok false
      | None => Ok false
      end.

(** The options of [searchContent]; [None] is an absent field. *)
Record SearchOptions : Type := mkSearchOptions {
  opt_tag : option string;
  opt_caseSensitive : bool;
  opt_limit : option Z
}.

(** The snippet around a match at [index] in a body of length [len]. *)
Definition snippetAt (body : string) (index len : Z) : string :=
  let start := Z.max 0 (index - 50) in
  let stop := Z.min len (index + SEARCH_SNIPPET_LENGTH) in
  (if (0 <? start)%Z then "..." else "")
  ++ substring start stop body
  ++ (if (stop <? len)%Z then "..." else "").

(** The tag filter of [searchContent]: the note lacks the required tag. *)
Definition tagExcludes (options : SearchOptions) (note : Note) : bool :=
  match opt_tag options with
  | Some t => negb (t =? "") && negb (arrIncludes (tags note) t)
  | None => false
  end.

(** A text as the search compares it: lower-cased unless the search is
    case-sensitive. *)
Definition folded (options : SearchOptions) (s : string) : string :=
  if opt_caseSensitive options then s else toLowerCase s.

(** [fmTitle.includes(searchQuery)] for a truthy [title]: a string is
    searched for the query, lower-cased first unless the search is
    case-sensitive; an array, which the case-sensitive search leaves as
    it is, is asked for an element equal to the query; nothing else has
    the methods called. *)
Definition titleIncludes (options : SearchOptions) (searchQuery : string)
    (title : Val) : Result bool :=
  if opt_caseSensitive options then
    match title with
    | VStr t => Ok (includes t searchQuery)
    | VArr l =>
        Ok (existsb (fun x => match x with
                              | VStr s => s =? searchQuery
                              | _ => false
                              end) l)
    | _ => Throw (TypeError "fmTitle.includes is not a function")
    end
  else bind (toLowerCaseOf title) (fun t => Ok (includes t searchQuery)).

(** The front-matter title test of [searchContent]. *)
Definition titleHit (options : SearchOptions) (searchQuery : string)
    (note : Note) : Result bool :=
  match field "title" note with
  | Some title =>
      if truthy title then titleIncludes options searchQuery title
      else Ok false
  | None => Ok false
  end.

(** One turn of the loop of [searchContent]: what the note pushes.  The
    position ratio [index / length] is below [0.2] exactly when five times
    the index is below the length, for every length a string can have. *)
Definition searchNote (searchQuery : string) (options : SearchOptions)
    (note : Note) : Result (option SearchResult) :=
  if tagExcludes options note then Ok None
  else
    let fold := folded options in
    let noteContent := fold (content note) in
    let noteName := fold (name note) in
    if includes noteName searchQuery then
      let score := if noteName =? searchQuery then TITLE_EXACT
                   else TITLE_PARTIAL in
      Ok (Some (mkSearchResult (path note) (name note) score None MTitle))
    else
      bind (titleHit options searchQuery note) (fun hit =>
      if hit then
        Ok (Some (mkSearchResult (path note) (name note) TITLE_PARTIAL None
                    MTitle))
      else
        let index := indexOf noteContent searchQuery in
        if (index =? -1)%Z then Ok None
        else
          let len := Z.of_nat (String.length noteContent) in
          let score := if (5 * index <? len)%Z then CONTENT_EARLY
                       else CONTENT_LATE in
          Ok (Some (mkSearchResult (path note) (name note) score
                      (Some (snippetAt (content note) index len)) MContent))).

(** What a turn adds to the results. *)
Definition pushed {A} (hit : option A) (results : list A) : list A :=
  match hit with
  | Some r => r :: results
  | None => results
  end.

(** The results in scan order, before the sort. *)
Fixpoint searchScan (searchQuery : string) (options : SearchOptions)
    (notes : list Note) : Result (list SearchResult) :=
  match notes with
  | [] => Ok []
  | note :: rest =>
      bind (searchNote searchQuery options note) (fun hit =>
      bind (searchScan searchQuery options rest) (fun results =>
      Ok (pushed hit results)))
  end.

Definition byScoreDesc (a b : SearchResult) : Z := sr_score b - sr_score a.

(** [searchContent(query, options)] over the notes of the scan. *)
Definition searchContent (notes : list Note) (query : string)
    (options : SearchOptions) : Result (list SearchResult) :=
  let searchQuery := folded options query in
  bind (searchScan searchQuery options notes) (fun scanned =>
  let results := sort byScoreDesc scanned in
  Ok (match opt_limit options with
      | Some limit => if (limit =? 0)%Z then results else slice 0 limit results
      | None => results
      end)).

(** The callback [n => n.frontmatter?.title?.toLowerCase() === lower]:
    the chain stops at an absent or [null] title. *)
Definition titleIs (lower : string) (n : Note) : Result bool :=
  match field "title" n with
  | None | Some VNull => Ok false
  | Some title => bind (toLowerCaseOf title) (fun t => Ok (t =? lower))
  end.

(** The callback [n => n.frontmatter?.aliases?.some(...)]. *)
Definition aliasNames (lower : string) (n : Note) : Result bool :=
  match field "aliases" n with
  | None | Some VNull => Ok false
  | Some aliases => someAlias lower aliases
  end.

(** [findNoteByTitle(title)] over the notes of the scan. *)
Definition findNoteByTitle (notes : list Note) (title : string)
  : Result (option Note) :=
  let lower := toLowerCase title in
  match find (fun n => toLowerCase (name n) =? lower) notes with
  | Some n => Ok (Some n)
  | None =>
  bind (findR (titleIs lower) notes) (fun titleMatch =>
  match titleMatch with
  | Some n => Ok (Some n)
  | None =>
  bind (findR (aliasNames lower) notes) (fun aliasMatch =>
  match aliasMatch with
  | Some n => Ok (Some n)
  | None => Ok (find (fun n => includes (toLowerCase (name n)) lower) notes)
  end)
  end)
  end.

(** [note.links.some(link => linksMatch(link, targetNote))], which is
    also what the inner loop of [getBacklinks] computes. *)
Definition hasLink (targetNote note : Note) : Result bool :=
  someR (fun link => linksMatch link targetNote) (links note).

(** The loop of [getBacklinks] once the target is read. *)
Fixpoint backlinksTo (notes : list Note) (targetPath : string)
    (targetNote : Note) : Result (list string) :=
  match notes with
  | [] => Ok []
  | note :: rest =>
      if path note =? targetPath then backlinksTo rest targetPath targetNote
      else
        bind (hasLink targetNote note) (fun linked =>
        bind (backlinksTo rest targetPath targetNote) (fun backlinks =>
        Ok (if linked then path note :: backlinks else backlinks)))
  end.

(** [getBacklinks(targetPath)]: [notes] is what [getAllNotes] returns and
    [readNote] the read of one note. *)
Definition getBacklinks (notes : list Note)
    (readNote : string -> Result Note) (targetPath : string)
  : Result (list string) :=
  bind (readNote targetPath) (fun targetNote =>
  backlinksTo notes targetPath targetNote).

(** The map from raw link to number of uses that [getVaultStats] builds. *)
Definition linkCounts (notes : list Note) : list (string * Z) :=
  fold_left
    (fun backlinks note =>
       fold_left
         (fun m link =>
            assign link (match lookup link m with
                         | Some k => k + 1
                         | None => 1
                         end)%Z m)
         (links note) backlinks)
    notes [].

Definition has {V} (m : list (string * V)) (k : string) : bool :=
  match lookup k m with Some _ => true | None => false end.

(** The [orphanNotes] field of [getVaultStats]. *)
Definition orphanNotes (notes : list Note) : Z :=
  let backlinks := linkCounts notes in
  Z.of_nat
    (List.length
       (filter (fun note =>
                  negb (has backlinks (name note))
                  && negb (has backlinks (path note)))
               notes)).

(** JavaScript's regular-expression engine is taken as given:
    [engine source] stands for [new RegExp(source, 'gi')], which throws a
    [SyntaxError] on a malformed source and otherwise yields the matcher
    [text => text.match(regex)], [None] being [null]. *)
Definition RegExpEngine : Type :=
  string -> Result (string -> option (list string)).

(** The source built for a term: the term, unescaped, between two
    word-boundary escapes. *)
Definition wordSource (term : string) : string :=
  "\b" ++ term ++ "\b".
Arguments wordSource : simpl never.

(** [searchTerms.push(...aliases)]: an array gives its elements, a string
    its characters, and nothing else can be spread. *)
Definition spreadOf (aliases : Val) : Result (list Val) :=
  match aliases with
  | VArr l => Ok l
  | VStr s =>
      Ok (map (fun c => VStr (String c EmptyString)) (list_ascii_of_string s))
  | _ => Throw (TypeError "Spread syntax requires an iterable")
  end.

(** The search terms: the name, then the aliases when truthy. *)
Definition searchTermsOf (targetNote : Note) : Result (list Val) :=
  match field "aliases" targetNote with
  | Some aliases =>
      if truthy aliases then
        bind (spreadOf aliases) (fun l => Ok (VStr (name targetNote) :: l))
      else Ok [VStr (name targetNote)]
  | None => Ok [VStr (name targetNote)]
  end.

(** The loop over the search terms for one note; the template literal
    turns the term into a string, and the term itself is lower-cased once
    it has matched. *)
Fixpoint searchTermsLoop (engine : RegExpEngine) (note : Note)
    (searchTerms : list Val) : Result (option SearchResult) :=
  match searchTerms with
  | [] => Ok None
  | term :: rest =>
      bind (engine (wordSource (toString term))) (fun regex =>
      match regex (content note) with
      | Some matches =>
          bind (toLowerCaseOf term) (fun lowerTerm =>
          let index := indexOf (toLowerCase (content note)) lowerTerm in
          let len := Z.of_nat (String.length (content note)) in
          Ok (Some (mkSearchResult (path note) (name note)
                      (Z.of_nat (List.length matches))
                      (Some (snippetAt (content note) index len))
                      MContent)))
      | None => searchTermsLoop engine note rest
      end)
  end.

(** The loop over the notes. *)
Fixpoint unlinkedLoop (engine : RegExpEngine) (targetPath : string)
    (targetNote : Note) (searchTerms : list Val) (notes : list Note)
  : Result (list SearchResult) :=
  match notes with
  | [] => Ok []
  | note :: rest =>
      if path note =? targetPath then
        unlinkedLoop engine targetPath targetNote searchTerms rest
      else
        bind (hasLink targetNote note) (fun linked =>
        if linked then
          unlinkedLoop engine targetPath targetNote searchTerms rest
        else
          bind (searchTermsLoop engine note searchTerms) (fun hit =>
          bind (unlinkedLoop engine targetPath targetNote searchTerms rest)
               (fun results => Ok (pushed hit results))))
  end.

(** [getUnlinkedReferences(targetPath, limit)] *)
Definition getUnlinkedReferences (engine : RegExpEngine) (notes : list Note)
    (readNote : string -> Result Note) (targetPath : string) (limit : Z)
  : Result (list SearchResult) :=
  bind (readNote targetPath) (fun targetNote =>
  bind (searchTermsOf targetNote) (fun searchTerms =>
  bind (unlinkedLoop engine targetPath targetNote searchTerms notes)
       (fun results => Ok (slice 0 limit results)))).

End VaultService.

(** ** The file system under the vault *)

Module Fs.

Record File : Type := mkFileEntry {
  f_text : string;
  f_mtime : Z;
  f_birthtime : Z
}.

(** Files by absolute path, and the clock that stamps the writes. *)
Record State : Type := mkState {
  files : list (string * File);
  clock : Z
}.

(** An operation on the file system: it returns or throws, and leaves a
    state behind in both cases. *)
Definition M (A : Type) : Type := State -> Result A * State.

Definition ret {A} (a : A) : M A := fun st => (Ok a, st).

Definition throw {A} (e : Error) : M A := fun st => (Throw e, st).

Definition seq {A B} (m : M A) (k : A -> M B) : M B :=
  fun st =>
    match m st with
    | (Ok a, st') => k a st'
    | (Throw e, st') => (Throw e, st')
    end.

(** [try { m } catch (error) { throw h }] *)
Definition rethrow {A} (m : M A) (h : Error) : M A :=
  fun st =>
    match m st with
    | (Ok a, st') => (Ok a, st')
    | (Throw _, st') => (Throw h, st')
    end.

Fixpoint remove {V} (k : string) (o : list (string * V))
  : list (string * V) :=
  match o with
  | [] => []
  | (k', v) :: o' =>
      if k' =? k then remove k o' else (k', v) :: remove k o'
  end.

(** [fs.readFile(p, 'utf-8')] *)
Definition readFile (p : string) : M string :=
  fun st =>
    match lookup p (files st) with
    | Some f => (Ok (f_text f), st)
    | None => (Throw (Err "ENOENT"), st)
    end.

(** [fs.stat(p)]: [mtime] and [birthtime]. *)
Definition stat (p : string) : M (Z * Z) :=
  fun st =>
    match lookup p (files st) with
    | Some f => (Ok (f_mtime f, f_birthtime f), st)
    | None => (Throw (Err "ENOENT"), st)
    end.

(** [fs.writeFile(p, text, 'utf-8')], in a directory that exists. *)
Definition writeFile (p text : string) : M unit :=
  fun st =>
    let born := match lookup p (files st) with
                | Some f => f_birthtime f
                | None => clock st
                end in
    (Ok tt,
     mkState (assign p (mkFileEntry text (clock st) born) (files st))
             (clock st + 1)).

(** [fs.unlink(p)] *)
Definition unlink (p : string) : M unit :=
  fun st =>
    match lookup p (files st) with
    | Some _ => (Ok tt, mkState (remove p (files st)) (clock st))
    | None => (Throw (Err "ENOENT"), st)
    end.

Definition exists_ (p : string) (st : State) : bool :=
  match lookup p (files st) with Some _ => true | None => false end.

End Fs.

(** ** The vault service: notes on disk *)

Module VaultFiles.

Import Fs.

Section Service.

(** gray-matter's parser and serialiser, and the root of the vault. *)
Variable matter : Matter.
Variable stringify : string -> NoteFrontmatter -> string.
Variable vaultPath : string.

(** [getAbsolutePath(relativePath)] *)
Definition getAbsolutePath (relativePath : string) : string :=
  let cleanPath := if startsWith relativePath "/" then drop 1 relativePath
                   else relativePath in
  Path.join vaultPath cleanPath.

(** The error of a failed read or delete. *)
Definition notFound (relativePath : string) : Error :=
  Err (NOTE_NOT_FOUND ++ ": " ++ relativePath).

(** [readNote(relativePath)] *)
Definition readNote (relativePath : string) : M Note :=
  let absolutePath := getAbsolutePath relativePath in
  rethrow
    (seq (readFile absolutePath) (fun text =>
     seq (stat absolutePath) (fun stats =>
     fun st => (parseNote matter vaultPath absolutePath text stats, st))))
    (notFound relativePath).

(** [{ ...existing, ...update }]; [None] is [null]. *)
Definition spread (existing : option NoteFrontmatter)
    (update : NoteFrontmatter) : NoteFrontmatter :=
  fold_left (fun o kv => assign (fst kv) (snd kv) o) update
            (match existing with Some fm => fm | None => [] end).

(** The new body [updateNote] computes; [None] is [undefined]. *)
Definition newContentOf (existing : Note) (content : option string)
    (append : bool) : string :=
  let newContent := match content with
                    | Some c => c
                    | None => Types.content existing
                    end in
  match content with
  | Some c =>
      if append && negb (c =? "")
      then Types.content existing ++ String LF (String LF c)
      else newContent
  | None => newContent
  end.

(** The new front matter [updateNote] computes. *)
Definition newFrontmatterOf (existing : Note)
    (fm : option NoteFrontmatter) : option NoteFrontmatter :=
  match fm with
  | Some update => Some (spread (frontmatter existing) update)
  | None => frontmatter existing
  end.

(** The text written to disk for a body and a front matter. *)
Definition fullContentOf (body : string) (fm : option NoteFrontmatter)
  : string :=
  match fm with
  | Some o => if (0 <? List.length o)%nat then stringify body o else body
  | None => body
  end.

(** [updateNote(relativePath, content, frontmatter, append)] *)
Definition updateNote (relativePath : string) (content : option string)
    (fm : option NoteFrontmatter) (append : bool) : M Note :=
  seq (readNote relativePath) (fun existing =>
  let absolutePath := getAbsolutePath relativePath in
  let newContent := newContentOf existing content append in
  let newFrontmatter := newFrontmatterOf existing fm in
  let fullContent := fullContentOf newContent newFrontmatter in
  seq (writeFile absolutePath fullContent) (fun _ =>
  readNote relativePath)).

(** [deleteNote(relativePath)] *)
Definition deleteNote (relativePath : string) : M unit :=
  let absolutePath := getAbsolutePath relativePath in
  rethrow (unlink absolutePath) (notFound relativePath).

End Service.

End VaultFiles.

(** ** The note tools (tools/notes.ts) *)

Module NoteTools.

Import Fs.

Record DeleteNoteInput : Type := mkDeleteNoteInput {
  dn_path : string;
  dn_confirm : bool
}.

Definition CONFIRM_REQUIRED : Error :=
  Err "Deletion must be confirmed with confirm: true".

(** [deleteNote(input)] *)
Definition deleteNote (vaultPath : string) (input : DeleteNoteInput)
  : M string :=
  if negb (dn_confirm input) then throw CONFIRM_REQUIRED
  else
    seq (VaultFiles.deleteNote vaultPath (dn_path input)) (fun _ =>
    ret ("Note deleted successfully: " ++ dn_path input)%string).

Record ListNotesInput : Type := mkListNotesInput {
  ln_tag : option string;
  ln_limit : Z;
  ln_offset : Z
}.

(** The payload [listNotes] hands to its formatter. *)
Record NoteList : Type := mkNoteList {
  nl_notes : list Note;
  nl_total : Z;
  nl_limit : Z;
  nl_offset : Z
}.

Definition byModifiedDesc (a b : Note) : Z := modified b - modified a.

(** The notes after the tag filter. *)
Definition tagFiltered (allNotes : list Note) (tag : option string)
  : list Note :=
  match tag with
  | Some t => if t =? "" then allNotes
              else filter (fun note => arrIncludes (tags note) t) allNotes
  | None => allNotes
  end.

(** The notes after the tag filter and the sort, newest first. *)
Definition filteredNotes (allNotes : list Note) (tag : option string)
  : list Note :=
  VaultService.sort byModifiedDesc (tagFiltered allNotes tag).

(** [listNotes(input)] over the scan of the input's folder. *)
Definition listNotes (allNotes : list Note) (input : ListNotesInput)
  : NoteList :=
  let sorted := filteredNotes allNotes (ln_tag input) in
  let total := Z.of_nat (List.length sorted) in
  let paginatedNotes :=
    slice (ln_offset input) (ln_offset input + ln_limit input) sorted in
  mkNoteList paginatedNotes total (ln_limit input) (ln_offset input).

End NoteTools.

(** ** The link tools (tools/links.ts) *)

Module LinkTools.

(** A loop whose body can throw. *)
Fixpoint foldR {A B} (f : B -> A -> Result B) (xs : list A) (acc : B)
  : Result B :=
  match xs with
  | [] => Ok acc
  | x :: rest => bind (f acc x) (foldR f rest)
  end.

(** The set of paths that some link resolves to; every call of
    [findNoteByTitle] is given the notes the scan of [getOrphans] found. *)
Definition hasBacklinks (allNotes : list Note) : Result (list string) :=
  foldR
    (fun acc note =>
       foldR
         (fun acc' link =>
            bind (VaultService.findNoteByTitle allNotes link)
                 (fun targetNote =>
            Ok (match targetNote with
                | Some targetNote => setAdd (path targetNote) acc'
                | None => acc'
                end)))
         (links note) acc)
    allNotes [].

(** The [orphans] list of [getOrphans(input)]. *)
Definition getOrphans (allNotes : list Note) : Result (list string) :=
  bind (hasBacklinks allNotes) (fun linked =>
  Ok (map path (filter (fun note => negb (arrIncludes linked (path note)))
                       allNotes))).

End LinkTools.

(** ** The navigation tools (tools/navigation.ts) *)

Module NavigationTools.

(** The note a link leads to in the graph view. *)
Definition linkedNote (allNotes : list Note) (link : string) : option Note :=
  find (fun n => (path n =? link) || (path n =? (link ++ ".md")%string)
                 || (name n =? link)) allNotes.

(** What the loop over the links of a note pushes on the queue. *)
Fixpoint linkPushes (allNotes : list Note) (included : list string)
    (depth : Z) (ls : list string) : list (string * Z) :=
  match ls with
  | [] => []
  | link :: rest =>
      match linkedNote allNotes link with
      | Some n =>
          if arrIncludes included (path n)
          then linkPushes allNotes included depth rest
          else (path n, depth + 1)%Z
               :: linkPushes allNotes included depth rest
      | None => linkPushes allNotes included depth rest
      end
  end.

(** What the loop over the known backlinks of a note pushes. *)
Definition backlinkPushes (included : list string) (depth : Z)
    (bl : option (list string)) : list (string * Z) :=
  match bl with
  | Some l =>
      map (fun b => (b, depth + 1)%Z)
          (filter (fun b => negb (arrIncludes included b)) l)
  | None => []
  end.

(** The state of the traversal: the set of included paths, the result and
    the queue. *)
Record Traversal : Type := mkTraversal {
  included : list string;
  result : list Note;
  queue : list (string * Z)
}.

(** One turn of the [while] loop; [None] when its condition fails. *)
Definition step (allNotes : list Note) (maxDepth maxNotes : Z)
    (t : Traversal) : option Traversal :=
  match queue t with
  | [] => None
  | current :: rest =>
      if negb (Z.of_nat (List.length (result t)) <? maxNotes)%Z then None
      else if arrIncludes (included t) (fst current)
              || (maxDepth <? snd current)%Z
      then Some (mkTraversal (included t) (result t) rest)
      else
        match find (fun n => path n =? fst current) allNotes with
        | None => Some (mkTraversal (included t) (result t) rest)
        | Some note =>
            let included' := included t ++ [fst current] in
            let pushes :=
              if (snd current <? maxDepth)%Z then
                linkPushes allNotes included' (snd current) (links note)
                ++ backlinkPushes included' (snd current) (backlinks note)
              else [] in
            Some (mkTraversal included' (result t ++ [note])
                              (rest ++ pushes))
        end
  end.

(** The loop, for at most [fuel] turns. *)
Fixpoint run (allNotes : list Note) (maxDepth maxNotes : Z) (fuel : nat)
    (t : Traversal) : option (list Note) :=
  match step allNotes maxDepth maxNotes t with
  | None => Some (result t)
  | Some t' =>
      match fuel with
      | O => None
      | S fuel' => run allNotes maxDepth maxNotes fuel' t'
      end
  end.

Definition degree (n : Note) : nat :=
  List.length (links n)
  + match backlinks n with Some l => List.length l | None => 0 end.

(** A number of turns no traversal of these notes exceeds. *)
Definition turns (allNotes : list Note) : nat :=
  S (list_sum (map degree allNotes)).

(** [getConnectedNotes(centralPath, allNotes, maxDepth, maxNotes)] *)
Definition getConnectedNotes (centralPath : string) (allNotes : list Note)
    (maxDepth maxNotes : Z) : option (list Note) :=
  run allNotes maxDepth maxNotes (turns allNotes)
      (mkTraversal [] [] [(centralPath, 0%Z)]).

End NavigationTools.

(** ** Notions used to state the properties *)

(** A link whose target is an external URL. *)
Definition externalTarget (l : ParsedLink) : bool :=
  startsWith (target l) "http://" || startsWith (target l) "https://".


(** ** The link graph the traversal walks *)

Module Graph.

Section Reach.

Variable allNotes : list Note.
Variable centralPath : string.

(** The note the traversal finds at a path. *)
Definition noteAt (p : string) : option Note :=
  find (fun n => path n =? p) allNotes.

(** The path [p] is a neighbour of the note: one of its links leads to
    the note at [p], or [p] is one of its known backlinks. *)
Definition neighbor (n : Note) (p : string) : Prop :=
  (exists link m, In link (links n)
                  /\ NavigationTools.linkedNote allNotes link = Some m
                  /\ path m = p)
  \/ (exists bl, backlinks n = Some bl /\ In p bl).

(** The path is reached from the central path in [d] hops. *)
Inductive reach : Z -> string -> Prop :=
| reach_central : reach 0 centralPath
| reach_next (d : Z) (q : string) (n : Note) (p : string) :
    reach d q -> noteAt q = Some n -> neighbor n p -> reach (d + 1) p.

(** What is still to do in a traversal: the queue, and the links and
    backlinks of the notes not yet included. *)
Definition pending (inc : list string) : nat :=
  list_sum (map NavigationTools.degree
              (filter (fun n => negb (arrIncludes inc (path n))) allNotes)).

Definition measure (t : NavigationTools.Traversal) : nat :=
  List.length (NavigationTools.queue t)
  + pending (NavigationTools.included t).

Variable maxDepth maxNotes : Z.

(** A note of the result with the depth at which it was taken. *)
Definition taken (n : Note) (d : Z) : Prop :=
  noteAt (path n) = Some n /\ (0 <= d <= maxDepth)%Z /\ reach d (path n).

(** A queue entry that may be taken. *)
Definition waiting (e : string * Z) : Prop :=
  (0 <= snd e <= maxDepth)%Z /\ reach (snd e) (fst e).

(** The queue holds at most two depths, that of its head and the next. *)
Definition twoLayers (q : list (string * Z)) : Prop :=
  match q with
  | [] => True
  | e :: _ => Forall (fun e' => (snd e' <= snd e + 1)%Z) q
  end.

(** What every turn of the loop keeps true; [ds] lists the depths at
    which the notes of the result were taken. *)
Record Inv (t : NavigationTools.Traversal) (ds : list Z) : Prop := mkInv {
  inv_included :
    NavigationTools.included t = map path (NavigationTools.result t);
  inv_nodup : NoDup (NavigationTools.included t);
  inv_count :
    (Z.of_nat (List.length (NavigationTools.result t)) <= maxNotes)%Z;
  inv_taken : Forall2 taken (NavigationTools.result t) ds;
  inv_sorted :
    StronglySorted Z.le (ds ++ map snd (NavigationTools.queue t));
  inv_waiting : Forall waiting (NavigationTools.queue t);
  inv_layers : twoLayers (NavigationTools.queue t)
}.

(** What the caller gets: at most [maxNotes] notes, no path twice, each
    taken at a depth of at most [maxDepth], in order of depth. *)
Definition bounded (r : list Note) (ds : list Z) : Prop :=
  (Z.of_nat (List.length r) <= maxNotes)%Z
  /\ NoDup (map path r)
  /\ Forall2 taken r ds
  /\ StronglySorted Z.le ds.

(** The result holds a note at the path [p], taken at a depth of at most
    [d]. *)
Definition takenBy (r : list Note) (ds : list Z) (p : string) (d : Z)
  : Prop :=
  exists n dn, In (n, dn) (combine r ds) /\ path n = p /\ (dn <= d)%Z.

(** Nothing is lost on the way: the central path, and every neighbour
    that holds a note of each note taken above the last depth, is either
    taken already or waiting in the queue, one hop further. *)
Record Closed (t : NavigationTools.Traversal) (ds : list Z) : Prop :=
  mkClosed {
  closed_root :
    takenBy (NavigationTools.result t) ds centralPath 0
    \/ In (centralPath, 0%Z) (NavigationTools.queue t)
    \/ noteAt centralPath = None;
  closed_next :
    forall n dn p,
      In (n, dn) (combine (NavigationTools.result t) ds) ->
      (dn < maxDepth)%Z -> neighbor n p -> noteAt p <> None ->
      takenBy (NavigationTools.result t) ds p (dn + 1)
      \/ In (p, (dn + 1)%Z) (NavigationTools.queue t)
}.

(** What the caller does not miss: a path that holds a note and is reached
    in [d <= maxDepth] hops has its note in the result, taken at a depth of
    at most [d], unless the result is full, and then with no note taken
    deeper than [d]. *)
Definition complete (r : list Note) (ds : list Z) : Prop :=
  forall d p n,
    reach d p -> (d <= maxDepth)%Z -> noteAt p = Some n ->
    (In n r /\ takenBy r ds p d)
    \/ (Z.of_nat (List.length r) = maxNotes
        /\ Forall (fun dn => (dn <= d)%Z) ds).

End Reach.

End Graph.

(** ** Front-matter tags that [extractTags] can walk *)

Definition isStr (v : Val) : bool :=
  match v with VStr _ => true | _ => false end.

(** The [tags] value is absent, falsy, or an array of strings. *)
Definition tagsWalkable (v : option Val) : bool :=
  match v with
  | None => true
  | Some (VArr l) => forallb isStr l
  | Some v => negb (truthy v)
  end.

(** ** Front matter that the queries can read *)

(** The [title] key is absent, [null] or a string. *)
Definition titleReadable (n : Note) : bool :=
  match field "title" n with
  | None | Some VNull | Some (VStr _) => true
  | Some _ => false
  end.

(** The [aliases] key is absent, [null] or an array of strings. *)
Definition aliasesReadable (n : Note) : bool :=
  match field "aliases" n with
  | None | Some VNull => true
  | Some (VArr l) => forallb isStr l
  | Some _ => false
  end.

(** The aliases of a note whose [aliases] key is readable. *)
Definition aliasesOf (n : Note) : list string :=
  match field "aliases" n with
  | Some (VArr l) => strings l
  | _ => []
  end.

(** The test returned true. *)
Definition holds (r : Result bool) : bool :=
  match r with
  | Ok b => b
  | Throw _ => false
  end.

(** The link names the note: with a trailing [.md] removed it is, case
    ignored, the file name, the path with a trailing [.md] removed, or an
    alias as written. *)
Definition named (link : string) (n : Note) : bool :=
  let lower := toLowerCase (VaultService.stripMd link) in
  (lower =? toLowerCase (name n))
  || (lower =? toLowerCase (VaultService.stripMd (path n)))
  || existsb (fun alias => toLowerCase alias =? lower) (aliasesOf n).

(** ** Regular-expression sources built from a term *)

Module RegExp.

(** The syntax characters of a pattern. *)
Definition isSyntaxCharacter (c : ascii) : bool :=
  existsb (isChar c)
    ["^"; "$"; "\"; "."; "*"; "+"; "?"; "("; ")"; "["; "]"; "{"; "}"; "|"]%char.

(** The term contains no syntax character. *)
Fixpoint metaFree (term : string) : bool :=
  match term with
  | EmptyString => true
  | String c term' => negb (isSyntaxCharacter c) && metaFree term'
  end.

(** The term of a source that ends in the word-boundary escape. *)
Fixpoint beforeBoundary (s : string) : option string :=
  match s with
  | EmptyString => None
  | String c s' =>
      match beforeBoundary s' with
      | Some t => Some (String c t)
      | None => if isChar c "\" && (s' =? "b") then Some EmptyString
                else None
      end
  end.

Definition isWordChar (c : option ascii) : bool :=
  match c with
  | Some c => isAlnum c || isChar c "_"
  | None => false
  end.

(** A word boundary lies between the two characters. *)
Definition boundary (prev next : option ascii) : bool :=
  xorb (isWordChar prev) (isWordChar next).

Definition first (s : string) : option ascii :=
  match s with String c _ => Some c | EmptyString => None end.

Fixpoint lastOr (prev : option ascii) (s : string) : option ascii :=
  match s with
  | EmptyString => prev
  | String c s' => lastOr (Some c) s'
  end.

(** The term at the head of the text, case ignored: the text matched and
    what follows it. *)
Fixpoint literalAt (term text : string) : option (string * string) :=
  match term, text with
  | EmptyString, _ => Some (EmptyString, text)
  | String a term', String b text' =>
      if Ascii.eqb (lowerChar a) (lowerChar b) then
        match literalAt term' text' with
        | Some (m, r) => Some (String b m, r)
        | None => None
        end
      else None
  | String _ _, EmptyString => None
  end.

Definition wordAt (term : string) (prev : option ascii) (text : string)
  : option string :=
  if boundary prev (first text) then
    match literalAt term text with
    | Some (m, r) => if boundary (lastOr prev m) (first r) then Some m
                     else None
    | None => None
    end
  else None.

(** All matches of the term as a whole word, left to right. *)
Fixpoint wordScan (term : string) (prev : option ascii) (skip : nat)
    (text : string) : list string :=
  match text with
  | EmptyString =>
      match skip, wordAt term prev EmptyString with
      | O, Some m => [m]
      | _, _ => []
      end
  | String c text' =>
      match skip with
      | S k => wordScan term (Some c) k text'
      | O =>
          match wordAt term prev text with
          | Some m => m :: wordScan term (Some c) (String.length m - 1) text'
          | None => wordScan term (Some c) 0 text'
          end
      end
  end.

(** An engine for whole-word literal sources: a source whose term has no
    syntax character compiles to the case-insensitive global whole-word
    search of the term.  Any other source is rejected here; JavaScript
    rejects some of them and accepts others. *)
Definition wordEngine : VaultService.RegExpEngine :=
  fun source =>
    match source with
    | String "\" (String "b" rest) =>
        match beforeBoundary rest with
        | Some term =>
            if metaFree term then
              Ok (fun text => match wordScan term None 0 text with
                              | [] => None
                              | ms => Some ms
                              end)
            else Throw (SyntaxError "Invalid regular expression")
        | None => Throw (SyntaxError "Invalid regular expression")
        end
    | _ => Throw (SyntaxError "Invalid regular expression")
    end.

(** The note lacks a link to the target, so its body is searched. *)
Definition searched (targetPath : string) (targetNote note : Note) : bool :=
  negb (path note =? targetPath)
  && match VaultService.hasLink targetNote note with
     | Ok linked => negb linked
     | Throw _ => false
     end.

End RegExp.

(** ** Sample vaults *)

Module Samples.

(** A vault at [/vault] that holds the one file [a.md]. *)
Definition oneFile : Fs.State :=
  Fs.mkState [("/vault/a.md", Fs.mkFileEntry "Original" 7 3)] 10.

(** A note with the given path, name, body, front matter and links. *)
Definition note (p n body : string) (fm : option NoteFrontmatter)
    (ls : list string) : Note :=
  mkNote p n body fm [] ls [] [] None 0 0.

(** Reading a note of a scan by its path. *)
Definition readIn (notes : list Note) (relativePath : string)
  : Result Note :=
  match find (fun n => path n =? relativePath) notes with
  | Some n => Ok n
  | None => Throw (VaultFiles.notFound relativePath)
  end.

(** [A.md] links to [B]; [B.md] declares the alias [Bee]. *)
Definition noteA : Note := note "A.md" "A" "Link to [[B]]" None ["B"].
Definition noteB : Note :=
  note "B.md" "B" "" (Some [("aliases", VArr [VStr "Bee"])]) [].
Definition vaultAB : list Note := [noteA; noteB].

(** A note stored with the long extension, and a link to it by path. *)
Definition longExt : Note := note "notes/b.markdown" "b" "" None [].
Definition toLongExt : Note :=
  note "index.md" "index" "[[notes/b]]" None ["notes/b"].

(** A note whose alias ends in [.md], and a link that spells the alias. *)
Definition aliasMd : Note :=
  note "b.md" "b" "" (Some [("aliases", VArr [VStr "Bee.md"])]) [].
Definition toAliasMd : Note :=
  note "index.md" "index" "[[Bee.md]]" None ["Bee.md"].

(** A note whose aliases are one scalar, not a list, and a note that
    links to another name before it links to that note. *)
Definition solo : Note :=
  note "B.md" "B" "" (Some [("aliases", VStr "solo")]) [].
Definition toSolo : Note :=
  note "A.md" "A" "[[X]] and [[B]]" None ["X"; "B"].

(** Three notes modified at different times. *)
Definition dated : list Note :=
  [ mkNote "x.md" "x" "" None [] [] [] [] None 1 5;
    mkNote "y.md" "y" "" None [] [] [] [] None 2 9;
    mkNote "z.md" "z" "" None [] [] [] [] None 3 7 ].

(** Three notes that match the query [plan]: in the body, late and early,
    and in the name. *)
Definition searched : list Note :=
  [ note "late.md" "late" "0123456789 0123456789 plan" None [];
    note "early.md" "early" "plan first" None [];
    note "Plan.md" "Plan" "" None [] ].

(** A note whose title the YAML reads as a number. *)
Definition yearTitle : Note :=
  note "review.md" "review" "plan for the year" (Some [("title", VNum 2024)])
       [].

(** gray-matter on a text that opens with no front-matter fence: no data,
    and the text as the body.  Fenced texts are left to the library. *)
Definition plainMatter : Matter :=
  fun text =>
    if startsWith text "---"
    then Throw (Err "front matter block: see gray-matter")
    else Ok (mkFile [] text).

(** A serialiser for notes without front matter, where none is called. *)
Definition plainStringify (body : string) (fm : NoteFrontmatter) : string :=
  body.

(** [A.md] links to [b], in lower case; [B.md] has no links. *)
Definition lowerLink : list Note :=
  [ note "A.md" "A" "see [[b]]" None ["b"];
    note "B.md" "B" "" None [] ].

(** A note named by an opening parenthesis, and a note that mentions
    [Plan] without linking to it. *)
Definition paren : Note := note "(.md" "(" "" None [].
Definition mention : Note :=
  note "log.md" "log" "the plan, and Plan B" None [].
Definition planNote : Note :=
  note "Plan.md" "Plan" "" (Some [("aliases", VArr [VStr "roadmap"])]) [].

(** A file whose front matter gives [tags] as a scalar. *)
Definition scalarTagsText : string :=
  "---" ++ String LF ("tags: foo" ++ String LF ("---" ++ String LF "body")).

(** gray-matter on that file: the data holds the string, the body is what
    follows the fence.  Other texts go to [plainMatter]. *)
Definition scalarTagsMatter : Matter :=
  fun text =>
    if text =? scalarTagsText
    then Ok (mkFile [("tags", VStr "foo")] "body")
    else plainMatter text.

(** A chain of links: [a] to [b] to [c]. *)
Definition chain : list Note :=
  [ note "a.md" "a" "[[b]]" None ["b"];
    note "b.md" "b" "[[c]]" None ["c"];
    note "c.md" "c" "" None [] ].

(** Notes with nested tags and with front-matter fields. *)
Definition tagged : list Note :=
  [ mkNote "c.md" "c" "" (Some [("status", VStr "draft")])
      ["project/alpha"] [] [] [] None 0 0;
    mkNote "d.md" "d" "" (Some [("keywords", VArr [VStr "x"; VStr "y"])])
      ["project"] [] [] [] None 0 0;
    mkNote "e.md" "e" "" None ["beta"] [] [] [] None 0 0 ].

End Samples.

(** ** Pagination *)

(** The first [n] pages of [listNotes] for a page size [L], one after the
    other: the offsets are 0, L, 2L and so on. *)
Definition pagesOf (allNotes : list Note) (tag : option string) (L : Z)
    (n : nat) : list Note :=
  flat_map
    (fun i => NoteTools.nl_notes
                (NoteTools.listNotes allNotes
                   (NoteTools.mkListNotesInput tag L (Z.of_nat i * L))))
    (seq 0 n).

(** Descending order of a numeric key. *)
Definition descendingBy {A} (key : A -> Z) (l : list A) : Prop :=
  StronglySorted (fun a b => (key b <= key a)%Z) l.

(** The elements with a given key, in the order of the list. *)
Definition withKey {A} (key : A -> Z) (k : Z) (l : list A) : list A :=
  filter (fun a => (key a =? k)%Z) l.

(** ** The link relation as the specification words it *)

Module Spec.

(** A trailing markdown extension, [.md] or [.markdown], removed. *)
Definition stripMarkdownExt (s : string) : string :=
  if endsWith s ".md" then dropLast 3 s
  else if endsWith s ".markdown" then dropLast 9 s
  else s.

Definition sameIgnoringCaseAndExt (a b : string) : bool :=
  toLowerCase (stripMarkdownExt a) =? toLowerCase (stripMarkdownExt b).

(** The link names the note by file name, by path or by an alias. *)
Definition refersTo (link : string) (n : Note) : bool :=
  sameIgnoringCaseAndExt link (name n)
  || sameIgnoringCaseAndExt link (path n)
  || match field "aliases" n with
     | Some (VArr aliases) =>
         existsb (sameIgnoringCaseAndExt link) (strings aliases)
     | _ => false
     end.

End Spec.


(** ** The vault service: suggestions, tags and file checks *)

Module VaultLookup.

(** [isMarkdownFile(filePath)] *)
Definition isMarkdownFile (filePath : string) : bool :=
  arrIncludes MARKDOWN_EXTENSIONS (toLowerCase (Path.extname filePath)).

(** [getSuggestions(title, limit)] over the notes of the scan. *)
Definition getSuggestions (notes : list Note) (title : string) (limit : Z)
  : list string :=
  let lowerTitle := toLowerCase title in
  map name
      (slice 0 limit
         (filter (fun n => includes (toLowerCase (name n)) lowerTitle)
                 notes)).

Record TagInfo : Type := mkTagInfo {
  ti_tag : string;
  ti_count : Z
}.

(** The map from tag to number of uses, in order of first use. *)
Definition tagCounts (notes : list Note) : list (string * Z) :=
  fold_left
    (fun counts note =>
       fold_left
         (fun m tag =>
            assign tag (match lookup tag m with
                        | Some k => k + 1
                        | None => 1
                        end)%Z m)
         (tags note) counts)
    notes [].

Definition byCountDesc (a b : TagInfo) : Z := ti_count b - ti_count a.

(** [getAllTags()] over the notes of the scan. *)
Definition getAllTags (notes : list Note) : list TagInfo :=
  VaultService.sort byCountDesc
    (map (fun e => mkTagInfo (fst e) (snd e)) (tagCounts notes)).

End VaultLookup.

(** ** The note tools: reading and creating *)

Module NoteAccess.

Import Fs.

Record GetNoteInput : Type := mkGetNoteInput {
  gn_path : option string;
  gn_title : option string
}.

(** [parts.join(sep)] *)
Fixpoint join (sep : string) (parts : list string) : string :=
  match parts with
  | [] => EmptyString
  | [p] => p
  | p :: rest => (p ++ sep ++ join sep rest)%string
  end.

(** The error of a title that resolves to no note. *)
Definition titleNotFound (title : string) (suggestions : list string)
  : Error :=
  let suggestionText :=
    match suggestions with
    | [] => EmptyString
    | _ => (" Did you mean: " ++ join ", " suggestions ++ "?")%string
    end in
  Err ("Note not found: '" ++ title ++ "'." ++ suggestionText)%string.

Definition nonEmpty (s : option string) : option string :=
  match s with
  | Some EmptyString => None
  | _ => s
  end.

(** The note [getNote(input)] formats: by path when a path is given, else
    by title.  [notes] is the scan [findNoteByTitle] makes and [rescan]
    the one [getSuggestions] makes after it. *)
Definition getNote (notes rescan : list Note)
    (readNote : string -> Result Note) (input : GetNoteInput)
  : Result Note :=
  match nonEmpty (gn_path input) with
  | Some p => readNote p
  | None =>
      match nonEmpty (gn_title input) with
      | Some title =>
          bind (VaultService.findNoteByTitle notes title) (fun found =>
          match found with
          | Some note => Ok note
          | None =>
              Throw (titleNotFound title
                       (VaultLookup.getSuggestions rescan title 5))
          end)
      | None => Throw (Err "Note not found")
      end
  end.

(** The path [createNote(input)] of the note tools hands to the vault. *)
Definition notePath (p : string) : string :=
  if endsWith p ".md" then p else (p ++ ".md")%string.

(** [createNote(relativePath, content, frontmatter, createFolders)] of the
    vault service, in a parent folder that exists or is created: the
    directories of the file system are not modelled, so [createFolders]
    and the creation of the parent folders leave no trace, and the write
    is one that succeeds. *)
Definition createNote (matter : Matter)
    (stringify : string -> NoteFrontmatter -> string) (vaultPath : string)
    (relativePath content : string) (fm : option NoteFrontmatter)
  : M Note :=
  let absolutePath := VaultFiles.getAbsolutePath vaultPath relativePath in
  let fullContent := VaultFiles.fullContentOf stringify content fm in
  seq (writeFile absolutePath fullContent) (fun _ =>
  VaultFiles.readNote matter vaultPath relativePath).

End NoteAccess.


(** ** The search tools (tools/search.ts) *)

Module SearchTools.

(** The tag [searchTags(input)] looks for: a leading hash removed. *)
Definition searchTag (tag : string) : string :=
  if startsWith tag "#" then drop 1 tag else tag.

(** A tag of a note answers the query: the same tag, or one nested
    below it. *)
Definition tagAnswers (query tag : string) : bool :=
  (tag =? query) || startsWith tag (query ++ "/")%string.

(** The [matchingNotes] of [searchTags(input)]. *)
Definition searchTags (allNotes : list Note) (tag : string) : list Note :=
  filter (fun note => existsb (tagAnswers (searchTag tag)) (tags note))
         allNotes.

(** The properties every object inherits from [Object.prototype]. *)
Definition inheritedKeys : list string :=
  [ "constructor"; "toString"; "toLocaleString"; "valueOf";
    "hasOwnProperty"; "isPrototypeOf"; "propertyIsEnumerable";
    "__proto__"; "__defineGetter__"; "__defineSetter__";
    "__lookupGetter__"; "__lookupSetter__" ].

(** What reading a field of the front matter gives. *)
Inductive FieldValue : Type :=
| Own (v : Val)
| Inherited
| Undefined.

(** [note.frontmatter[field]] *)
Definition readField (fm : NoteFrontmatter) (field : string) : FieldValue :=
  match lookup field fm with
  | Some v => Own v
  | None => if arrIncludes inheritedKeys field then Inherited else Undefined
  end.

Section Frontmatter.

(** [String(member)] of an inherited member, as the engine prints it. *)
Variable inheritedText : string -> string.

(** The filter of [searchFrontmatter(input)]; a [value] of [None] is an
    omitted value. *)
Definition fieldMatches (field : string) (value : option string)
    (note : Note) : bool :=
  match frontmatter note with
  | None => false
  | Some fm =>
      match value, readField fm field with
      | None, Undefined => false
      | None, _ => true
      | Some v, Own (VArr l) => existsb (fun x => toString x =? v) l
      | Some v, Own x => toString x =? v
      | Some v, Inherited => inheritedText field =? v
      | Some v, Undefined => "undefined" =? v
      end
  end.

(** The [matchingNotes] of [searchFrontmatter(input)]. *)
Definition searchFrontmatter (allNotes : list Note) (field : string)
    (value : option string) : list Note :=
  filter (fieldMatches field value) allNotes.

End Frontmatter.

End SearchTools.

(** ** The navigation tools: graph data *)

Module GraphView.

Record GraphNode : Type := mkGraphNode {
  gn_id : string;
  gn_label : string;
  gn_tags : list string;
  gn_linkCount : Z;
  gn_backlinks : Z
}.

Record GraphEdge : Type := mkGraphEdge {
  ge_source : string;
  ge_target : string
}.

Definition backlinkCount (n : Note) : Z :=
  match backlinks n with
  | Some l => Z.of_nat (List.length l)
  | None => 0
  end.

Definition nodeOf (n : Note) : GraphNode :=
  mkGraphNode (path n) (name n) (tags n)
              (Z.of_nat (List.length (links n))) (backlinkCount n).

(** The edges a note contributes: one per link that leads to a note of
    the graph. *)
Definition edgesOf (notes : list Note) (n : Note) : list GraphEdge :=
  flat_map
    (fun link =>
       match NavigationTools.linkedNote notes link with
       | Some t => [mkGraphEdge (path n) (path t)]
       | None => []
       end)
    (links n).

(** [buildGraphData(notes)] *)
Definition buildGraphData (notes : list Note)
  : list GraphNode * list GraphEdge :=
  (map nodeOf notes, flat_map (edgesOf notes) notes).

Definition connections (n : Note) : Z :=
  Z.of_nat (List.length (links n)) + backlinkCount n.

Definition byConnectionsDesc (a b : Note) : Z :=
  connections b - connections a.

(** The notes [getGraphView(input)] includes when no central note is
    given: the most connected ones, up to [maxNotes]. *)
Definition mostConnected (allNotes : list Note) (maxNotes : Z) : list Note :=
  slice 0 maxNotes (VaultService.sort byConnectionsDesc allNotes).

End GraphView.


(** ** The vault service: scanning the directory tree *)

Module Scan.

(** An entry of a directory as [readdir] with file types reports it,
    with what reading it gives: a file with its text and its [mtime] and
    [birthtime], [None] when it cannot be read; a directory with its
    entries, [None] when it cannot be opened; anything else. *)
Inductive Dirent : Type :=
| DFile (name : string) (body : option (string * (Z * Z)))
| DDir (name : string) (entries : option (list Dirent))
| DOther (name : string).

Definition direntName (e : Dirent) : string :=
  match e with
  | DFile n _ => n
  | DDir n _ => n
  | DOther n => n
  end.

Section Scanning.

Variable matter : Matter.
Variable vaultPath : string.

(** One turn of the loop of [scanDirectory(dir, notes)], the recursive
    call included. *)
Fixpoint scanEntry (dir : string) (e : Dirent) (notes : list Note)
  : list Note :=
  match e with
  | DFile n body =>
      if startsWith n "." then notes
      else if VaultLookup.isMarkdownFile n then
        match body with
        | Some (text, stats) =>
            match parseNote matter vaultPath (Path.join dir n) text stats
            with
            | Ok note => notes ++ [note]
            | Throw _ => notes
            end
        | None => notes
        end
      else notes
  | DDir n entries =>
      if startsWith n "." then notes
      else
        match entries with
        | Some es =>
            (fix loop (es : list Dirent) (notes : list Note) : list Note :=
               match es with
               | [] => notes
               | e' :: es' => loop es' (scanEntry (Path.join dir n) e' notes)
               end) es notes
        | None => notes
        end
  | DOther _ => notes
  end.

(** [scanDirectory(dir, notes)] on a directory with these entries. *)
Definition scanDirectory (dir : string) (entries : list Dirent)
    (notes : list Note) : list Note :=
  fold_left (fun acc e => scanEntry dir e acc) entries notes.

(** The directory [getAllNotes(folder)] starts at: the vault, unless a
    folder is given and is not the empty string. *)
Definition searchPath (folder : option string) : string :=
  match folder with
  | Some f =>
      if f =? "" then vaultPath else VaultFiles.getAbsolutePath vaultPath f
  | None => vaultPath
  end.

(** [getAllNotes(folder)], the directory at the search path having these
    entries, [None] when it cannot be opened.  Nothing is asked of the
    name of the folder the scan starts at. *)
Definition getAllNotes (folder : option string)
    (entries : option (list Dirent)) : list Note :=
  match entries with
  | Some es => scanDirectory (searchPath folder) es []
  | None => []
  end.

End Scanning.

End Scan.


(** ** Further notions used to state the properties *)

Module Notions.

(** Every character of the string is in the class. *)
Fixpoint allChars (cls : ascii -> bool) (s : string) : bool :=
  match s with
  | EmptyString => true
  | String c s' => cls c && allChars cls s'
  end.

(** A front-matter tag without its leading hash. *)
Definition cleanTag (tag : string) : string :=
  if startsWith tag "#" then drop 1 tag else tag.

(** The tags the front matter gives, cleaned, when it gives an array. *)
Definition frontmatterTagsOf (v : option Val) : list string :=
  match v with
  | Some (VArr l) => map cleanTag (strings l)
  | _ => []
  end.

(** The inline tags of a body, in order of occurrence. *)
Definition inlineTagsOf (body : string) : list string :=
  map snd (matchAllTags body).

(** The block anchors of the lines, each with its line number, the first
    line being number [i + 1]. *)
Fixpoint anchorsFrom (i : Z) (lines : list string) : list (string * Z) :=
  match lines with
  | [] => []
  | line :: rest =>
      match blockMatch line with
      | Some id => (id, (i + 1)%Z) :: anchorsFrom (i + 1) rest
      | None => anchorsFrom (i + 1) rest
      end
  end.

(** How often a string occurs in a list. *)
Definition occurrences (x : string) (xs : list string) : Z :=
  Z.of_nat (List.length (filter (String.eqb x) xs)).

(** All the tags of the notes, with repetitions, in scan order. *)
Definition allTags (notes : list Note) : list string :=
  flat_map tags notes.

(** All the raw links of the notes, in scan order. *)
Definition allLinks (notes : list Note) : list string :=
  flat_map links notes.

(** The title names the note at one of the four tiers of
    [findNoteByTitle]: it is, case ignored, the name, a front-matter title
    that is a string, an alias of an array of aliases, or a part of the
    name. *)
Definition titleNames (title : string) (n : Note) : bool :=
  let lower := toLowerCase title in
  (toLowerCase (name n) =? lower)
  || match field "title" n with
     | Some (VStr t) => toLowerCase t =? lower
     | _ => false
     end
  || existsb (fun a => toLowerCase a =? lower) (aliasesOf n)
  || includes (toLowerCase (name n)) lower.

(** What the notes push in [searchContent], one after the other, when none throws. *)
Definition hitsOf (q : string) (options : VaultService.SearchOptions)
    (notes : list Note) : list SearchResult :=
  flat_map (fun n => match VaultService.searchNote q options n with
                     | Ok (Some r) => [r]
                     | _ => []
                     end) notes.

(** The segments of a path are visible: none begins with a dot. *)
Definition visibleSegments (segs : list string) : Prop :=
  Forall (fun s => startsWith s "." = false) segs.

(** The segments, each after a slash. *)
Fixpoint slashed (segs : list string) : string :=
  match segs with
  | [] => EmptyString
  | s :: rest => ("/" ++ s ++ slashed rest)%string
  end.

(** The path of a note scanned below [base]: what leads from the vault
    to a file below [base], through visible segments, the last one the
    name of a markdown file. *)
Definition scannedBelow (vaultPath base p : string) : Prop :=
  exists segs,
    segs <> [] /\ p = Path.relative vaultPath (base ++ slashed segs)
    /\ visibleSegments segs
    /\ VaultLookup.isMarkdownFile (last segs EmptyString) = true.

(** The path of a scanned note: visible segments joined by slashes, the
    last one the name of a markdown file. *)
Definition scannedPath (p : string) : Prop :=
  exists segs,
    segs <> [] /\ p = NoteAccess.join "/" segs /\ visibleSegments segs
    /\ VaultLookup.isMarkdownFile (last segs EmptyString) = true.

End Notions.

Import Notions.
(** * Properties *)

(** ** Link extraction *)

Lemma isInternal_not_external (tgt : string) :
  isInternal tgt = true <->
  startsWith tgt "http://" = false /\ startsWith tgt "https://" = false.
Proof.
  unfold isInternal.
  rewrite andb_true_iff, !negb_true_iff.
  reflexivity.
Qed.

(** C1, as stated, fails: a wiki link whose target is a URL is extracted
    with that target. *)
Lemma extractLinks_wiki_url_kept :
  ~ (forall l, In l (extractLinks "see [[http://example.com]]") ->
               externalTarget l = false).
Proof.
  intros H.
  specialize (H (mkParsedLink "[[http://example.com]]"
                   "[[http://example.com]]" "http://example.com"
                   None None None false)).
  assert (Hin : In (mkParsedLink "[[http://example.com]]"
                      "[[http://example.com]]" "http://example.com"
                      None None None false)
                   (extractLinks "see [[http://example.com]]")).
  { vm_compute. left. reflexivity. }
  apply H in Hin.
  vm_compute in Hin.
  discriminate Hin.
Qed.

(** C1, amended: [extractLinks] returns the links of the wiki pass
    followed by those of the markdown pass; every link of the markdown
    pass has a target that begins neither with [http://] nor with
    [https://], while the wiki pass keeps each match with the target it
    captured, whatever it is. *)
Theorem extractLinks_markdown_internal (content : string) :
  extractLinks content = wikiLinks content ++ mdLinks content
  /\ Forall (fun l => startsWith (target l) "http://" = false
                      /\ startsWith (target l) "https://" = false)
            (mdLinks content)
  /\ map target (wikiLinks content) = map wm1 (matchAllWiki content).
Proof.
  split; [reflexivity |].
  split.
  - apply Forall_forall.
    intros l Hl.
    unfold mdLinks in Hl.
    apply in_map_iff in Hl.
    destruct Hl as [m [<- Hm]].
    apply filter_In in Hm.
    destruct Hm as [_ Hint].
    apply isInternal_not_external in Hint.
    exact Hint.
  - unfold wikiLinks.
    rewrite map_map.
    reflexivity.
Qed.

(** ** Deleting a note *)

Lemma lookup_remove_same {V} (k : string) (o : list (string * V)) :
  lookup k (Fs.remove k o) = None.
Proof.
  induction o as [| [k' v] o IH]; simpl; [reflexivity |].
  destruct (k' =? k) eqn:E; simpl; [exact IH |].
  rewrite E. exact IH.
Qed.

Lemma lookup_remove_other {V} (k q : string) (o : list (string * V)) :
  q <> k -> lookup q (Fs.remove k o) = lookup q o.
Proof.
  intros Hq.
  induction o as [| [k' v] o IH]; simpl; [reflexivity |].
  destruct (k' =? k) eqn:E; simpl.
  - apply String.eqb_eq in E. subst k'.
    destruct (k =? q) eqn:E2; [| exact IH].
    apply String.eqb_eq in E2. congruence.
  - rewrite IH. reflexivity.
Qed.

(** C8: without confirmation [deleteNote] throws and the file system is
    as before; with confirmation it fails with the not-found error when no
    file is at the path, leaving the file system as before, and otherwise
    returns, after which no file is at the path and every other file is
    as before. *)
Theorem deleteNote_confirm_notFound_removed
    (vaultPath : string) (input : NoteTools.DeleteNoteInput)
    (st : Fs.State) :
  let p := VaultFiles.getAbsolutePath vaultPath (NoteTools.dn_path input) in
  (NoteTools.dn_confirm input = false ->
   NoteTools.deleteNote vaultPath input st
   = (Throw NoteTools.CONFIRM_REQUIRED, st))
  /\ (NoteTools.dn_confirm input = true -> Fs.exists_ p st = false ->
      NoteTools.deleteNote vaultPath input st
      = (Throw (VaultFiles.notFound (NoteTools.dn_path input)), st))
  /\ (NoteTools.dn_confirm input = true -> Fs.exists_ p st = true ->
      exists msg st',
        NoteTools.deleteNote vaultPath input st = (Ok msg, st')
        /\ Fs.exists_ p st' = false
        /\ forall q, q <> p ->
             lookup q (Fs.files st') = lookup q (Fs.files st)).
Proof.
  intros p.
  unfold NoteTools.deleteNote, VaultFiles.deleteNote, Fs.seq, Fs.rethrow,
    Fs.unlink, Fs.throw, Fs.ret, Fs.exists_.
  fold p.
  repeat split.
  - intros ->. reflexivity.
  - intros -> Hno. simpl.
    destruct (lookup p (Fs.files st)); [discriminate | reflexivity].
  - intros -> Hyes. simpl.
    destruct (lookup p (Fs.files st)) eqn:E; [| discriminate].
    eexists. eexists.
    split; [reflexivity |].
    split.
    + simpl. rewrite lookup_remove_same. reflexivity.
    + intros q Hq. simpl. apply lookup_remove_other. exact Hq.
Qed.

Lemma deleteNote_confirm_notFound_removed_witness :
  NoteTools.deleteNote "/vault"
    (NoteTools.mkDeleteNoteInput "a.md" false) Samples.oneFile
  = (Throw NoteTools.CONFIRM_REQUIRED, Samples.oneFile)
  /\ NoteTools.deleteNote "/vault"
       (NoteTools.mkDeleteNoteInput "b.md" true) Samples.oneFile
     = (Throw (VaultFiles.notFound "b.md"), Samples.oneFile)
  /\ exists msg st',
       NoteTools.deleteNote "/vault"
         (NoteTools.mkDeleteNoteInput "/a.md" true) Samples.oneFile
       = (Ok msg, st')
       /\ Fs.exists_ "/vault/a.md" st' = false.
Proof.
  split; [| split].
  - apply (deleteNote_confirm_notFound_removed "/vault"
             (NoteTools.mkDeleteNoteInput "a.md" false) Samples.oneFile).
    reflexivity.
  - apply (deleteNote_confirm_notFound_removed "/vault"
             (NoteTools.mkDeleteNoteInput "b.md" true) Samples.oneFile);
      reflexivity.
  - destruct (deleteNote_confirm_notFound_removed "/vault"
                (NoteTools.mkDeleteNoteInput "/a.md" true) Samples.oneFile)
      as [_ [_ H]].
    destruct (H eq_refl eq_refl) as [msg [st' [H1 [H2 _]]]].
    exists msg, st'. split; assumption.
Defined.

(** ** Callbacks that can throw *)

Lemma someR_pure {A} (p : A -> Result bool) (q : A -> bool) (xs : list A) :
  (forall x, In x xs -> p x = Ok (q x)) ->
  someR p xs = Ok (existsb q xs).
Proof.
  induction xs as [| x rest IH]; intros Hp; simpl; [reflexivity |].
  rewrite (Hp x (or_introl eq_refl)). simpl.
  destruct (q x); [reflexivity |].
  apply IH. intros y Hy. apply Hp. right. exact Hy.
Qed.

Lemma someR_true {A} (p : A -> Result bool) (xs : list A) :
  someR p xs = Ok true -> exists x, In x xs /\ p x = Ok true.
Proof.
  induction xs as [| x rest IH]; simpl; intros H; [discriminate |].
  destruct (p x) as [[|] | e] eqn:E; simpl in H; try discriminate.
  - exists x. split; [left; reflexivity | exact E].
  - destruct (IH H) as [y [Hy Hpy]]. exists y. split; [right |]; assumption.
Qed.

Lemma someR_false {A} (p : A -> Result bool) (xs : list A) :
  someR p xs = Ok false <-> Forall (fun x => p x = Ok false) xs.
Proof.
  induction xs as [| x rest IH]; simpl.
  - split; intros; [constructor | reflexivity].
  - split.
    + intros H. destruct (p x) as [[|] | e] eqn:E; simpl in H;
        try discriminate.
      constructor; [exact E | apply IH; exact H].
    + intros H. inversion H as [| ? ? Hx Hrest]; subst.
      rewrite Hx. simpl. apply IH. exact Hrest.
Qed.

Lemma findR_pure {A} (p : A -> Result bool) (q : A -> bool) (xs : list A) :
  (forall x, In x xs -> p x = Ok (q x)) ->
  findR p xs = Ok (find q xs).
Proof.
  induction xs as [| x rest IH]; intros Hp; simpl; [reflexivity |].
  rewrite (Hp x (or_introl eq_refl)). simpl.
  destruct (q x); [reflexivity |].
  apply IH. intros y Hy. apply Hp. right. exact Hy.
Qed.

Lemma findR_Some {A} (p : A -> Result bool) (xs : list A) (x : A) :
  findR p xs = Ok (Some x) -> In x xs /\ p x = Ok true.
Proof.
  induction xs as [| y rest IH]; simpl; intros H; [discriminate |].
  destruct (p y) as [[|] | e] eqn:E; simpl in H; try discriminate.
  - inversion H; subst. split; [left; reflexivity | exact E].
  - destruct (IH H) as [Hin Hp]. split; [right |]; assumption.
Qed.

Lemma findR_None {A} (p : A -> Result bool) (xs : list A) :
  findR p xs = Ok None <-> Forall (fun x => p x = Ok false) xs.
Proof.
  induction xs as [| x rest IH]; simpl.
  - split; intros; [constructor | reflexivity].
  - split.
    + intros H. destruct (p x) as [[|] | e] eqn:E; simpl in H;
        try discriminate.
      constructor; [exact E | apply IH; exact H].
    + intros H. inversion H as [| ? ? Hx Hrest]; subst.
      rewrite Hx. simpl. apply IH. exact Hrest.
Qed.

(** ** Readable front matter: the queries do not throw *)

Lemma aliasIs_strings (lower : string) (l : list Val) :
  forallb isStr l = true ->
  someR (VaultService.aliasIs lower) l
  = Ok (existsb (fun alias => toLowerCase alias =? lower) (strings l)).
Proof.
  induction l as [| v l IH]; simpl; intros H; [reflexivity |].
  apply andb_true_iff in H. destruct H as [Hv Hl].
  destruct v; try discriminate. simpl.
  destruct (toLowerCase s =? lower); [reflexivity |].
  apply IH. exact Hl.
Qed.

Lemma linksMatch_readable (link : string) (n : Note) :
  aliasesReadable n = true ->
  VaultService.linksMatch link n = Ok (named link n).
Proof.
  unfold aliasesReadable, VaultService.linksMatch, named, aliasesOf.
  intros H.
  destruct (toLowerCase (VaultService.stripMd link) =? toLowerCase (name n));
    [reflexivity |].
  destruct (toLowerCase (VaultService.stripMd link)
            =? toLowerCase (VaultService.stripMd (path n)));
    [reflexivity |].
  simpl.
  destruct (field "aliases" n) as [[| b | z | s | l] |];
    try discriminate; try reflexivity.
  simpl. apply aliasIs_strings. exact H.
Qed.

Lemma hasLink_readable (targetNote note : Note) :
  aliasesReadable targetNote = true ->
  VaultService.hasLink targetNote note
  = Ok (existsb (fun link => named link targetNote) (links note)).
Proof.
  intros H. unfold VaultService.hasLink.
  apply someR_pure. intros link _. apply linksMatch_readable. exact H.
Qed.

Lemma backlinksTo_readable (notes : list Note) (targetPath : string)
    (targetNote : Note) :
  aliasesReadable targetNote = true ->
  VaultService.backlinksTo notes targetPath targetNote
  = Ok (map path
          (filter (fun note =>
                     negb (path note =? targetPath)
                     && existsb (fun link => named link targetNote)
                                (links note))
                  notes)).
Proof.
  intros H. induction notes as [| note rest IH]; simpl; [reflexivity |].
  destruct (path note =? targetPath); simpl; [exact IH |].
  rewrite (hasLink_readable _ _ H), IH. simpl.
  destruct (existsb (fun link => named link targetNote) (links note));
    reflexivity.
Qed.

(** The name and the path are compared before the aliases are read. *)
Lemma linksMatch_by_name_or_path (link : string) (n : Note) :
  toLowerCase (VaultService.stripMd link) = toLowerCase (name n)
  \/ toLowerCase (VaultService.stripMd link)
     = toLowerCase (VaultService.stripMd (path n)) ->
  VaultService.linksMatch link n = Ok true.
Proof.
  unfold VaultService.linksMatch. intros [H | H].
  - rewrite H, String.eqb_refl. reflexivity.
  - rewrite H, String.eqb_refl.
    destruct (_ =? _); reflexivity.
Qed.

(** Aliases that are truthy and not an array cannot be walked. *)
Lemma linksMatch_throws (link : string) (n : Note) (aliases : Val) :
  toLowerCase (VaultService.stripMd link) <> toLowerCase (name n) ->
  toLowerCase (VaultService.stripMd link)
  <> toLowerCase (VaultService.stripMd (path n)) ->
  field "aliases" n = Some aliases ->
  truthy aliases = true ->
  (forall l, aliases <> VArr l) ->
  exists msg, VaultService.linksMatch link n = Throw (TypeError msg).
Proof.
  intros H1 H2 Hf Ht Harr. unfold VaultService.linksMatch.
  apply String.eqb_neq in H1. apply String.eqb_neq in H2.
  rewrite H1, H2, Hf, Ht.
  destruct aliases; simpl; eauto.
  exfalso. apply (Harr l). reflexivity.
Qed.

(** ** Link resolution and backlinks *)

(** C2, as stated, fails: a link by path to a note stored as [.markdown]
    and a link that spells an alias ending in [.md] name their note in
    the specification's sense, yet [linksMatch] is false and
    [getBacklinks] does not list the linking note; and when the aliases
    of a note are written as one scalar, a note that links to it by name,
    after a link to another name, is not listed either: the call throws,
    since a string has no [some]. *)
Lemma linksMatch_misses_extension_variants :
  (Spec.refersTo "notes/b" Samples.longExt = true
   /\ VaultService.linksMatch "notes/b" Samples.longExt = Ok false
   /\ VaultService.getBacklinks [Samples.toLongExt; Samples.longExt]
        (Samples.readIn [Samples.toLongExt; Samples.longExt])
        "notes/b.markdown" = Ok [])
  /\ (Spec.refersTo "Bee.md" Samples.aliasMd = true
      /\ VaultService.linksMatch "Bee.md" Samples.aliasMd = Ok false
      /\ VaultService.getBacklinks [Samples.toAliasMd; Samples.aliasMd]
           (Samples.readIn [Samples.toAliasMd; Samples.aliasMd])
           "b.md" = Ok [])
  /\ (Spec.refersTo "B" Samples.solo = true
      /\ In "B" (links Samples.toSolo)
      /\ exists msg,
           VaultService.getBacklinks [Samples.toSolo; Samples.solo]
             (Samples.readIn [Samples.toSolo; Samples.solo]) "B.md"
           = Throw (TypeError msg)).
Proof.
  split; [| split].
  - repeat split; vm_compute; reflexivity.
  - repeat split; vm_compute; reflexivity.
  - split; [vm_compute; reflexivity |].
    split; [simpl; right; left; reflexivity |].
    eexists. vm_compute. reflexivity.
Qed.

(** C2, amended: let A and B be notes of the scan with different paths,
    B being the note read at its path, with an [aliases] key that is
    absent, [null] or an array of strings.  If some raw link of A, with a
    trailing [.md] removed, equals case-insensitively B's file name, or
    B's path with a trailing [.md] removed, or one of B's aliases as it is
    written, then [linksMatch] returns true for that link against B and
    [getBacklinks] of B's path returns a list that holds A's path. *)
Theorem linksMatch_getBacklinks
    (notes : list Note) (readNote : string -> Result Note)
    (A B : Note) (link : string) :
  In A notes ->
  readNote (path B) = Ok B ->
  path A <> path B ->
  In link (links A) ->
  aliasesReadable B = true ->
  (toLowerCase (VaultService.stripMd link) = toLowerCase (name B)
   \/ toLowerCase (VaultService.stripMd link)
      = toLowerCase (VaultService.stripMd (path B))
   \/ exists alias,
        In alias (aliasesOf B)
        /\ toLowerCase alias = toLowerCase (VaultService.stripMd link)) ->
  VaultService.linksMatch link B = Ok true
  /\ exists backlinks,
       VaultService.getBacklinks notes readNote (path B) = Ok backlinks
       /\ In (path A) backlinks.
Proof.
  intros HA Hread Hne Hlink Hreadable Hcase.
  assert (Hnamed : named link B = true).
  { unfold named.
    destruct Hcase as [H | [H | [alias [Hin Heq]]]].
    - rewrite H, String.eqb_refl. reflexivity.
    - rewrite H, String.eqb_refl. apply orb_true_iff. left.
      apply orb_true_r.
    - apply orb_true_iff. right. apply existsb_exists.
      exists alias. split; [exact Hin |].
      apply String.eqb_eq. exact Heq. }
  split.
  - rewrite (linksMatch_readable _ _ Hreadable), Hnamed. reflexivity.
  - unfold VaultService.getBacklinks. rewrite Hread. simpl.
    rewrite (backlinksTo_readable _ _ _ Hreadable).
    eexists. split; [reflexivity |].
    apply in_map. apply filter_In.
    split; [exact HA |].
    apply andb_true_iff. split.
    + apply negb_true_iff. apply String.eqb_neq. exact Hne.
    + apply existsb_exists. exists link. split; assumption.
Qed.

Lemma linksMatch_getBacklinks_witness :
  VaultService.linksMatch "B" Samples.noteB = Ok true
  /\ exists backlinks,
       VaultService.getBacklinks Samples.vaultAB
         (Samples.readIn Samples.vaultAB) "B.md" = Ok backlinks
       /\ In "A.md" backlinks.
Proof.
  apply (linksMatch_getBacklinks Samples.vaultAB
           (Samples.readIn Samples.vaultAB) Samples.noteA Samples.noteB "B").
  - simpl. left. reflexivity.
  - reflexivity.
  - simpl. discriminate.
  - simpl. left. reflexivity.
  - reflexivity.
  - left. reflexivity.
Defined.

(** ** Sorting by a descending key *)

Section SortByKey.

Context {A : Type}.
Variable key : A -> Z.

Let compare (a b : A) : Z := (key b - key a)%Z.

Lemma insertBy_Permutation (x : A) (l : list A) :
  Permutation (VaultService.insertBy compare x l) (x :: l).
Proof.
  induction l as [| y l IH]; simpl; [apply Permutation_refl |].
  destruct (compare x y <=? 0)%Z; [apply Permutation_refl |].
  eapply Permutation_trans; [apply perm_skip; exact IH | apply perm_swap].
Qed.

Lemma sort_Permutation (l : list A) :
  Permutation (VaultService.sort compare l) l.
Proof.
  induction l as [| x l IH]; simpl; [apply Permutation_refl |].
  eapply Permutation_trans; [apply insertBy_Permutation |].
  apply perm_skip. exact IH.
Qed.

Lemma insertBy_descending (x : A) (l : list A) :
  descendingBy key l -> descendingBy key (VaultService.insertBy compare x l).
Proof.
  unfold descendingBy.
  induction l as [| y l IH]; intros Hs; simpl.
  - constructor; constructor.
  - destruct (compare x y <=? 0)%Z eqn:E.
    + apply Z.leb_le in E. unfold compare in E.
      constructor; [exact Hs |].
      constructor; [lia |].
      apply StronglySorted_inv in Hs. destruct Hs as [_ Hall].
      eapply Forall_impl; [| exact Hall].
      simpl. intros b Hb. lia.
    + apply Z.leb_gt in E. unfold compare in E.
      apply StronglySorted_inv in Hs. destruct Hs as [Hs Hall].
      constructor; [apply IH; exact Hs |].
      apply Forall_forall. intros b Hb.
      apply (Permutation_in _ (insertBy_Permutation x l)) in Hb.
      destruct Hb as [<- | Hb]; [lia |].
      rewrite Forall_forall in Hall. apply Hall. exact Hb.
Qed.

Lemma sort_descending (l : list A) :
  descendingBy key (VaultService.sort compare l).
Proof.
  induction l as [| x l IH]; simpl.
  - constructor.
  - apply insertBy_descending. exact IH.
Qed.

Lemma insertBy_withKey (k : Z) (x : A) (l : list A) :
  withKey key k (VaultService.insertBy compare x l) = withKey key k (x :: l).
Proof.
  unfold withKey.
  induction l as [| y l IH]; simpl; [reflexivity |].
  destruct (compare x y <=? 0)%Z eqn:E; [reflexivity |].
  apply Z.leb_gt in E. unfold compare in E.
  simpl. simpl in IH. rewrite IH.
  destruct (key x =? k)%Z eqn:Ex; destruct (key y =? k)%Z eqn:Ey;
    try reflexivity.
  apply Z.eqb_eq in Ex. apply Z.eqb_eq in Ey. lia.
Qed.

(** The sort is stable: the elements of equal key keep their order. *)
Lemma sort_withKey (k : Z) (l : list A) :
  withKey key k (VaultService.sort compare l) = withKey key k l.
Proof.
  induction l as [| x l IH]; simpl; [reflexivity |].
  rewrite insertBy_withKey.
  unfold withKey in *. simpl. rewrite IH. reflexivity.
Qed.

End SortByKey.

(** ** Pagination of [listNotes] *)

Lemma slice_window {A} (a b : Z) (xs : list A) :
  (0 <= a <= b)%Z ->
  slice a b xs = firstn (Z.to_nat (b - a)) (skipn (Z.to_nat a) xs).
Proof.
  intros Hab.
  unfold slice, sliceIndex.
  destruct (a <? 0)%Z eqn:Ea; [apply Z.ltb_lt in Ea; lia |].
  destruct (b <? 0)%Z eqn:Eb; [apply Z.ltb_lt in Eb; lia |].
  set (len := Z.of_nat (List.length xs)).
  destruct (Z_le_gt_dec len a) as [Hge | Hlt].
  - rewrite !skipn_all2 by (subst len; lia).
    rewrite !firstn_nil. reflexivity.
  - replace (Z.min a len) with a by lia.
    destruct (Z_le_gt_dec b len) as [Hb | Hb].
    + replace (Z.min b len) with b by lia. reflexivity.
    + replace (Z.min b len) with len by lia.
      rewrite !firstn_all2; [reflexivity | |];
        rewrite length_skipn; subst len; lia.
Qed.

Lemma firstn_plus {A} (a b : nat) (xs : list A) :
  firstn (a + b) xs = firstn a xs ++ firstn b (skipn a xs).
Proof.
  revert xs. induction a as [| a IH]; intros xs; simpl; [reflexivity |].
  destruct xs as [| x xs]; simpl.
  - rewrite firstn_nil. reflexivity.
  - rewrite IH. reflexivity.
Qed.

Lemma windows_concat {A} (L n : nat) (xs : list A) :
  flat_map (fun i => firstn L (skipn (i * L) xs)) (seq 0 n)
  = firstn (n * L) xs.
Proof.
  induction n as [| n IH]; [reflexivity |].
  rewrite seq_S, flat_map_app, IH. simpl.
  rewrite app_nil_r.
  replace (L + n * L)%nat with (n * L + L)%nat by lia.
  symmetry. apply firstn_plus.
Qed.

(** C5: for a page size [L > 0] and an offset [O] between 0 and the total,
    [listNotes] returns exactly [min L (total - O)] notes; the pages at
    offsets 0, L, 2L and so on, one after the other, are the whole
    filtered sequence, which holds the filtered notes once each, newest
    first. *)
Theorem listNotes_pagination
    (allNotes : list Note) (tag : option string) (L O : Z) :
  let sorted := NoteTools.filteredNotes allNotes tag in
  let total := Z.of_nat (List.length sorted) in
  let page := NoteTools.listNotes allNotes
                (NoteTools.mkListNotesInput tag L O) in
  (0 < L)%Z -> (0 <= O <= total)%Z ->
  NoteTools.nl_total page = total
  /\ Z.of_nat (List.length (NoteTools.nl_notes page)) = Z.min L (total - O)
  /\ (forall n, (total <= Z.of_nat n * L)%Z ->
        pagesOf allNotes tag L n = sorted)
  /\ Permutation sorted (NoteTools.tagFiltered allNotes tag)
  /\ descendingBy modified sorted.
Proof.
  intros sorted total page HL HO.
  split; [reflexivity |].
  split; [| split; [| split]].
  - subst page. unfold NoteTools.listNotes. simpl.
    fold sorted.
    rewrite slice_window by lia.
    rewrite length_firstn, length_skipn.
    subst total. lia.
  - intros n Hn.
    unfold pagesOf.
    rewrite (flat_map_ext _
               (fun i => firstn (Z.to_nat L) (skipn (i * Z.to_nat L) sorted))).
    + rewrite windows_concat.
      apply firstn_all2. subst total. nia.
    + intros i. unfold NoteTools.listNotes. simpl. fold sorted.
      rewrite slice_window by nia.
      f_equal; [f_equal; lia |].
      f_equal. nia.
  - apply (sort_Permutation modified).
  - apply (sort_descending modified).
Qed.

Lemma listNotes_pagination_witness :
  Z.of_nat (List.length
              (NoteTools.nl_notes
                 (NoteTools.listNotes Samples.dated
                    (NoteTools.mkListNotesInput None 2 2))))
  = Z.min 2 (3 - 2)
  /\ pagesOf Samples.dated None 2 2
     = NoteTools.filteredNotes Samples.dated None.
Proof.
  destruct (listNotes_pagination Samples.dated None 2 2)
    as [_ [H1 [H2 _]]].
  - lia.
  - vm_compute. split; discriminate.
  - split.
    + exact H1.
    + apply (H2 2%nat). vm_compute. discriminate.
Defined.

(** ** Content search *)

Lemma length_toLowerCase (s : string) :
  String.length (toLowerCase s) = String.length s.
Proof.
  induction s as [| c s IH]; simpl; [reflexivity | rewrite IH; reflexivity].
Qed.

Lemma length_folded (options : VaultService.SearchOptions) (s : string) :
  String.length (VaultService.folded options s) = String.length s.
Proof.
  unfold VaultService.folded.
  destruct (VaultService.opt_caseSensitive options);
    [reflexivity | apply length_toLowerCase].
Qed.

Lemma searchScan_Ok (q : string) (options : VaultService.SearchOptions)
    (notes : list Note) (scanned : list SearchResult) :
  VaultService.searchScan q options notes = Ok scanned ->
  scanned = hitsOf q options notes.
Proof.
  revert scanned.
  induction notes as [| n notes IH]; simpl; intros scanned H.
  - inversion H. reflexivity.
  - destruct (VaultService.searchNote q options n) as [hit | e];
      simpl in H; [| discriminate].
    destruct (VaultService.searchScan q options notes) as [rest | e];
      simpl in H; [| discriminate].
    inversion H; subst. rewrite (IH rest eq_refl).
    destruct hit; reflexivity.
Qed.

Lemma searchScan_isOk (q : string) (options : VaultService.SearchOptions)
    (notes : list Note) :
  Forall (fun n => isOk (VaultService.searchNote q options n) = true) notes
  <-> isOk (VaultService.searchScan q options notes) = true.
Proof.
  induction notes as [| n notes IH]; simpl.
  - split; intros; [reflexivity | constructor].
  - split.
    + intros H. inversion H as [| ? ? Hn Hrest]; subst.
      apply IH in Hrest.
      destruct (VaultService.searchNote q options n); [| discriminate].
      simpl.
      destruct (VaultService.searchScan q options notes);
        [reflexivity | discriminate].
    + intros H.
      destruct (VaultService.searchNote q options n) eqn:En;
        simpl in H; [| discriminate].
      destruct (VaultService.searchScan q options notes);
        simpl in H; [| discriminate].
      constructor; [rewrite En; reflexivity | apply IH; reflexivity].
Qed.

Lemma searchScan_Throw (q : string) (options : VaultService.SearchOptions)
    (notes : list Note) (e : Error) :
  VaultService.searchScan q options notes = Throw e ->
  exists n, In n notes /\ VaultService.searchNote q options n = Throw e.
Proof.
  induction notes as [| n notes IH]; simpl; intros H; [discriminate |].
  destruct (VaultService.searchNote q options n) as [hit | e'] eqn:En;
    simpl in H.
  - destruct (VaultService.searchScan q options notes) as [rest | e''];
      simpl in H; [discriminate |].
    destruct (IH H) as [m [Hm Hthrow]].
    exists m. split; [right |]; assumption.
  - exists n. split; [left; reflexivity | congruence].
Qed.

(** A readable title never makes the title test throw. *)
Lemma titleHit_readable (options : VaultService.SearchOptions) (q : string)
    (note : Note) :
  titleReadable note = true ->
  isOk (VaultService.titleHit options q note) = true.
Proof.
  unfold titleReadable, VaultService.titleHit, VaultService.titleIncludes.
  destruct (field "title" note) as [[| b | z | s | l] |];
    try discriminate; intros _; try reflexivity.
  simpl. destruct (negb (s =? "")); [| reflexivity].
  destruct (VaultService.opt_caseSensitive options); reflexivity.
Qed.

Lemma searchNote_readable (options : VaultService.SearchOptions) (q : string)
    (note : Note) :
  titleReadable note = true ->
  isOk (VaultService.searchNote q options note) = true.
Proof.
  intros H. unfold VaultService.searchNote.
  destruct (VaultService.tagExcludes options note); [reflexivity |].
  destruct (includes _ q); [reflexivity |].
  pose proof (titleHit_readable options q note H) as Hhit.
  destruct (VaultService.titleHit options q note) as [[|] | e];
    try discriminate; simpl; [reflexivity |].
  destruct (_ =? -1)%Z; reflexivity.
Qed.

(** C4: a note that lacks the required tag gives no result.  A note that
    passes the tag filter gets the score of its tier: a name that contains
    the query scores [TITLE_EXACT] when it equals it and [TITLE_PARTIAL]
    otherwise, and nothing else is looked at; otherwise a front-matter
    title that passes the title test scores [TITLE_PARTIAL]; otherwise a
    body that contains the query scores [CONTENT_EARLY] when five times the
    index of the first match is below the body length and [CONTENT_LATE]
    when not, with a snippet; and a note that matches at no tier gives no
    result.  The title test is false for an absent or falsy title, is the
    containment of the query for a non-empty string, and throws a
    [TypeError] for any other title, except that a case-sensitive search
    asks an array for an element equal to the query.  When no note throws,
    the results are those of the notes in scan order, sorted by descending
    score with equal scores left in scan order, and cut to the first
    [limit] when a limit is given; notes with readable titles never throw;
    and an exception of a note is the exception of the search. *)
Theorem searchContent_tiers_sorted_limited
    (notes : list Note) (query : string)
    (options : VaultService.SearchOptions) :
  let fold := VaultService.folded options in
  let q := fold query in
  (forall note,
     (VaultService.tagExcludes options note = true ->
      VaultService.searchNote q options note = Ok None)
     /\ (VaultService.tagExcludes options note = false ->
         (includes (fold (name note)) q = true ->
          VaultService.searchNote q options note
          = Ok (Some (mkSearchResult (path note) (name note)
                        (if fold (name note) =? q then TITLE_EXACT
                         else TITLE_PARTIAL) None MTitle)))
         /\ (includes (fold (name note)) q = false ->
             (VaultService.titleHit options q note = Ok true ->
              VaultService.searchNote q options note
              = Ok (Some (mkSearchResult (path note) (name note)
                            TITLE_PARTIAL None MTitle)))
             /\ (VaultService.titleHit options q note = Ok false ->
                 forall i, indexOf (fold (content note)) q = i ->
                 (i <> (-1)%Z ->
                  VaultService.searchNote q options note
                  = Ok (Some (mkSearchResult (path note) (name note)
                          (if (5 * i
                               <? Z.of_nat (String.length (content note)))%Z
                           then CONTENT_EARLY else CONTENT_LATE)
                          (Some (VaultService.snippetAt (content note) i
                                   (Z.of_nat
                                      (String.length (content note)))))
                          MContent)))
                 /\ (i = (-1)%Z ->
                     VaultService.searchNote q options note = Ok None))
             /\ (forall e,
                   VaultService.titleHit options q note = Throw e ->
                   VaultService.searchNote q options note = Throw e))))
  /\ (forall note,
        (field "title" note = None ->
         VaultService.titleHit options q note = Ok false)
        /\ (forall v, field "title" note = Some v -> truthy v = false ->
              VaultService.titleHit options q note = Ok false)
        /\ (forall t, field "title" note = Some (VStr t) -> t <> "" ->
              VaultService.titleHit options q note
              = Ok (includes (fold t) q))
        /\ (forall l, field "title" note = Some (VArr l) ->
              if VaultService.opt_caseSensitive options
              then VaultService.titleHit options q note
                   = Ok (existsb (fun x => match x with
                                           | VStr s => s =? q
                                           | _ => false
                                           end) l)
              else exists msg,
                     VaultService.titleHit options q note
                     = Throw (TypeError msg))
        /\ (forall v, field "title" note = Some v -> truthy v = true ->
              isStr v = false -> (forall l, v <> VArr l) ->
              exists msg,
                VaultService.titleHit options q note
                = Throw (TypeError msg)))
  /\ (forall scanned,
        VaultService.searchScan q options notes = Ok scanned ->
        let sorted := VaultService.sort VaultService.byScoreDesc scanned in
        scanned = hitsOf q options notes
        /\ descendingBy sr_score sorted
        /\ Permutation sorted scanned
        /\ (forall k, withKey sr_score k sorted = withKey sr_score k scanned)
        /\ (VaultService.opt_limit options = None ->
            VaultService.searchContent notes query options = Ok sorted)
        /\ (forall L, VaultService.opt_limit options = Some L -> (0 < L)%Z ->
              VaultService.searchContent notes query options
              = Ok (firstn (Z.to_nat L) sorted)))
  /\ (Forall (fun n => isOk (VaultService.searchNote q options n) = true)
             notes
      <-> isOk (VaultService.searchContent notes query options) = true)
  /\ (Forall (fun n => titleReadable n = true) notes ->
      isOk (VaultService.searchContent notes query options) = true)
  /\ (forall e,
        VaultService.searchScan q options notes = Throw e ->
        VaultService.searchContent notes query options = Throw e
        /\ exists n, In n notes
                     /\ VaultService.searchNote q options n = Throw e).
Proof.
  intros fold q.
  assert (Hok : Forall (fun n => isOk (VaultService.searchNote q options n)
                                 = true) notes
                <-> isOk (VaultService.searchContent notes query options)
                    = true).
  { rewrite searchScan_isOk. unfold VaultService.searchContent.
    fold fold. fold q.
    destruct (VaultService.searchScan q options notes); simpl; tauto. }
  split; [| split; [| split; [| split; [| split]]]].
  - intros note. split.
    + intros Htag. unfold VaultService.searchNote. rewrite Htag. reflexivity.
    + intros Htag. unfold VaultService.searchNote. rewrite Htag.
      fold fold.
      split.
      * intros Hname. rewrite Hname. reflexivity.
      * intros Hname. rewrite Hname.
        split; [| split].
        -- intros Hhit. rewrite Hhit. reflexivity.
        -- intros Hhit i Hi. rewrite Hhit, Hi. simpl.
           split.
           ++ intros Hfound. apply Z.eqb_neq in Hfound. rewrite Hfound.
              subst fold. rewrite length_folded. reflexivity.
           ++ intros ->. reflexivity.
        -- intros e Hhit. rewrite Hhit. reflexivity.
  - intros note. unfold VaultService.titleHit.
    split; [| split; [| split; [| split]]].
    + intros ->. reflexivity.
    + intros v -> ->. reflexivity.
    + intros t -> Hne. apply String.eqb_neq in Hne.
      simpl. rewrite Hne. simpl.
      unfold VaultService.titleIncludes. subst fold.
      unfold VaultService.folded.
      destruct (VaultService.opt_caseSensitive options); reflexivity.
    + intros l ->. simpl. unfold VaultService.titleIncludes.
      destruct (VaultService.opt_caseSensitive options);
        [reflexivity | simpl; eauto].
    + intros v -> Ht Hs Harr. rewrite Ht.
      unfold VaultService.titleIncludes.
      destruct v; simpl in *; try discriminate;
        try (destruct (VaultService.opt_caseSensitive options);
             simpl; eauto).
      exfalso. apply (Harr l). reflexivity.
  - intros scanned Hscan sorted.
    split; [apply searchScan_Ok; exact Hscan |].
    split; [apply (sort_descending sr_score) |].
    split; [apply (sort_Permutation sr_score) |].
    split; [intros k; apply (sort_withKey sr_score) |].
    unfold VaultService.searchContent. fold fold. fold q.
    rewrite Hscan. simpl. fold sorted.
    split.
    + intros Hlim. rewrite Hlim. reflexivity.
    + intros L Hlim HL. rewrite Hlim.
      destruct (L =? 0)%Z eqn:E; [apply Z.eqb_eq in E; lia |].
      rewrite slice_window by lia.
      simpl. rewrite Z.sub_0_r. reflexivity.
  - exact Hok.
  - intros Hread. apply Hok.
    apply Forall_forall. intros n Hn.
    apply searchNote_readable.
    rewrite Forall_forall in Hread. apply Hread. exact Hn.
  - intros e Hscan. split.
    + unfold VaultService.searchContent. fold fold. fold q.
      rewrite Hscan. reflexivity.
    + apply searchScan_Throw. exact Hscan.
Qed.

Lemma searchContent_tiers_sorted_limited_witness :
  VaultService.searchContent Samples.searched "plan"
    (VaultService.mkSearchOptions None false (Some 2%Z))
  = Ok [ mkSearchResult "Plan.md" "Plan" TITLE_EXACT None MTitle;
         mkSearchResult "early.md" "early" CONTENT_EARLY
           (Some "plan first") MContent ]
  /\ VaultService.searchNote "plan"
       (VaultService.mkSearchOptions None false (Some 2%Z))
       (Samples.note "Plan.md" "Plan" "" None [])
     = Ok (Some (mkSearchResult "Plan.md" "Plan" TITLE_EXACT None MTitle))
  /\ (exists msg,
        VaultService.titleHit
          (VaultService.mkSearchOptions None false (Some 2%Z)) "plan"
          Samples.yearTitle
        = Throw (TypeError msg)).
Proof.
  destruct (searchContent_tiers_sorted_limited Samples.searched "plan"
              (VaultService.mkSearchOptions None false (Some 2%Z)))
    as [Htier [Htitle [Hwhole _]]].
  split; [| split].
  - destruct (Hwhole _ eq_refl) as [_ [_ [_ [_ [_ Hlim]]]]].
    rewrite (Hlim 2%Z eq_refl); [reflexivity | lia].
  - destruct (Htier (Samples.note "Plan.md" "Plan" "" None []))
      as [_ Hpass].
    destruct (Hpass eq_refl) as [Hname _].
    apply Hname. reflexivity.
  - destruct (Htitle Samples.yearTitle) as [_ [_ [_ [_ Hthrow]]]].
    apply (Hthrow (VNum 2024) eq_refl eq_refl eq_refl).
    intros l. discriminate.
Defined.
(** ** Updating a note *)

Lemma lookup_assign_same {V} (k : string) (v : V) (o : list (string * V)) :
  lookup k (assign k v o) = Some v.
Proof.
  induction o as [| [k' v'] o IH]; simpl.
  - rewrite String.eqb_refl. reflexivity.
  - destruct (k' =? k) eqn:E; simpl.
    + rewrite String.eqb_refl. reflexivity.
    + rewrite E. exact IH.
Qed.

Lemma lookup_assign_other {V} (k q : string) (v : V)
    (o : list (string * V)) :
  q <> k -> lookup q (assign k v o) = lookup q o.
Proof.
  intros Hq.
  induction o as [| [k' v'] o IH]; simpl.
  - destruct (k =? q) eqn:E; [| reflexivity].
    apply String.eqb_eq in E. congruence.
  - destruct (k' =? k) eqn:E; simpl.
    + apply String.eqb_eq in E. subst k'.
      destruct (k =? q) eqn:E2; [| reflexivity].
      apply String.eqb_eq in E2. congruence.
    + rewrite IH. reflexivity.
Qed.

Lemma assignAll_preserves (update o : NoteFrontmatter) (k : string) :
  ~ In k (map fst update) ->
  lookup k (fold_left (fun o0 kv => assign (fst kv) (snd kv) o0) update o)
  = lookup k o.
Proof.
  revert o.
  induction update as [| [k' v'] update IH]; intros o Hk; simpl;
    [reflexivity |].
  simpl in Hk.
  rewrite IH by tauto.
  apply lookup_assign_other. intros ->. tauto.
Qed.

Lemma assignAll_overwrites (update o : NoteFrontmatter) (k : string)
    (v : Val) :
  NoDup (map fst update) -> In (k, v) update ->
  lookup k (fold_left (fun o0 kv => assign (fst kv) (snd kv) o0) update o)
  = Some v.
Proof.
  revert o.
  induction update as [| [k' v'] update IH]; intros o Hnd Hin;
    [destruct Hin |].
  simpl in Hnd. apply NoDup_cons_iff in Hnd. destruct Hnd as [Hk' Hnd].
  simpl.
  destruct Hin as [Heq | Hin].
  - inversion Heq; subst k' v'.
    rewrite assignAll_preserves by exact Hk'.
    apply lookup_assign_same.
  - apply IH; assumption.
Qed.

(** The spread keeps every key the update does not give. *)
Lemma spread_preserves (existing : option NoteFrontmatter)
    (update : NoteFrontmatter) (k : string) :
  ~ In k (map fst update) ->
  lookup k (VaultFiles.spread existing update)
  = lookup k (match existing with Some fm => fm | None => [] end).
Proof.
  intros Hk. unfold VaultFiles.spread.
  apply assignAll_preserves. exact Hk.
Qed.

(** The spread gives every key of the update the update's value. *)
Lemma spread_overwrites (existing : option NoteFrontmatter)
    (update : NoteFrontmatter) (k : string) (v : Val) :
  NoDup (map fst update) -> In (k, v) update ->
  lookup k (VaultFiles.spread existing update) = Some v.
Proof.
  intros Hnd Hin. unfold VaultFiles.spread.
  apply assignAll_overwrites; assumption.
Qed.

(** With [append] and a non-empty content the new body is the existing
    body, a blank line, and the content; without [append] it is the
    content when one is given and the existing body when none is. *)
Lemma newContentOf_cases (existing : Note) (c : string) :
  (c <> "" ->
   VaultFiles.newContentOf existing (Some c) true
   = (content existing ++ String LF (String LF c))%string)
  /\ VaultFiles.newContentOf existing (Some c) false = c
  /\ VaultFiles.newContentOf existing None false = content existing
  /\ VaultFiles.newContentOf existing None true = content existing.
Proof.
  unfold VaultFiles.newContentOf.
  repeat split.
  intros Hc. apply String.eqb_neq in Hc. rewrite Hc. reflexivity.
Qed.

(** C6 at its failing input: appending the empty content to a note whose
    body is [Original] leaves a note with an empty body, and an empty file,
    where the specification has the body followed by the blank-line
    separator. *)
Theorem updateNote_append_empty_erases :
  exists note' st',
    VaultFiles.updateNote Samples.plainMatter Samples.plainStringify
      "/vault" "a.md" (Some "") None true Samples.oneFile
    = (Ok note', st')
    /\ content note' = ""
    /\ option_map Fs.f_text (lookup "/vault/a.md" (Fs.files st')) = Some ""
    /\ content note' <> ("Original" ++ String LF (String LF ""))%string.
Proof.
  eexists. eexists.
  split; [vm_compute; reflexivity |].
  split; [reflexivity |].
  split; [reflexivity |].
  simpl. discriminate.
Qed.

(** ** Orphan notes *)

(** C9 at its failing input: in a vault where [A.md] links to [b] and
    [B.md] links to nothing, [getVaultStats] counts two orphans while
    [getOrphans] lists one, [A.md]; [getBacklinks] of [B.md] lists
    [A.md], so [B.md] is not a note without backlinks. *)
Theorem orphanNotes_getOrphans_disagree :
  VaultService.orphanNotes Samples.lowerLink = 2%Z
  /\ LinkTools.getOrphans Samples.lowerLink = Ok ["A.md"]
  /\ VaultService.getBacklinks Samples.lowerLink
       (Samples.readIn Samples.lowerLink) "B.md" = Ok ["A.md"]
  /\ match LinkTools.getOrphans Samples.lowerLink with
     | Ok orphans =>
         VaultService.orphanNotes Samples.lowerLink
         <> Z.of_nat (List.length orphans)
     | Throw _ => False
     end.
Proof.
  repeat split; vm_compute; try reflexivity.
  discriminate.
Qed.

(** ** Unlinked references *)

Lemma searchTermsOf_readable (targetNote : Note) :
  aliasesReadable targetNote = true ->
  VaultService.searchTermsOf targetNote
  = Ok (map VStr (name targetNote :: aliasesOf targetNote)).
Proof.
  unfold aliasesReadable, VaultService.searchTermsOf, aliasesOf.
  destruct (field "aliases" targetNote) as [[| b | z | s | l] |];
    try discriminate; try reflexivity.
  intros H. simpl. do 2 f_equal.
  induction l as [| v l IH]; simpl in *; [reflexivity |].
  apply andb_true_iff in H. destruct H as [Hv Hl].
  destruct v; try discriminate. simpl. f_equal. apply IH. exact Hl.
Qed.

Section UnlinkedReferences.

Variable engine : VaultService.RegExpEngine.

Lemma searchTermsLoop_ok (note : Note) (searchTerms : list string) :
  (forall term, In term searchTerms ->
                isOk (engine (VaultService.wordSource term)) = true) ->
  isOk (VaultService.searchTermsLoop engine note (map VStr searchTerms))
  = true.
Proof.
  induction searchTerms as [| term rest IH]; intros Hall; simpl;
    [reflexivity |].
  pose proof (Hall term (or_introl eq_refl)) as Hterm.
  destruct (engine (VaultService.wordSource term)) as [regex | e];
    [| discriminate Hterm].
  simpl.
  destruct (regex (content note)); [reflexivity |].
  apply IH. intros t Ht. apply Hall. right. exact Ht.
Qed.

Lemma unlinkedLoop_ok (targetPath : string) (targetNote : Note)
    (searchTerms : list string) (notes : list Note) :
  aliasesReadable targetNote = true ->
  (forall term, In term searchTerms ->
                isOk (engine (VaultService.wordSource term)) = true) ->
  isOk (VaultService.unlinkedLoop engine targetPath targetNote
          (map VStr searchTerms) notes) = true.
Proof.
  intros Hreadable Hall.
  induction notes as [| note rest IH]; simpl; [reflexivity |].
  destruct (path note =? targetPath); [exact IH |].
  rewrite (hasLink_readable _ _ Hreadable). simpl.
  destruct (existsb _ (links note)); [exact IH |].
  pose proof (searchTermsLoop_ok note searchTerms Hall) as Hhit.
  destruct (VaultService.searchTermsLoop engine note (map VStr searchTerms));
    [| discriminate Hhit].
  simpl.
  destruct (VaultService.unlinkedLoop engine targetPath targetNote
              (map VStr searchTerms) rest); [reflexivity | discriminate IH].
Qed.

(** The first note that is searched meets the first term. *)
Lemma unlinkedLoop_fails (targetPath : string) (targetNote : Note)
    (term : string) (terms : list Val) (notes : list Note) (e : Error) :
  engine (VaultService.wordSource term) = Throw e ->
  existsb (RegExp.searched targetPath targetNote) notes = true ->
  isOk (VaultService.unlinkedLoop engine targetPath targetNote
          (VStr term :: terms) notes) = false.
Proof.
  intros Hthrow.
  induction notes as [| note rest IH]; intros Hex; simpl in *;
    [discriminate |].
  unfold RegExp.searched in Hex at 1.
  destruct (path note =? targetPath); simpl in Hex; [apply IH; exact Hex |].
  destruct (VaultService.hasLink targetNote note) as [[|] | e'];
    simpl in *; [apply IH; exact Hex | | reflexivity].
  rewrite Hthrow. reflexivity.
Qed.

Lemma unlinkedLoop_throws (targetPath : string) (targetNote : Note)
    (term : string) (terms : list Val) (notes : list Note) (e : Error) :
  aliasesReadable targetNote = true ->
  engine (VaultService.wordSource term) = Throw e ->
  existsb (RegExp.searched targetPath targetNote) notes = true ->
  VaultService.unlinkedLoop engine targetPath targetNote (VStr term :: terms)
    notes = Throw e.
Proof.
  intros Hreadable Hthrow.
  induction notes as [| note rest IH]; intros Hex; simpl in *;
    [discriminate |].
  unfold RegExp.searched in Hex at 1.
  destruct (path note =? targetPath); simpl in Hex; [apply IH; exact Hex |].
  rewrite (hasLink_readable _ _ Hreadable) in *. simpl in *.
  destruct (existsb _ (links note)); simpl in Hex; [apply IH; exact Hex |].
  rewrite Hthrow. reflexivity.
Qed.

End UnlinkedReferences.

Lemma beforeBoundary_wordSource (term : string) :
  RegExp.beforeBoundary (term ++ "\b") = Some term.
Proof.
  induction term as [| c term IH]; simpl.
  - reflexivity.
  - rewrite IH. reflexivity.
Qed.

Lemma wordEngine_compiles (term : string) :
  RegExp.metaFree term = true ->
  isOk (RegExp.wordEngine (VaultService.wordSource term)) = true.
Proof.
  intros Hfree.
  unfold VaultService.wordSource. simpl.
  rewrite beforeBoundary_wordSource, Hfree. reflexivity.
Qed.

(** C10, as stated, fails: the target [B.md] has a file name and an
    alias without any syntax character, the alias being written as one
    scalar, and the engine compiles every source of such a term; yet the
    operation throws, a [TypeError], when another note holds a link that
    is neither the name nor the path of the target. *)
Lemma getUnlinkedReferences_scalar_aliases_throws :
  RegExp.metaFree (name Samples.solo) = true
  /\ field "aliases" Samples.solo = Some (VStr "solo")
  /\ RegExp.metaFree "solo" = true
  /\ (forall term, RegExp.metaFree term = true ->
                   isOk (RegExp.wordEngine (VaultService.wordSource term))
                   = true)
  /\ exists msg,
       VaultService.getUnlinkedReferences RegExp.wordEngine
         [Samples.toSolo; Samples.solo]
         (Samples.readIn [Samples.toSolo; Samples.solo]) "B.md" 50
       = Throw (TypeError msg).
Proof.
  split; [reflexivity |].
  split; [reflexivity |].
  split; [reflexivity |].
  split; [exact wordEngine_compiles |].
  eexists. vm_compute. reflexivity.
Qed.

(** C10, amended: the source compiled for a term is the term between two
    word-boundary escapes, unescaped.  On an engine that compiles every
    such source whose term has no syntax character, the operation
    completes for every target whose file name has none and whose
    [aliases] key is absent, [null] or an array of strings that have
    none.  The condition on the characters is needed: when the engine
    rejects the source of the target's file name, as JavaScript does for
    the names [(], [+] and [*], and some other note lacks a link to the
    target, the operation fails, with the engine's error when the aliases
    are readable. *)
Theorem getUnlinkedReferences_metaFree_completes
    (engine : VaultService.RegExpEngine) (notes : list Note)
    (readNote : string -> Result Note) (targetPath : string) (limit : Z)
    (targetNote : Note) :
  readNote targetPath = Ok targetNote ->
  ((forall term, RegExp.metaFree term = true ->
                 isOk (engine (VaultService.wordSource term)) = true) ->
   RegExp.metaFree (name targetNote) = true ->
   aliasesReadable targetNote = true ->
   forallb RegExp.metaFree (aliasesOf targetNote) = true ->
   isOk (VaultService.getUnlinkedReferences engine notes readNote
           targetPath limit) = true)
  /\ (forall e,
        engine (VaultService.wordSource (name targetNote)) = Throw e ->
        existsb (RegExp.searched targetPath targetNote) notes = true ->
        isOk (VaultService.getUnlinkedReferences engine notes readNote
                targetPath limit) = false
        /\ (aliasesReadable targetNote = true ->
            VaultService.getUnlinkedReferences engine notes readNote
              targetPath limit = Throw e)).
Proof.
  intros Hread.
  unfold VaultService.getUnlinkedReferences. rewrite Hread. simpl.
  split.
  - intros Hengine Hname Hreadable Haliases.
    rewrite (searchTermsOf_readable _ Hreadable). simpl bind.
    match goal with
    | |- isOk (bind ?loop _) = true => assert (Hloop : isOk loop = true)
    end.
    { apply (unlinkedLoop_ok engine targetPath targetNote
               (name targetNote :: aliasesOf targetNote) notes Hreadable).
      intros term [<- | Hin].
      - apply Hengine. exact Hname.
      - apply Hengine.
        rewrite forallb_forall in Haliases. apply Haliases. exact Hin. }
    match goal with
    | H : isOk ?loop = true |- isOk (bind ?loop' _) = true =>
        change loop' with loop; destruct loop;
        [reflexivity | discriminate H]
    end.
  - intros e Hthrow Hex. split.
    + destruct (VaultService.searchTermsOf targetNote) as [terms | e']
        eqn:Eterms; [| reflexivity].
      simpl.
      assert (Hhead : exists rest, terms = VStr (name targetNote) :: rest).
      { unfold VaultService.searchTermsOf in Eterms.
        destruct (field "aliases" targetNote) as [aliases |].
        - destruct (truthy aliases).
          + destruct (VaultService.spreadOf aliases) as [l | e'];
              simpl in Eterms; [| discriminate].
            inversion Eterms. eauto.
          + inversion Eterms. eauto.
        - inversion Eterms. eauto. }
      destruct Hhead as [rest ->].
      pose proof (unlinkedLoop_fails engine targetPath targetNote
                    (name targetNote) rest notes e Hthrow Hex) as Hfail.
      destruct (VaultService.unlinkedLoop engine targetPath targetNote
                  (VStr (name targetNote) :: rest) notes);
        [discriminate Hfail | reflexivity].
    + intros Hreadable.
      rewrite (searchTermsOf_readable _ Hreadable). simpl.
      rewrite (unlinkedLoop_throws engine targetPath targetNote
                 (name targetNote) _ notes e Hreadable Hthrow Hex).
      reflexivity.
Qed.

Lemma getUnlinkedReferences_metaFree_completes_witness :
  isOk (VaultService.getUnlinkedReferences RegExp.wordEngine
          [Samples.mention; Samples.planNote]
          (Samples.readIn [Samples.mention; Samples.planNote])
          "Plan.md" 50) = true
  /\ VaultService.getUnlinkedReferences RegExp.wordEngine
       [Samples.mention; Samples.paren]
       (Samples.readIn [Samples.mention; Samples.paren]) "(.md" 50
     = Throw (SyntaxError "Invalid regular expression").
Proof.
  split.
  - apply (getUnlinkedReferences_metaFree_completes RegExp.wordEngine
             [Samples.mention; Samples.planNote]
             (Samples.readIn [Samples.mention; Samples.planNote])
             "Plan.md" 50 Samples.planNote).
    + reflexivity.
    + exact wordEngine_compiles.
    + reflexivity.
    + reflexivity.
    + reflexivity.
  - apply (getUnlinkedReferences_metaFree_completes RegExp.wordEngine
             [Samples.mention; Samples.paren]
             (Samples.readIn [Samples.mention; Samples.paren])
             "(.md" 50 Samples.paren).
    + reflexivity.
    + reflexivity.
    + reflexivity.
    + reflexivity.
Defined.
(** ** Parsing a note *)

Lemma addFrontmatterTags_ok (l : list Val) (acc : list string) :
  forallb isStr l = true -> isOk (addFrontmatterTags l acc) = true.
Proof.
  revert acc.
  induction l as [| v l IH]; intros acc Hall; simpl; [reflexivity |].
  simpl in Hall. apply andb_true_iff in Hall. destruct Hall as [Hv Hl].
  destruct v; try discriminate Hv.
  apply IH. exact Hl.
Qed.

Lemma addFrontmatterTags_throws (l : list Val) (acc : list string) :
  forallb isStr l = false ->
  exists msg, addFrontmatterTags l acc = Throw (TypeError msg).
Proof.
  revert acc.
  induction l as [| v l IH]; intros acc Hall; simpl; [discriminate |].
  simpl in Hall.
  destruct v; try (eexists; reflexivity).
  simpl in Hall. apply IH. exact Hall.
Qed.

Lemma extractTags_walkable (body : string) (v : option Val) :
  tagsWalkable v = true -> isOk (extractTags body v) = true.
Proof.
  intros Hw. unfold extractTags.
  destruct v as [v |]; [| reflexivity].
  destruct v; simpl in *; try (rewrite negb_true_iff in Hw; rewrite Hw);
    try reflexivity; try discriminate.
  pose proof (addFrontmatterTags_ok l [] Hw) as Hok.
  destruct (addFrontmatterTags l []); [reflexivity | discriminate].
Qed.

Lemma extractTags_not_walkable (body : string) (v : option Val) :
  tagsWalkable v = false ->
  exists msg, extractTags body v = Throw (TypeError msg).
Proof.
  intros Hw. unfold extractTags.
  destruct v as [v |]; [| discriminate].
  destruct v; simpl in *; try discriminate;
    try (rewrite negb_false_iff in Hw; rewrite Hw; eexists; reflexivity).
  destruct (addFrontmatterTags_throws l [] Hw) as [msg ->].
  exists msg. reflexivity.
Qed.

(** C3, as stated, fails: on a file whose front matter gives [tags] as a
    scalar, [parseNote] throws a [TypeError]. *)
Lemma parseNote_scalar_tags_throws :
  parseNote Samples.scalarTagsMatter "/vault" "/vault/n.md"
    Samples.scalarTagsText (0%Z, 0%Z)
  = Throw (TypeError "frontmatterTags.forEach is not a function").
Proof.
  vm_compute. reflexivity.
Qed.

(** C3, amended: [parseNote] throws exactly when gray-matter throws or
    when the front-matter [tags] value is neither absent, nor falsy, nor an
    array of strings; in every other case it returns a note whose body,
    links, headings and blocks are those extracted from the parsed body,
    with no front matter when the parsed data is empty.  The extractors of
    links, headings and blocks cannot throw.  [readNote] turns whatever
    [parseNote] throws into its not-found error and leaves the file system
    as it was. *)
Theorem parseNote_throws_exactly
    (matter : Matter) (vaultPath filePath text : string) (stats : Z * Z) :
  (forall e, matter text = Throw e ->
             parseNote matter vaultPath filePath text stats = Throw e)
  /\ (forall parsed, matter text = Ok parsed ->
        (tagsWalkable (lookup "tags" (gm_data parsed)) = true ->
         exists note,
           parseNote matter vaultPath filePath text stats = Ok note
           /\ content note = gm_content parsed
           /\ links note = map target (extractLinks (gm_content parsed))
           /\ headings note = extractHeadings (gm_content parsed)
           /\ blocks note = extractBlocks (gm_content parsed)
           /\ (gm_data parsed = [] -> frontmatter note = None))
        /\ (tagsWalkable (lookup "tags" (gm_data parsed)) = false ->
            exists msg,
              parseNote matter vaultPath filePath text stats
              = Throw (TypeError msg)))
  /\ (forall relativePath st,
        snd (VaultFiles.readNote matter vaultPath relativePath st) = st
        /\ ((exists note,
               fst (VaultFiles.readNote matter vaultPath relativePath st)
               = Ok note)
            \/ fst (VaultFiles.readNote matter vaultPath relativePath st)
               = Throw (VaultFiles.notFound relativePath))).
Proof.
  split; [| split].
  - intros e He. unfold parseNote. rewrite He. reflexivity.
  - intros parsed Hp. unfold parseNote. rewrite Hp. simpl.
    split.
    + intros Hw.
      pose proof (extractTags_walkable (gm_content parsed) _ Hw) as Hok.
      destruct (extractTags (gm_content parsed)
                  (lookup "tags" (gm_data parsed))) as [tags | e];
        [| discriminate Hok].
      simpl. eexists. split; [reflexivity |].
      simpl. repeat split.
      intros ->. reflexivity.
    + intros Hw.
      destruct (extractTags_not_walkable (gm_content parsed) _ Hw)
        as [msg ->].
      exists msg. reflexivity.
  - intros relativePath st.
    unfold VaultFiles.readNote, Fs.rethrow, Fs.seq, Fs.readFile, Fs.stat.
    destruct (lookup (VaultFiles.getAbsolutePath vaultPath relativePath)
                (Fs.files st)) as [f |] eqn:E; simpl; try rewrite E; simpl.
    + destruct (parseNote matter vaultPath
                  (VaultFiles.getAbsolutePath vaultPath relativePath)
                  (Fs.f_text f) (Fs.f_mtime f, Fs.f_birthtime f))
        as [note | e]; simpl.
      * split; [reflexivity | left; exists note; reflexivity].
      * split; [reflexivity | right; reflexivity].
    + split; [reflexivity | right; reflexivity].
Qed.

Lemma parseNote_throws_exactly_witness :
  exists note,
    parseNote Samples.plainMatter "/vault" "/vault/n.md"
      "see [[B]] #tag" (0%Z, 0%Z) = Ok note
    /\ content note = "see [[B]] #tag"
    /\ links note = ["B"]
    /\ frontmatter note = None.
Proof.
  destruct (parseNote_throws_exactly Samples.plainMatter "/vault"
              "/vault/n.md" "see [[B]] #tag" (0%Z, 0%Z))
    as [_ [H _]].
  destruct (H (mkFile [] "see [[B]] #tag") eq_refl) as [Hok _].
  destruct (Hok eq_refl) as [note [H1 [H2 [H3 [_ [_ H6]]]]]].
  exists note.
  split; [exact H1 |].
  split; [exact H2 |].
  split; [exact H3 |].
  apply H6. reflexivity.
Defined.

(** ** The traversal of connected notes: termination *)

Lemma arrIncludes_In (xs : list string) (x : string) :
  arrIncludes xs x = true <-> In x xs.
Proof.
  unfold arrIncludes. rewrite existsb_exists.
  split.
  - intros [y [Hy E]]. apply String.eqb_eq in E. subst y. exact Hy.
  - intros Hx. exists x. split; [exact Hx | apply String.eqb_refl].
Qed.

Lemma arrIncludes_app (xs ys : list string) (x : string) :
  arrIncludes (xs ++ ys) x = arrIncludes xs x || arrIncludes ys x.
Proof.
  unfold arrIncludes. apply existsb_app.
Qed.

Lemma find_path (allNotes : list Note) (p : string) (n : Note) :
  find (fun m => path m =? p) allNotes = Some n ->
  In n allNotes /\ path n = p.
Proof.
  intros H. unfold find in H. apply find_some in H.
  destruct H as [Hin E]. apply String.eqb_eq in E. split; assumption.
Qed.

Lemma length_linkPushes (allNotes : list Note) (inc : list string)
    (d : Z) (ls : list string) :
  (List.length (NavigationTools.linkPushes allNotes inc d ls)
   <= List.length ls)%nat.
Proof.
  induction ls as [| l ls IH]; simpl; [lia |].
  destruct (NavigationTools.linkedNote allNotes l) as [n |]; [| lia].
  destruct (arrIncludes inc (path n)); simpl; lia.
Qed.

Lemma length_backlinkPushes (inc : list string) (d : Z)
    (bl : option (list string)) :
  (List.length (NavigationTools.backlinkPushes inc d bl)
   <= match bl with Some l => List.length l | None => 0 end)%nat.
Proof.
  destruct bl as [l |]; simpl; [| lia].
  rewrite length_map. apply filter_length_le.
Qed.

Lemma pending_grows_le (allNotes : list Note) (inc : list string)
    (p : string) :
  (Graph.pending allNotes (inc ++ [p]) <= Graph.pending allNotes inc)%nat.
Proof.
  unfold Graph.pending.
  induction allNotes as [| m l IH]; simpl; [lia |].
  rewrite arrIncludes_app.
  destruct (arrIncludes inc (path m)); destruct (arrIncludes [p] (path m));
    simpl; lia.
Qed.

Lemma pending_drops (allNotes : list Note) (inc : list string) (n : Note) :
  In n allNotes -> arrIncludes inc (path n) = false ->
  (Graph.pending allNotes (inc ++ [path n]) + NavigationTools.degree n
   <= Graph.pending allNotes inc)%nat.
Proof.
  unfold Graph.pending.
  induction allNotes as [| m l IH]; intros Hin Hnew; [destruct Hin |].
  simpl. rewrite arrIncludes_app.
  destruct Hin as [-> | Hin].
  - rewrite Hnew. simpl.
    unfold arrIncludes at 1. simpl. rewrite String.eqb_refl. simpl.
    pose proof (pending_grows_le l inc (path n)) as Hle.
    unfold Graph.pending in Hle. lia.
  - specialize (IH Hin Hnew).
    destruct (arrIncludes inc (path m));
      destruct (arrIncludes [path n] (path m)); simpl; lia.
Qed.

(** Every turn of the loop lowers the measure. *)
Lemma step_measure (allNotes : list Note) (maxDepth maxNotes : Z)
    (t t' : NavigationTools.Traversal) :
  NavigationTools.step allNotes maxDepth maxNotes t = Some t' ->
  (Graph.measure allNotes t' < Graph.measure allNotes t)%nat.
Proof.
  unfold NavigationTools.step, Graph.measure.
  destruct t as [inc res q]. simpl.
  destruct q as [| [p d] rest]; [discriminate |].
  destruct (negb (Z.of_nat (List.length res) <? maxNotes)%Z);
    [discriminate |].
  simpl.
  destruct (arrIncludes inc p || (maxDepth <? d)%Z) eqn:Eskip.
  - intros H. inversion H; subst. simpl. lia.
  - apply orb_false_iff in Eskip. destruct Eskip as [Hnew _].
    destruct (find (fun n => path n =? p) allNotes) as [note |] eqn:Ef.
    + apply find_path in Ef. destruct Ef as [Hin Hp]. subst p.
      intros H. inversion H; subst. simpl.
      pose proof (pending_drops allNotes inc note Hin Hnew) as Hdrop.
      rewrite length_app.
      assert (Hpush :
        (List.length
           (if (d <? maxDepth)%Z
            then NavigationTools.linkPushes allNotes (inc ++ [path note]) d
                   (links note)
                 ++ NavigationTools.backlinkPushes (inc ++ [path note]) d
                      (backlinks note)
            else [])
         <= NavigationTools.degree note)%nat).
      { destruct (d <? maxDepth)%Z; simpl; [| lia].
        rewrite length_app. unfold NavigationTools.degree.
        pose proof (length_linkPushes allNotes (inc ++ [path note]) d
                      (links note)).
        pose proof (length_backlinkPushes (inc ++ [path note]) d
                      (backlinks note)).
        lia. }
      lia.
    + intros H. inversion H; subst. simpl. lia.
Qed.

(** With as many turns as the measure, the loop comes to its end. *)
Lemma run_terminates (allNotes : list Note) (maxDepth maxNotes : Z)
    (fuel : nat) (t : NavigationTools.Traversal) :
  (Graph.measure allNotes t <= fuel)%nat ->
  exists r, NavigationTools.run allNotes maxDepth maxNotes fuel t = Some r.
Proof.
  revert t.
  induction fuel as [| fuel IH]; intros t Hm.
  - destruct (NavigationTools.step allNotes maxDepth maxNotes t)
      as [t' |] eqn:Es.
    + apply step_measure in Es. lia.
    + exists (NavigationTools.result t). simpl. rewrite Es. reflexivity.
  - simpl.
    destruct (NavigationTools.step allNotes maxDepth maxNotes t)
      as [t' |] eqn:Es.
    + apply IH. apply step_measure in Es. lia.
    + eexists. reflexivity.
Qed.

(** ** The traversal of connected notes: what each turn keeps *)

Lemma sorted_app_l (a b : list Z) :
  StronglySorted Z.le (a ++ b) -> StronglySorted Z.le a.
Proof.
  induction a as [| x a IH]; intros H; [constructor |].
  simpl in H. apply StronglySorted_inv in H. destruct H as [Hs Hall].
  constructor; [apply IH; exact Hs |].
  apply Forall_app in Hall. tauto.
Qed.

Lemma sorted_middle (a b : list Z) (x : Z) :
  StronglySorted Z.le (a ++ x :: b) ->
  Forall (fun y => (y <= x)%Z) a /\ Forall (fun y => (x <= y)%Z) b
  /\ StronglySorted Z.le (a ++ b).
Proof.
  induction a as [| y a IH]; intros H; simpl in *.
  - apply StronglySorted_inv in H. destruct H as [Hs Hall].
    repeat split; [constructor | exact Hall | exact Hs].
  - apply StronglySorted_inv in H. destruct H as [Hs Hall].
    destruct (IH Hs) as [Ha [Hb Hab]].
    apply Forall_app in Hall. destruct Hall as [Hya Hyxb].
    apply Forall_cons_iff in Hyxb. destruct Hyxb as [Hyx Hyb].
    repeat split.
    + constructor; assumption.
    + exact Hb.
    + constructor; [exact Hab |].
      apply Forall_app. split; assumption.
Qed.

Lemma sorted_snoc_layer (l m : list Z) (c : Z) :
  StronglySorted Z.le l ->
  Forall (fun y => (y <= c)%Z) l ->
  Forall (fun y => y = c) m ->
  StronglySorted Z.le (l ++ m).
Proof.
  intros Hs Hle Hm.
  induction l as [| x l IH]; simpl.
  - induction m as [| y m IHm]; [constructor |].
    apply Forall_cons_iff in Hm. destruct Hm as [-> Hm].
    constructor; [apply IHm; exact Hm |].
    eapply Forall_impl; [| exact Hm]. simpl. intros z ->. lia.
  - apply StronglySorted_inv in Hs. destruct Hs as [Hs Hall].
    apply Forall_cons_iff in Hle. destruct Hle as [Hx Hle].
    constructor; [apply IH; assumption |].
    apply Forall_app. split; [exact Hall |].
    eapply Forall_impl; [| exact Hm]. simpl. intros z ->. exact Hx.
Qed.

Section Pushes.

Variable allNotes : list Note.

Lemma linkPushes_spec (inc : list string) (d : Z) (note : Note)
    (ls : list string) :
  (forall l, In l ls -> In l (links note)) ->
  Forall (fun e => snd e = (d + 1)%Z
                   /\ Graph.neighbor allNotes note (fst e))
         (NavigationTools.linkPushes allNotes inc d ls).
Proof.
  induction ls as [| l ls IH]; intros Hsub; simpl; [constructor |].
  assert (Hrest : forall l', In l' ls -> In l' (links note)).
  { intros l' Hl'. apply Hsub. right. exact Hl'. }
  destruct (NavigationTools.linkedNote allNotes l) as [n |] eqn:El;
    [| apply IH; exact Hrest].
  destruct (arrIncludes inc (path n)); [apply IH; exact Hrest |].
  constructor; [| apply IH; exact Hrest].
  simpl. split; [reflexivity |].
  left. exists l, n.
  split; [apply Hsub; left; reflexivity |].
  split; [exact El | reflexivity].
Qed.

Lemma backlinkPushes_spec (inc : list string) (d : Z) (note : Note) :
  Forall (fun e => snd e = (d + 1)%Z
                   /\ Graph.neighbor allNotes note (fst e))
         (NavigationTools.backlinkPushes inc d (backlinks note)).
Proof.
  unfold NavigationTools.backlinkPushes.
  destruct (backlinks note) as [bl |] eqn:Eb; [| constructor].
  apply Forall_forall. intros e He.
  apply in_map_iff in He. destruct He as [b [<- Hb]].
  apply filter_In in Hb. destruct Hb as [Hb _].
  simpl. split; [reflexivity |].
  right. exists bl. split; [exact Eb | exact Hb].
Qed.

End Pushes.

Lemma NoDup_snoc {A} (l : list A) (x : A) :
  NoDup l -> ~ In x l -> NoDup (l ++ [x]).
Proof.
  intros Hl Hx.
  apply (Permutation_NoDup (l := x :: l)).
  - apply Permutation_cons_append.
  - constructor; assumption.
Qed.

Section Keeps.

Variable allNotes : list Note.
Variable centralPath : string.
Variable maxDepth maxNotes : Z.

Let Inv := Graph.Inv allNotes centralPath maxDepth maxNotes.

(** Dropping the head of the queue keeps the invariant. *)
Lemma drop_head_keeps (inc : list string) (res : list Note)
    (e : string * Z) (rest : list (string * Z)) (ds : list Z) :
  Inv (NavigationTools.mkTraversal inc res (e :: rest)) ds ->
  Inv (NavigationTools.mkTraversal inc res rest) ds.
Proof.
  intros [I1 I2 I3 I4 I5 I6 I7]. simpl in *.
  destruct (sorted_middle _ _ _ I5) as [_ [Hrest Hsorted]].
  apply Forall_cons_iff in I6. destruct I6 as [_ I6].
  apply Forall_cons_iff in I7. destruct I7 as [_ I7].
  constructor; simpl; try assumption.
  destruct rest as [| e2 rest']; simpl; [exact I |].
  simpl in Hrest. apply Forall_cons_iff in Hrest. destruct Hrest as [He2 _].
  eapply Forall_impl; [| exact I7].
  simpl. intros e' He'. lia.
Qed.

(** Taking the head of the queue keeps the invariant. *)
Lemma take_head_keeps (inc : list string) (res : list Note) (note : Note)
    (d : Z) (rest pushes : list (string * Z)) (ds : list Z) :
  Inv (NavigationTools.mkTraversal inc res ((path note, d) :: rest)) ds ->
  (Z.of_nat (List.length res) < maxNotes)%Z ->
  arrIncludes inc (path note) = false ->
  Graph.noteAt allNotes (path note) = Some note ->
  Forall (fun e => snd e = (d + 1)%Z
                   /\ Graph.neighbor allNotes note (fst e)) pushes ->
  (pushes <> [] -> (d < maxDepth)%Z) ->
  Inv (NavigationTools.mkTraversal (inc ++ [path note]) (res ++ [note])
         (rest ++ pushes)) (ds ++ [d]).
Proof.
  intros [I1 I2 I3 I4 I5 I6 I7] Hcount Hnew Hat Hpushes Hdeep.
  simpl in *.
  destruct (sorted_middle _ _ _ I5) as [Hds [Hrest Hsorted]].
  apply Forall_cons_iff in I6. destruct I6 as [[Hd Hreach] I6].
  simpl in Hd, Hreach.
  apply Forall_cons_iff in I7. destruct I7 as [_ I7]. simpl in I7.
  constructor; simpl.
  - rewrite map_app, I1. reflexivity.
  - apply NoDup_snoc; [exact I2 |].
    intros Hin. apply arrIncludes_In in Hin. congruence.
  - rewrite length_app. simpl. lia.
  - apply Forall2_app; [exact I4 |].
    constructor; [| constructor].
    split; [exact Hat | split; assumption].
  - rewrite map_app.
    replace ((ds ++ [d]) ++ map snd rest ++ map snd pushes)
      with ((ds ++ d :: map snd rest) ++ map snd pushes)
      by (rewrite <- !app_assoc; reflexivity).
    apply (sorted_snoc_layer _ _ (d + 1)%Z).
    + exact I5.
    + apply Forall_app. split.
      * eapply Forall_impl; [| exact Hds]. simpl. intros y Hy. lia.
      * constructor; [lia |].
        apply Forall_map. exact I7.
    + apply Forall_map.
      eapply Forall_impl; [| exact Hpushes]. simpl. intros e [He _]. exact He.
  - apply Forall_app. split; [exact I6 |].
    destruct pushes as [| e0 pushes']; [constructor |].
    assert (Hlt : (d < maxDepth)%Z) by (apply Hdeep; discriminate).
    eapply Forall_impl; [| exact Hpushes].
    intros [p' d'] [He Hn]. simpl in He, Hn. subst d'.
    split; simpl; [lia |].
    eapply Graph.reach_next; eassumption.
  - destruct rest as [| e2 rest']; simpl.
    + destruct pushes as [| e0 pushes']; simpl; [exact I |].
      eapply Forall_impl; [| exact Hpushes].
      apply Forall_cons_iff in Hpushes. destruct Hpushes as [[He0 _] _].
      intros e [He _]. lia.
    + simpl in Hrest. apply Forall_cons_iff in Hrest.
      destruct Hrest as [He2 _].
      change (e2 :: rest' ++ pushes) with ((e2 :: rest') ++ pushes).
      apply Forall_app. split.
      * eapply Forall_impl; [| exact I7]. simpl. intros e' He'. lia.
      * eapply Forall_impl; [| exact Hpushes].
        simpl. intros e [He _]. lia.
Qed.

(** Every turn of the loop keeps the invariant and only extends the
    result. *)
Lemma step_keeps (t t' : NavigationTools.Traversal) (ds : list Z) :
  Inv t ds ->
  NavigationTools.step allNotes maxDepth maxNotes t = Some t' ->
  exists ds' more,
    Inv t' ds'
    /\ NavigationTools.result t' = NavigationTools.result t ++ more.
Proof.
  destruct t as [inc res q].
  intros HI. unfold NavigationTools.step. simpl.
  destruct q as [| [p d] rest]; [discriminate |].
  destruct (Z.of_nat (List.length res) <? maxNotes)%Z eqn:Ecount;
    simpl; [| discriminate].
  apply Z.ltb_lt in Ecount.
  assert (Hdrop : forall t0,
            Some (NavigationTools.mkTraversal inc res rest) = Some t0 ->
            exists ds' more,
              Inv t0 ds' /\ NavigationTools.result t0 = res ++ more).
  { intros t0 H0. inversion H0; subst t0.
    exists ds, []. split; [| simpl; rewrite app_nil_r; reflexivity].
    eapply drop_head_keeps. exact HI. }
  destruct (arrIncludes inc p || (maxDepth <? d)%Z) eqn:Eskip;
    [apply Hdrop |].
  apply orb_false_iff in Eskip. destruct Eskip as [Hnew _].
  destruct (find (fun n => path n =? p) allNotes) as [note |] eqn:Ef;
    [| apply Hdrop].
  intros H. inversion H; subst t'. clear H Hdrop.
  pose proof (find_path _ _ _ Ef) as [_ Hp]. subst p.
  exists (ds ++ [d]), [note].
  split; [| reflexivity].
  apply take_head_keeps; try assumption.
  - destruct (d <? maxDepth)%Z; [| constructor].
    apply Forall_app. split.
    + apply linkPushes_spec. intros l Hl. exact Hl.
    + apply backlinkPushes_spec.
  - destruct (d <? maxDepth)%Z eqn:Ed; [intros _; apply Z.ltb_lt; exact Ed |].
    intros Hne. contradiction Hne. reflexivity.
Qed.

(** The loop ends within its measure, with a result that satisfies the
    bounds and extends the result it started from. *)
Lemma run_bounded (fuel : nat) (t : NavigationTools.Traversal)
    (ds : list Z) :
  Inv t ds ->
  (Graph.measure allNotes t <= fuel)%nat ->
  exists r ds' more,
    NavigationTools.run allNotes maxDepth maxNotes fuel t = Some r
    /\ Graph.bounded allNotes centralPath maxDepth maxNotes r ds'
    /\ r = NavigationTools.result t ++ more.
Proof.
  revert t ds.
  induction fuel as [| fuel IH]; intros t ds HI Hm; simpl.
  - destruct (NavigationTools.step allNotes maxDepth maxNotes t)
      as [t' |] eqn:Es.
    + apply step_measure in Es. lia.
    + exists (NavigationTools.result t), ds, [].
      split; [reflexivity |].
      split; [| rewrite app_nil_r; reflexivity].
      destruct HI as [I1 I2 I3 I4 I5 _ _].
      repeat split; try assumption.
      * rewrite <- I1. exact I2.
      * eapply sorted_app_l. exact I5.
  - destruct (NavigationTools.step allNotes maxDepth maxNotes t)
      as [t' |] eqn:Es.
    + destruct (step_keeps t t' ds HI Es) as [ds' [more [HI' Hres]]].
      pose proof (step_measure _ _ _ _ _ Es) as Hlt.
      destruct (IH t' ds' HI') as [r [ds2 [more' [Hrun [Hb Hr]]]]]; [lia |].
      exists r, ds2, (more ++ more').
      split; [exact Hrun |].
      split; [exact Hb |].
      rewrite Hr, Hres, app_assoc. reflexivity.
    + exists (NavigationTools.result t), ds, [].
      split; [reflexivity |].
      split; [| rewrite app_nil_r; reflexivity].
      destruct HI as [I1 I2 I3 I4 I5 _ _].
      repeat split; try assumption.
      * rewrite <- I1. exact I2.
      * eapply sorted_app_l. exact I5.
Qed.

End Keeps.

(** ** The traversal of connected notes: nothing within reach is left out *)

Lemma combine_snoc {A B} (l : list A) (m : list B) (a : A) (b : B) :
  List.length l = List.length m ->
  combine (l ++ [a]) (m ++ [b]) = combine l m ++ [(a, b)].
Proof.
  revert m.
  induction l as [| x l IH]; intros [| y m] H; simpl in *;
    try discriminate; [reflexivity |].
  rewrite IH by congruence. reflexivity.
Qed.

Lemma in_combine_some {A B} (l : list A) (m : list B) (a : A) :
  List.length l = List.length m -> In a l ->
  exists b, In (a, b) (combine l m).
Proof.
  revert m.
  induction l as [| x l IH]; intros [| y m] H Hin; simpl in *;
    try discriminate; [destruct Hin |].
  destruct Hin as [-> | Hin].
  - exists y. left. reflexivity.
  - destruct (IH m) as [b Hb]; [congruence | exact Hin |].
    exists b. right. exact Hb.
Qed.

Lemma linkPushes_complete (allNotes : list Note) (inc : list string)
    (d : Z) (ls : list string) (link : string) (m : Note) :
  In link ls ->
  NavigationTools.linkedNote allNotes link = Some m ->
  arrIncludes inc (path m) = false ->
  In (path m, (d + 1)%Z) (NavigationTools.linkPushes allNotes inc d ls).
Proof.
  intros Hin Hl Hnew.
  induction ls as [| l ls IH]; [destruct Hin |].
  simpl. destruct Hin as [-> | Hin].
  - rewrite Hl, Hnew. left. reflexivity.
  - specialize (IH Hin).
    destruct (NavigationTools.linkedNote allNotes l) as [n |]; [| exact IH].
    destruct (arrIncludes inc (path n)); [exact IH | right; exact IH].
Qed.

Lemma backlinkPushes_complete (inc : list string) (d : Z)
    (bl : list string) (p : string) :
  In p bl -> arrIncludes inc p = false ->
  In (p, (d + 1)%Z) (NavigationTools.backlinkPushes inc d (Some bl)).
Proof.
  intros Hin Hnew. simpl.
  apply (in_map (fun b => (b, (d + 1)%Z))).
  apply filter_In. split; [exact Hin |]. rewrite Hnew. reflexivity.
Qed.

Section Complete.

Variable allNotes : list Note.
Variable centralPath : string.
Variable maxDepth maxNotes : Z.

Let Inv := Graph.Inv allNotes centralPath maxDepth maxNotes.
Let Closed := Graph.Closed allNotes centralPath maxDepth.
Let takenBy := Graph.takenBy.

Lemma takenBy_more (r : list Note) (ds : list Z) (n : Note) (dn : Z)
    (p : string) (d : Z) :
  List.length r = List.length ds ->
  takenBy r ds p d -> takenBy (r ++ [n]) (ds ++ [dn]) p d.
Proof.
  intros Hlen [m [dm [Hin H]]].
  exists m, dm. split; [| exact H].
  rewrite combine_snoc by exact Hlen.
  apply in_or_app. left. exact Hin.
Qed.

Lemma takenBy_last (r : list Note) (ds : list Z) (n : Note) (dn d : Z) :
  List.length r = List.length ds -> (dn <= d)%Z ->
  takenBy (r ++ [n]) (ds ++ [dn]) (path n) d.
Proof.
  intros Hlen Hle. exists n, dn.
  split; [| split; [reflexivity | exact Hle]].
  rewrite combine_snoc by exact Hlen.
  apply in_or_app. right. left. reflexivity.
Qed.

Lemma included_takenBy (r : list Note) (ds : list Z) (p : string) (c : Z) :
  List.length r = List.length ds ->
  In p (map path r) ->
  Forall (fun y => (y <= c)%Z) ds ->
  takenBy r ds p c.
Proof.
  intros Hlen Hin Hall.
  apply in_map_iff in Hin. destruct Hin as [n [Hp Hn]].
  destruct (in_combine_some r ds n Hlen Hn) as [dn Hdn].
  exists n, dn. split; [exact Hdn |]. split; [exact Hp |].
  rewrite Forall_forall in Hall. apply Hall.
  eapply in_combine_r. exact Hdn.
Qed.

(** Dropping a head of the queue that cannot be taken loses nothing. *)
Lemma drop_head_closed (inc : list string) (res : list Note)
    (e : string * Z) (rest : list (string * Z)) (ds : list Z) :
  Inv (NavigationTools.mkTraversal inc res (e :: rest)) ds ->
  Closed (NavigationTools.mkTraversal inc res (e :: rest)) ds ->
  arrIncludes inc (fst e) = true
  \/ Graph.noteAt allNotes (fst e) = None ->
  Closed (NavigationTools.mkTraversal inc res rest) ds.
Proof.
  intros [I1 I2 I3 I4 I5 I6 I7] [C1 C2] Hskip. simpl in *.
  pose proof (Forall2_length I4) as Hlen.
  destruct (sorted_middle _ _ _ I5) as [Hds _].
  assert (Hhead : forall p d,
            e = (p, d) -> Graph.noteAt allNotes p <> None ->
            takenBy res ds p d).
  { intros p d -> Hat. simpl in *.
    destruct Hskip as [Hinc | Hnone]; [| contradiction].
    apply included_takenBy; [exact Hlen | | exact Hds].
    rewrite <- I1. apply arrIncludes_In. exact Hinc. }
  constructor; simpl.
  - destruct C1 as [C1 | [[He | Hin] | C1]].
    + left. exact C1.
    + destruct (Graph.noteAt allNotes centralPath) eqn:Eat.
      * left. apply (Hhead _ _ He). rewrite Eat. discriminate.
      * right. right. reflexivity.
    + right. left. exact Hin.
    + right. right. exact C1.
  - intros n dn p Hin Hdn Hnb Hat.
    destruct (C2 n dn p Hin Hdn Hnb Hat) as [H | [He | H]].
    + left. exact H.
    + left. apply (Hhead _ _ He Hat).
    + right. exact H.
Qed.

(** Taking the head of the queue, and pushing the neighbours of its note
    that are not yet included, loses nothing. *)
Lemma take_head_closed (inc : list string) (res : list Note) (note : Note)
    (d : Z) (rest : list (string * Z)) (ds : list Z) :
  Inv (NavigationTools.mkTraversal inc res ((path note, d) :: rest)) ds ->
  Closed (NavigationTools.mkTraversal inc res ((path note, d) :: rest)) ds ->
  Closed
    (NavigationTools.mkTraversal (inc ++ [path note]) (res ++ [note])
       (rest
        ++ (if (d <? maxDepth)%Z then
              NavigationTools.linkPushes allNotes (inc ++ [path note]) d
                (links note)
              ++ NavigationTools.backlinkPushes (inc ++ [path note]) d
                   (backlinks note)
            else [])))
    (ds ++ [d]).
Proof.
  intros [I1 I2 I3 I4 I5 I6 I7] [C1 C2]. simpl in *.
  pose proof (Forall2_length I4) as Hlen.
  destruct (sorted_middle _ _ _ I5) as [Hds _].
  assert (Hinc : forall p,
            arrIncludes (inc ++ [path note]) p = true ->
            takenBy (res ++ [note]) (ds ++ [d]) p (d + 1)).
  { intros p Hp. apply arrIncludes_In in Hp.
    apply included_takenBy.
    - rewrite !length_app. simpl. lia.
    - rewrite map_app, <- I1. exact Hp.
    - apply Forall_app. split.
      + eapply Forall_impl; [| exact Hds]. simpl. intros y Hy. lia.
      + constructor; [lia | constructor]. }
  constructor; simpl.
  - destruct C1 as [C1 | [[He | Hin] | C1]].
    + left. apply takenBy_more; assumption.
    + left. inversion He as [[Hp Hd]].
      apply takenBy_last; [exact Hlen | lia].
    + right. left. apply in_or_app. left. exact Hin.
    + right. right. exact C1.
  - intros n dn p Hin Hdn Hnb Hat.
    rewrite combine_snoc in Hin by exact Hlen.
    apply in_app_or in Hin. destruct Hin as [Hin | [Hin | []]].
    + destruct (C2 n dn p Hin Hdn Hnb Hat) as [H | [He | H]].
      * left. apply takenBy_more; assumption.
      * left. inversion He as [[Hp Hd]].
        apply takenBy_last; [exact Hlen | lia].
      * right. apply in_or_app. left. exact H.
    + inversion Hin; subst n dn. clear Hin.
      assert (Ed : (d <? maxDepth)%Z = true) by (apply Z.ltb_lt; exact Hdn).
      rewrite Ed.
      destruct (arrIncludes (inc ++ [path note]) p) eqn:Enew;
        [left; apply Hinc; exact Enew |].
      right. apply in_or_app. right. apply in_or_app.
      destruct Hnb as [[link [m [Hl [Hm Hp]]]] | [bl [Hb Hp]]].
      * left. subst p. apply (linkPushes_complete _ _ _ _ link);
          assumption.
      * right. rewrite Hb. apply backlinkPushes_complete; assumption.
Qed.

(** Every turn of the loop keeps both invariants and only extends the
    result. *)
Lemma step_keeps_closed (t t' : NavigationTools.Traversal) (ds : list Z) :
  Inv t ds -> Closed t ds ->
  NavigationTools.step allNotes maxDepth maxNotes t = Some t' ->
  exists ds' more,
    Inv t' ds' /\ Closed t' ds'
    /\ NavigationTools.result t' = NavigationTools.result t ++ more.
Proof.
  destruct t as [inc res q].
  intros HI HC. unfold NavigationTools.step. simpl.
  destruct q as [| [p d] rest]; [discriminate |].
  destruct (Z.of_nat (List.length res) <? maxNotes)%Z eqn:Ecount;
    simpl; [| discriminate].
  apply Z.ltb_lt in Ecount.
  assert (Hwait : (d <= maxDepth)%Z).
  { destruct HI as [_ _ _ _ _ I6 _]. simpl in I6.
    apply Forall_cons_iff in I6. destruct I6 as [[Hd _] _].
    simpl in Hd. lia. }
  assert (Hdeep : (maxDepth <? d)%Z = false) by (apply Z.ltb_ge; exact Hwait).
  rewrite Hdeep, orb_false_r.
  assert (Hdrop : forall t0,
            arrIncludes inc p = true
            \/ Graph.noteAt allNotes p = None ->
            Some (NavigationTools.mkTraversal inc res rest) = Some t0 ->
            exists ds' more,
              Inv t0 ds' /\ Closed t0 ds'
              /\ NavigationTools.result t0 = res ++ more).
  { intros t0 Hskip H0. inversion H0; subst t0.
    exists ds, [].
    split; [eapply drop_head_keeps; exact HI |].
    split; [| simpl; rewrite app_nil_r; reflexivity].
    eapply drop_head_closed; [exact HI | exact HC | exact Hskip]. }
  destruct (arrIncludes inc p) eqn:Enew;
    [apply Hdrop; left; reflexivity |].
  destruct (find (fun n => path n =? p) allNotes) as [note |] eqn:Ef;
    [| apply Hdrop; right; exact Ef].
  intros H. inversion H; subst t'. clear H Hdrop.
  pose proof (find_path _ _ _ Ef) as [_ Hp]. subst p.
  exists (ds ++ [d]), [note].
  split; [| split; [| reflexivity]].
  - apply take_head_keeps; try assumption.
    + destruct (d <? maxDepth)%Z; [| constructor].
      apply Forall_app. split.
      * apply linkPushes_spec. intros l Hl. exact Hl.
      * apply backlinkPushes_spec.
    + destruct (d <? maxDepth)%Z eqn:Ed;
        [intros _; apply Z.ltb_lt; exact Ed |].
      intros Hne. contradiction Hne. reflexivity.
  - apply take_head_closed; assumption.
Qed.

(** When the loop has ended, a path within reach that holds a note is in
    the result, or the result is full of notes no deeper than it. *)
Lemma end_complete (t : NavigationTools.Traversal) (ds : list Z) :
  Inv t ds -> Closed t ds ->
  NavigationTools.step allNotes maxDepth maxNotes t = None ->
  Graph.complete allNotes centralPath maxDepth maxNotes
    (NavigationTools.result t) ds.
Proof.
  intros HI HC Hend.
  destruct HI as [I1 I2 I3 I4 I5 I6 I7]. destruct HC as [C1 C2].
  assert (Hfull : forall e,
            In e (NavigationTools.queue t) ->
            Z.of_nat (List.length (NavigationTools.result t)) = maxNotes
            /\ Forall (fun dn => (dn <= snd e)%Z) ds).
  { intros e He. split.
    - unfold NavigationTools.step in Hend.
      destruct (NavigationTools.queue t) as [| e0 rest]; [destruct He |].
      destruct (Z.of_nat (List.length (NavigationTools.result t))
                <? maxNotes)%Z eqn:Ecount.
      + simpl in Hend.
        destruct (arrIncludes _ _ || _); [discriminate |].
        destruct (find _ allNotes); discriminate.
      + apply Z.ltb_ge in Ecount. lia.
    - apply in_split in He. destruct He as [q1 [q2 Hq]].
      rewrite Hq, map_app in I5. simpl in I5.
      rewrite app_assoc in I5.
      destruct (sorted_middle _ _ _ I5) as [Hle _].
      apply Forall_app in Hle. tauto. }
  assert (Hmain : forall d p,
            Graph.reach allNotes centralPath d p ->
            (d <= maxDepth)%Z -> Graph.noteAt allNotes p <> None ->
            takenBy (NavigationTools.result t) ds p d
            \/ (Z.of_nat (List.length (NavigationTools.result t)) = maxNotes
                /\ Forall (fun dn => (dn <= d)%Z) ds)).
  { intros d p Hreach.
    induction Hreach as [| d q nq p Hq IH Hat Hnb]; intros Hd Hp.
    - destruct C1 as [C1 | [Hin | C1]].
      + left. exact C1.
      + right. apply (Hfull _ Hin).
      + contradiction.
    - destruct IH as [[m [dm [Hin [Hpath Hle]]]] | [Hcount Hall]].
      + lia.
      + rewrite Hat. discriminate.
      + assert (Hm : m = nq).
        { pose proof (in_combine_l _ _ _ _ Hin) as Hres.
          pose proof (in_combine_r _ _ _ _ Hin) as Hds.
          assert (Htaken : Graph.taken allNotes centralPath maxDepth m dm).
          { clear - I4 Hin.
            induction I4 as [| x y l l' Hxy _ IHl]; [destruct Hin |].
            destruct Hin as [E | Hin]; [inversion E; subst; exact Hxy |].
            apply IHl. exact Hin. }
          destruct Htaken as [Hself _].
          rewrite Hpath, Hat in Hself. congruence. }
        subst m.
        destruct (C2 nq dm p Hin ltac:(lia) Hnb Hp)
          as [[m' [dm' [Hin' [Hpath' Hle']]]] | Hwait].
        * left. exists m', dm'. repeat split; try assumption. lia.
        * right. destruct (Hfull _ Hwait) as [Hcount Hall].
          split; [exact Hcount |].
          eapply Forall_impl; [| exact Hall]. simpl. intros y Hy. lia.
      + right. split; [exact Hcount |].
        eapply Forall_impl; [| exact Hall]. simpl. intros y Hy. lia. }
  intros d p n Hreach Hd Hat.
  destruct (Hmain d p Hreach Hd) as [Htaken | Hcap].
  - rewrite Hat. discriminate.
  - left. split; [| exact Htaken].
    destruct Htaken as [m [dm [Hin [Hpath _]]]].
    assert (Htk : Graph.taken allNotes centralPath maxDepth m dm).
    { clear - I4 Hin.
      induction I4 as [| x y l l' Hxy _ IHl]; [destruct Hin |].
      destruct Hin as [E | Hin]; [inversion E; subst; exact Hxy |].
      apply IHl. exact Hin. }
    destruct Htk as [Hself _].
    rewrite Hpath, Hat in Hself. inversion Hself; subst.
    eapply in_combine_l. exact Hin.
  - right. exact Hcap.
Qed.

(** The loop ends within its measure, with a result that satisfies the
    bounds, extends the result it started from and leaves nothing out. *)
Lemma run_complete (fuel : nat) (t : NavigationTools.Traversal)
    (ds : list Z) :
  Inv t ds -> Closed t ds ->
  (Graph.measure allNotes t <= fuel)%nat ->
  exists r ds' more,
    NavigationTools.run allNotes maxDepth maxNotes fuel t = Some r
    /\ Graph.bounded allNotes centralPath maxDepth maxNotes r ds'
    /\ r = NavigationTools.result t ++ more
    /\ Graph.complete allNotes centralPath maxDepth maxNotes r ds'.
Proof.
  revert t ds.
  assert (Hend : forall t ds,
            Inv t ds -> Closed t ds ->
            NavigationTools.step allNotes maxDepth maxNotes t = None ->
            exists r ds' more,
              Some (NavigationTools.result t) = Some r
              /\ Graph.bounded allNotes centralPath maxDepth maxNotes r ds'
              /\ r = NavigationTools.result t ++ more
              /\ Graph.complete allNotes centralPath maxDepth maxNotes
                   r ds').
  { intros t ds HI HC Es.
    exists (NavigationTools.result t), ds, [].
    split; [reflexivity |].
    split; [| split; [rewrite app_nil_r; reflexivity |
                      apply end_complete; assumption]].
    destruct HI as [I1 I2 I3 I4 I5 _ _].
    repeat split; try assumption.
    - rewrite <- I1. exact I2.
    - eapply sorted_app_l. exact I5. }
  induction fuel as [| fuel IH]; intros t ds HI HC Hm; simpl.
  - destruct (NavigationTools.step allNotes maxDepth maxNotes t)
      as [t' |] eqn:Es.
    + apply step_measure in Es. lia.
    + apply (Hend t ds); assumption.
  - destruct (NavigationTools.step allNotes maxDepth maxNotes t)
      as [t' |] eqn:Es.
    + destruct (step_keeps_closed t t' ds HI HC Es)
        as [ds' [more [HI' [HC' Hres]]]].
      pose proof (step_measure _ _ _ _ _ Es) as Hlt.
      destruct (IH t' ds' HI' HC') as [r [ds2 [more' [Hrun [Hb [Hr Hc]]]]]];
        [lia |].
      exists r, ds2, (more ++ more').
      split; [exact Hrun |].
      split; [exact Hb |].
      split; [| exact Hc].
      rewrite Hr, Hres, app_assoc. reflexivity.
    + apply (Hend t ds); assumption.
Qed.

End Complete.

(** ** The traversal of connected notes: the result *)

Lemma measure_start (allNotes : list Note) (centralPath : string) :
  Graph.measure allNotes
    (NavigationTools.mkTraversal [] [] [(centralPath, 0%Z)])
  = NavigationTools.turns allNotes.
Proof.
  unfold Graph.measure, Graph.pending, NavigationTools.turns. simpl.
  f_equal. f_equal. f_equal.
  induction allNotes as [| n l IH]; simpl; [reflexivity |].
  rewrite IH. reflexivity.
Qed.

Lemma Inv_start (allNotes : list Note) (centralPath : string)
    (maxDepth maxNotes : Z) :
  (0 <= maxDepth)%Z -> (0 <= maxNotes)%Z ->
  Graph.Inv allNotes centralPath maxDepth maxNotes
    (NavigationTools.mkTraversal [] [] [(centralPath, 0%Z)]) [].
Proof.
  intros Hd Hn.
  constructor; simpl.
  - reflexivity.
  - constructor.
  - exact Hn.
  - constructor.
  - constructor; constructor.
  - constructor; [| constructor].
    split; simpl; [lia | apply Graph.reach_central].
  - constructor; [simpl; lia | constructor].
Qed.

Lemma Closed_start (allNotes : list Note) (centralPath : string)
    (maxDepth : Z) :
  Graph.Closed allNotes centralPath maxDepth
    (NavigationTools.mkTraversal [] [] [(centralPath, 0%Z)]) [].
Proof.
  constructor; simpl.
  - right. left. left. reflexivity.
  - intros n dn p [].
Qed.

(** C7: for [maxDepth >= 0] and [maxNotes >= 0] the traversal ends and
    returns at most [maxNotes] notes, no path twice.  It is breadth-first
    from the central note: the notes come in order of depth, the central
    note first at depth 0, each at a depth of at most [maxDepth] and
    reached from the central path by that many hops, a hop leading from
    a note to the note one of its links resolves to (by path, by path
    with the extension, or by name) or to one of its known backlinks.
    Nothing within reach is left out: a path that holds a note and is
    reached in at most [maxDepth] hops has its note in the result, at a
    depth no greater than the number of hops, unless the result holds
    [maxNotes] notes, and then none of them was taken deeper; so below
    [maxNotes] the result holds exactly the notes within [maxDepth]
    hops. *)
Theorem getConnectedNotes_bounded_breadth_first
    (centralPath : string) (allNotes : list Note) (maxDepth maxNotes : Z) :
  (0 <= maxDepth)%Z -> (0 <= maxNotes)%Z ->
  exists r ds,
    NavigationTools.getConnectedNotes centralPath allNotes maxDepth maxNotes
    = Some r
    /\ Graph.bounded allNotes centralPath maxDepth maxNotes r ds
    /\ (forall n, Graph.noteAt allNotes centralPath = Some n ->
                  (0 < maxNotes)%Z ->
                  exists more, r = n :: more)
    /\ Graph.complete allNotes centralPath maxDepth maxNotes r ds
    /\ ((Z.of_nat (List.length r) < maxNotes)%Z ->
        forall n,
          In n r
          <-> exists d,
                (0 <= d <= maxDepth)%Z
                /\ Graph.reach allNotes centralPath d (path n)
                /\ Graph.noteAt allNotes (path n) = Some n).
Proof.
  intros Hd Hn.
  unfold NavigationTools.getConnectedNotes.
  pose proof (Inv_start allNotes centralPath maxDepth maxNotes Hd Hn) as HI.
  pose proof (Closed_start allNotes centralPath maxDepth) as HC.
  destruct (run_complete allNotes centralPath maxDepth maxNotes
              (NavigationTools.turns allNotes) _ [] HI HC)
    as [r [ds [more [Hrun [Hb [_ Hc]]]]]].
  { rewrite measure_start. lia. }
  exists r, ds.
  split; [exact Hrun |].
  split; [exact Hb |].
  split; [| split; [exact Hc |]].
  2: { intros Hroom n. split.
       - intros Hin.
         destruct Hb as [_ [_ [Htaken _]]].
         assert (Hex : exists d,
                   Graph.taken allNotes centralPath maxDepth n d).
         { clear - Htaken Hin.
           induction Htaken as [| x y l l' Hxy _ IHl]; [destruct Hin |].
           destruct Hin as [<- | Hin]; [exists y; exact Hxy |].
           apply IHl. exact Hin. }
         destruct Hex as [d [Hself [Hrange Hreach]]].
         exists d. repeat split; try assumption; lia.
       - intros [d [Hrange [Hreach Hself]]].
         destruct (Hc d (path n) n Hreach ltac:(lia) Hself)
           as [[Hin _] | [Hfull _]]; [exact Hin | lia]. }
  intros n Hat Hpos.
  set (t0 := NavigationTools.mkTraversal [] [] [(centralPath, 0%Z)]) in *.
  destruct (NavigationTools.step allNotes maxDepth maxNotes t0)
    as [t1 |] eqn:Es.
  - destruct (step_keeps allNotes centralPath maxDepth maxNotes
                t0 t1 [] HI Es) as [ds1 [more1 [HI1 Hres1]]].
    pose proof (step_measure _ _ _ _ _ Es) as Hlt.
    unfold t0 in Hlt. rewrite measure_start in Hlt.
    unfold NavigationTools.turns in Hrun, Hlt.
    simpl in Hrun. rewrite Es in Hrun.
    destruct (run_bounded allNotes centralPath maxDepth maxNotes
                (list_sum (map NavigationTools.degree allNotes)) t1 ds1 HI1)
      as [r' [ds' [more' [Hrun' [_ Hr']]]]]; [lia |].
    rewrite Hrun' in Hrun.
    assert (Hsame : r' = r) by congruence.
    rewrite Hsame in Hr'.
    assert (Ht1 : NavigationTools.result t1 = [n]).
    { unfold NavigationTools.step in Es. subst t0. simpl in Es.
      assert (E1 : (0 <? maxNotes)%Z = true) by (apply Z.ltb_lt; lia).
      assert (E2 : (maxDepth <? 0)%Z = false) by (apply Z.ltb_ge; lia).
      rewrite E1, E2 in Es. simpl in Es.
      unfold Graph.noteAt in Hat. rewrite Hat in Es.
      inversion Es. reflexivity. }
    rewrite Ht1 in Hr'. exists more'. exact Hr'.
  - exfalso.
    unfold NavigationTools.step in Es. subst t0. simpl in Es.
    assert (E1 : (0 <? maxNotes)%Z = true) by (apply Z.ltb_lt; lia).
    assert (E2 : (maxDepth <? 0)%Z = false) by (apply Z.ltb_ge; lia).
    rewrite E1, E2 in Es. simpl in Es.
    unfold Graph.noteAt in Hat. rewrite Hat in Es.
    discriminate Es.
Qed.

Lemma getConnectedNotes_bounded_breadth_first_witness :
  exists r,
    NavigationTools.getConnectedNotes "a.md" Samples.chain 1 10 = Some r
    /\ (Z.of_nat (List.length r) <= 10)%Z
    /\ NoDup (map path r)
    /\ In (Samples.note "b.md" "b" "[[c]]" None ["c"]) r.
Proof.
  destruct (getConnectedNotes_bounded_breadth_first "a.md" Samples.chain
              1 10) as [r [ds [Hrun [[Hlen [Hnd _]] [_ [_ Hexact]]]]]];
    [lia | lia |].
  exists r. repeat split; try assumption.
  apply Hexact.
  - vm_compute in Hrun. inversion Hrun. simpl. lia.
  - exists 1%Z. split; [lia |]. split; [| reflexivity].
    apply (Graph.reach_next Samples.chain "a.md" 0 "a.md"
             (Samples.note "a.md" "a" "[[b]]" None ["b"]) "b.md").
    + apply Graph.reach_central.
    + reflexivity.
    + left. exists "b", (Samples.note "b.md" "b" "[[c]]" None ["c"]).
      split; [left; reflexivity |]. split; reflexivity.
Defined.
(** * Further properties of the service *)

(** ** The tags of a note *)

Lemma setAdd_In (x t : string) (xs : list string) :
  In t (setAdd x xs) <-> In t xs \/ t = x.
Proof.
  unfold setAdd.
  destruct (arrIncludes xs x) eqn:E.
  - apply arrIncludes_In in E. split; [tauto |].
    intros [H | ->]; assumption.
  - rewrite in_app_iff. simpl. split.
    + intros [H | [H | []]]; [left; exact H | right; symmetry; exact H].
    + intros [H | ->]; [left; exact H | right; left; reflexivity].
Qed.

Lemma setAdd_NoDup (x : string) (xs : list string) :
  NoDup xs -> NoDup (setAdd x xs).
Proof.
  intros Hnd. unfold setAdd.
  destruct (arrIncludes xs x) eqn:E; [exact Hnd |].
  apply NoDup_snoc; [exact Hnd |].
  intros Hin. apply arrIncludes_In in Hin. congruence.
Qed.

Lemma setAddAll_spec {A} (f : A -> string) (ms : list A)
    (acc : list string) :
  NoDup acc ->
  NoDup (fold_left (fun a m => setAdd (f m) a) ms acc)
  /\ forall t, In t (fold_left (fun a m => setAdd (f m) a) ms acc)
               <-> In t acc \/ In t (map f ms).
Proof.
  revert acc.
  induction ms as [| m ms IH]; intros acc Hnd; simpl.
  - split; [exact Hnd | intros t; tauto].
  - destruct (IH (setAdd (f m) acc) (setAdd_NoDup _ _ Hnd)) as [H1 H2].
    split; [exact H1 |].
    intros t. rewrite H2, setAdd_In. intuition congruence.
Qed.

Lemma addFrontmatterTags_spec (l : list Val) (acc r : list string) :
  addFrontmatterTags l acc = Ok r ->
  NoDup acc ->
  NoDup r /\ forall t, In t r <-> In t acc \/ In t (map cleanTag (strings l)).
Proof.
  revert acc.
  induction l as [| v l IH]; intros acc Hok Hnd;
    cbn [addFrontmatterTags] in Hok.
  - inversion Hok; subst. split; [exact Hnd | intros t; simpl; tauto].
  - destruct v; try discriminate Hok.
    fold (cleanTag s) in Hok.
    destruct (IH _ Hok (setAdd_NoDup _ _ Hnd)) as [H1 H2].
    split; [exact H1 |].
    intros t. rewrite H2, setAdd_In. cbn [strings map In].
    intuition congruence.
Qed.

(** X1: when [extractTags] returns, its result holds no tag twice, and a
    tag is in it exactly when it is a front-matter tag with its leading
    hash removed or an inline tag of the body. *)
Theorem extractTags_is_the_union
    (body : string) (v : option Val) (result : list string) :
  extractTags body v = Ok result ->
  NoDup result
  /\ forall t, In t result
               <-> In t (frontmatterTagsOf v) \/ In t (inlineTagsOf body).
Proof.
  unfold extractTags, inlineTagsOf.
  intros Hok.
  assert (Hfm : exists tags0,
            NoDup tags0
            /\ (forall t, In t tags0 <-> In t (frontmatterTagsOf v))
            /\ Ok (fold_left (fun acc m => setAdd (snd m) acc)
                     (matchAllTags body) tags0) = Ok result).
  { destruct v as [v |]; simpl in Hok.
    - destruct (truthy v) eqn:Et.
      + destruct v; try discriminate Hok.
        destruct (addFrontmatterTags l []) as [tags0 |] eqn:Ea;
          [| discriminate Hok].
        destruct (addFrontmatterTags_spec l [] tags0 Ea (NoDup_nil _))
          as [H1 H2].
        exists tags0. split; [exact H1 |]. split; [| exact Hok].
        intros t. rewrite H2. simpl. tauto.
      + exists []. split; [constructor |]. split; [| exact Hok].
        intros t. destruct v; simpl in *; try tauto; discriminate Et.
    - exists []. split; [constructor |]. split; [| exact Hok].
      intros t. simpl. tauto. }
  destruct Hfm as [tags0 [Hnd [Hin Heq]]].
  inversion Heq as [Hres].
  destruct (setAddAll_spec snd (matchAllTags body) tags0 Hnd) as [H1 H2].
  split; [exact H1 |].
  intros t. rewrite H2, Hin. reflexivity.
Qed.

Lemma extractTags_is_the_union_witness :
  NoDup ["a"; "b"]
  /\ forall t, In t ["a"; "b"]
               <-> In t (frontmatterTagsOf (Some (VArr [VStr "#a"])))
                   \/ In t (inlineTagsOf "#a and #b").
Proof.
  apply (extractTags_is_the_union "#a and #b" (Some (VArr [VStr "#a"]))).
  reflexivity.
Defined.

(** ** The targets of extracted links *)

Lemma span_allChars (cls : ascii -> bool) (s : string) :
  allChars cls (fst (span cls s)) = true.
Proof.
  induction s as [| c s IH]; simpl; [reflexivity |].
  destruct (cls c) eqn:E; [| reflexivity].
  destruct (span cls s) as [a b]. simpl in *.
  rewrite E. exact IH.
Qed.

Lemma matchAllFrom_Forall {M} (matchAt : string -> option M)
    (len : M -> nat) (P : M -> Prop) :
  (forall s m, matchAt s = Some m -> P m) ->
  forall skip s, Forall P (matchAllFrom matchAt len skip s).
Proof.
  intros HP skip s. revert skip.
  induction s as [| c s IH]; intros skip; simpl; [constructor |].
  destruct skip as [| k]; [| apply IH].
  destruct (matchAt (String c s)) as [m |] eqn:E; [| apply IH].
  constructor; [eapply HP; exact E | apply IH].
Qed.

Lemma wikiMatchAt_target (s : string) (m : WikiMatch) :
  wikiMatchAt s = Some m ->
  wm1 m <> "" /\ allChars wikiTargetChar (wm1 m) = true.
Proof.
  unfold wikiMatchAt.
  destruct (optBang s) as [| c1 s1]; try discriminate.
  destruct c1 as [[] [] [] [] [] [] [] []]; cbv iota; try discriminate.
  destruct s1 as [| c2 s2]; try discriminate.
  destruct c2 as [[] [] [] [] [] [] [] []]; cbv iota; try discriminate.
  pose proof (span_allChars wikiTargetChar s2) as Hall.
  destruct (span wikiTargetChar s2) as [tgt s3]. simpl in Hall.
  cbv beta iota.
  destruct tgt as [| t0 tgt]; [discriminate |].
  destruct (optGroup "#" wikiHeadingChar s3) as [h s4].
  destruct (optGroup "^" wikiBlockChar s4) as [b s5].
  destruct (optGroup "|" wikiDisplayChar s5) as [d s6].
  cbv beta iota.
  destruct s6 as [| c3 s7]; try discriminate.
  destruct c3 as [[] [] [] [] [] [] [] []]; cbv iota; try discriminate.
  destruct s7 as [| c4 rest]; try discriminate.
  destruct c4 as [[] [] [] [] [] [] [] []]; cbv iota; try discriminate.
  intros H. inversion H; subst. simpl.
  split; [discriminate | exact Hall].
Qed.

Lemma mdMatchAt_target (s : string) (m : MdMatch) :
  mdMatchAt s = Some m ->
  mm2 m <> "" /\ allChars mdTargetChar (mm2 m) = true
  /\ allChars mdTextChar (mm1 m) = true.
Proof.
  unfold mdMatchAt.
  destruct (optBang s) as [| c1 s1]; try discriminate.
  destruct c1 as [[] [] [] [] [] [] [] []]; cbv iota; try discriminate.
  pose proof (span_allChars mdTextChar s1) as Htext.
  destruct (span mdTextChar s1) as [text s2]. simpl in Htext.
  cbv beta iota.
  destruct s2 as [| c2 s2']; try discriminate.
  destruct c2 as [[] [] [] [] [] [] [] []]; cbv iota; try discriminate.
  destruct s2' as [| c3 s3]; try discriminate.
  destruct c3 as [[] [] [] [] [] [] [] []]; cbv iota; try discriminate.
  pose proof (span_allChars mdTargetChar s3) as Htgt.
  destruct (span mdTargetChar s3) as [tgt s4]. simpl in Htgt.
  cbv beta iota.
  destruct tgt as [| t0 tgt]; [discriminate |].
  destruct s4 as [| c4 rest]; try discriminate.
  destruct c4 as [[] [] [] [] [] [] [] []]; cbv iota; try discriminate.
  intros H. inversion H; subst. simpl.
  split; [discriminate | split; assumption].
Qed.

(** X2: no extracted link has an empty target.  The target of a wiki
    link holds none of the characters closing bracket, bar, hash and
    caret; the target of a markdown link holds no closing parenthesis and
    its display text no closing bracket. *)
Theorem extractLinks_targets_well_formed (content : string) :
  Forall (fun l => target l <> ""
                   /\ allChars wikiTargetChar (target l) = true)
         (wikiLinks content)
  /\ Forall (fun l => target l <> ""
                      /\ allChars mdTargetChar (target l) = true
                      /\ exists text, displayText l = Some text
                                      /\ allChars mdTextChar text = true)
            (mdLinks content)
  /\ Forall (fun l => target l <> "") (extractLinks content).
Proof.
  assert (Hw : Forall (fun l => target l <> ""
                                /\ allChars wikiTargetChar (target l) = true)
                      (wikiLinks content)).
  { unfold wikiLinks. apply Forall_map.
    apply matchAllFrom_Forall. intros s m Hm.
    apply wikiMatchAt_target in Hm. exact Hm. }
  assert (Hm : Forall (fun l => target l <> ""
                                /\ allChars mdTargetChar (target l) = true
                                /\ exists text,
                                     displayText l = Some text
                                     /\ allChars mdTextChar text = true)
                      (mdLinks content)).
  { unfold mdLinks. apply Forall_map.
    apply Forall_forall. intros m Hin.
    apply filter_In in Hin. destruct Hin as [Hin _].
    pose proof (matchAllFrom_Forall mdMatchAt
                  (fun m => String.length (mm0 m))
                  (fun m => mm2 m <> ""
                            /\ allChars mdTargetChar (mm2 m) = true
                            /\ allChars mdTextChar (mm1 m) = true)
                  mdMatchAt_target 0 content) as Hall.
    rewrite Forall_forall in Hall.
    destruct (Hall m Hin) as [H1 [H2 H3]].
    simpl. split; [exact H1 |]. split; [exact H2 |].
    exists (mm1 m). split; [reflexivity | exact H3]. }
  split; [exact Hw |]. split; [exact Hm |].
  unfold extractLinks. apply Forall_app. split.
  - eapply Forall_impl; [| exact Hw]. simpl. tauto.
  - eapply Forall_impl; [| exact Hm]. simpl. tauto.
Qed.

(** ** Headings and block anchors *)

Lemma headingMatch_level (line m1 m2 : string) :
  headingMatch line = Some (m1, m2) ->
  (1 <= Z.of_nat (String.length m1) <= 6)%Z.
Proof.
  unfold headingMatch.
  destruct (span (fun c => isChar c "#") line) as [hashes r].
  destruct ((1 <=? String.length hashes)%nat
            && (String.length hashes <=? 6)%nat) eqn:E; [| discriminate].
  apply andb_true_iff in E. destruct E as [E1 E2].
  apply Nat.leb_le in E1. apply Nat.leb_le in E2.
  destruct r as [| c r']; [discriminate |].
  destruct (isSpace c); [| discriminate].
  destruct (spacesThenText r') as [g |]; [| discriminate].
  simpl. intros H. inversion H; subst. lia.
Qed.

Lemma headingsFrom_spec (i : Z) (lines : list string) :
  Forall (fun h => (1 <= h_level h <= 6)%Z
                   /\ (i < h_line h <= i + Z.of_nat (List.length lines))%Z)
         (headingsFrom i lines)
  /\ StronglySorted Z.lt (map h_line (headingsFrom i lines)).
Proof.
  revert i.
  induction lines as [| line rest IH]; intros i; simpl.
  - split; constructor.
  - destruct (IH (i + 1)%Z) as [Hall Hsorted].
    assert (Hall' :
      Forall (fun h => (1 <= h_level h <= 6)%Z
                       /\ (i < h_line h
                           <= i + Z.pos (Pos.of_succ_nat (List.length rest)))%Z)
             (headingsFrom (i + 1) rest)).
    { eapply Forall_impl; [| exact Hall]. simpl. intros h [H1 H2].
      split; [exact H1 | lia]. }
    destruct (headingMatch line) as [[m1 m2] |] eqn:E.
    + split.
      * constructor; [| exact Hall'].
        simpl. split; [eapply headingMatch_level; exact E | lia].
      * simpl. constructor; [exact Hsorted |].
        apply Forall_map.
        eapply Forall_impl; [| exact Hall]. simpl. intros h [_ H2]. lia.
    + split; [exact Hall' | exact Hsorted].
Qed.

(** X3: every heading [extractHeadings] returns has a level from 1 to 6
    and a line number from 1 to the number of lines of the body, and the
    headings come in strictly increasing order of line. *)
Theorem extractHeadings_levels_and_lines (content : string) :
  Forall (fun h => (1 <= h_level h <= 6)%Z
                   /\ (1 <= h_line h
                       <= Z.of_nat (List.length (splitLines content)))%Z)
         (extractHeadings content)
  /\ StronglySorted Z.lt (map h_line (extractHeadings content)).
Proof.
  unfold extractHeadings.
  destruct (headingsFrom_spec 0 (splitLines content)) as [Hall Hsorted].
  split; [| exact Hsorted].
  eapply Forall_impl; [| exact Hall]. simpl. intros h [H1 H2].
  split; [exact H1 | lia].
Qed.

Lemma lookup_app {V} (k : string) (a b : list (string * V)) :
  lookup k (a ++ b)
  = match lookup k a with
    | Some v => Some v
    | None => lookup k b
    end.
Proof.
  induction a as [| [k' v'] a IH]; simpl; [reflexivity |].
  destruct (k' =? k); [reflexivity | exact IH].
Qed.

Lemma assign_keys {V} (k : string) (v : V) (o : list (string * V)) :
  map fst (assign k v o)
  = if arrIncludes (map fst o) k then map fst o else map fst o ++ [k].
Proof.
  induction o as [| [k' v'] o IH]; simpl; [reflexivity |].
  unfold arrIncludes in *. simpl.
  rewrite (String.eqb_sym k k').
  destruct (k' =? k) eqn:E; simpl.
  - apply String.eqb_eq in E. subst k'. reflexivity.
  - rewrite IH.
    destruct (existsb (String.eqb k) (map fst o)); reflexivity.
Qed.

Lemma assign_NoDup {V} (k : string) (v : V) (o : list (string * V)) :
  NoDup (map fst o) -> NoDup (map fst (assign k v o)).
Proof.
  intros Hnd. rewrite assign_keys.
  destruct (arrIncludes (map fst o) k) eqn:E; [exact Hnd |].
  apply NoDup_snoc; [exact Hnd |].
  intros Hin. apply arrIncludes_In in Hin. congruence.
Qed.

Lemma assign_In {V} (k : string) (v : V) (o : list (string * V))
    (e : string * V) :
  In e (assign k v o) -> e = (k, v) \/ In e o.
Proof.
  induction o as [| [k' v'] o IH]; simpl.
  - intros [H | []]. left. symmetry. exact H.
  - destruct (k' =? k); simpl.
    + intros [H | H]; [left; symmetry; exact H | right; right; exact H].
    + intros [H | H]; [right; left; exact H |].
      destruct (IH H) as [H' | H']; [left; exact H' | right; right; exact H'].
Qed.

Lemma blocksFrom_spec (i : Z) (lines : list string)
    (acc : list (string * Z)) :
  (NoDup (map fst acc) -> NoDup (map fst (blocksFrom i lines acc)))
  /\ (forall id,
        lookup id (blocksFrom i lines acc)
        = match lookup id (rev (anchorsFrom i lines)) with
          | Some k => Some k
          | None => lookup id acc
          end)
  /\ (forall e, In e (blocksFrom i lines acc) ->
        In e acc \/ (i < snd e <= i + Z.of_nat (List.length lines))%Z).
Proof.
  revert i acc.
  induction lines as [| line rest IH]; intros i acc.
  - simpl. repeat split; try tauto.
  - cbn [blocksFrom anchorsFrom].
    destruct (blockMatch line) as [id0 |] eqn:E.
    + destruct (IH (i + 1)%Z (assign id0 (i + 1)%Z acc)) as [H1 [H2 H3]].
      split; [| split].
      * intros Hnd. apply H1. apply assign_NoDup. exact Hnd.
      * intros id. rewrite H2. cbn [rev]. rewrite lookup_app.
        destruct (lookup id (rev (anchorsFrom (i + 1) rest)));
          [reflexivity |].
        simpl.
        destruct (id0 =? id) eqn:Eid.
        -- apply String.eqb_eq in Eid. subst id0.
           apply lookup_assign_same.
        -- apply lookup_assign_other.
           intros ->. rewrite String.eqb_refl in Eid. discriminate.
      * intros e He. destruct (H3 e He) as [Hin | Hr].
        -- apply assign_In in Hin. destruct Hin as [-> | Hin];
             [right; simpl; lia | left; exact Hin].
        -- right. simpl List.length. lia.
    + destruct (IH (i + 1)%Z acc) as [H1 [H2 H3]].
      split; [exact H1 | split; [exact H2 |]].
      intros e He. destruct (H3 e He) as [Hin | Hr];
        [left; exact Hin | right; simpl List.length; lia].
Qed.

(** X4: [extractBlocks] returns each block id once; the line it gives an
    id is the last line that anchors the id; and every line it gives lies
    between 1 and the number of lines of the body. *)
Theorem extractBlocks_last_anchor_wins (content : string) :
  NoDup (map fst (extractBlocks content))
  /\ (forall id,
        lookup id (extractBlocks content)
        = lookup id (rev (anchorsFrom 0 (splitLines content))))
  /\ Forall (fun e => (1 <= snd e
                       <= Z.of_nat (List.length (splitLines content)))%Z)
            (extractBlocks content).
Proof.
  unfold extractBlocks.
  destruct (blocksFrom_spec 0 (splitLines content) []) as [H1 [H2 H3]].
  split; [apply H1; constructor |].
  split.
  - intros id. rewrite H2.
    destruct (lookup id (rev (anchorsFrom 0 (splitLines content))));
      reflexivity.
  - apply Forall_forall. intros e He.
    destruct (H3 e He) as [[] | Hr]. lia.
Qed.

(** ** Finding a note by title *)

Lemma find_None_iff {A} (p : A -> bool) (l : list A) :
  find p l = None <-> forall x, In x l -> p x = false.
Proof.
  unfold find. split.
  - intros H x Hx. exact (find_none p l H x Hx).
  - intros H. induction l as [| a l IH]; simpl; [reflexivity |].
    rewrite (H a (or_introl eq_refl)).
    apply IH. intros x Hx. apply H. right. exact Hx.
Qed.

Lemma find_Some_holds {A} (p : A -> bool) (l : list A) (x : A) :
  find p l = Some x -> In x l /\ p x = true.
Proof.
  unfold find. apply find_some.
Qed.

Lemma someR_Throw {A} (p : A -> Result bool) (xs : list A) (e : Error) :
  someR p xs = Throw e -> exists x, In x xs /\ p x = Throw e.
Proof.
  induction xs as [| x rest IH]; simpl; intros H; [discriminate |].
  destruct (p x) as [[|] | e'] eqn:E; simpl in H; try discriminate.
  - destruct (IH H) as [y [Hy Hpy]]. exists y. split; [right |]; assumption.
  - exists x. split; [left; reflexivity | congruence].
Qed.

Lemma findR_Throw {A} (p : A -> Result bool) (xs : list A) (e : Error) :
  findR p xs = Throw e -> exists x, In x xs /\ p x = Throw e.
Proof.
  induction xs as [| x rest IH]; simpl; intros H; [discriminate |].
  destruct (p x) as [[|] | e'] eqn:E; simpl in H; try discriminate.
  - destruct (IH H) as [y [Hy Hpy]]. exists y. split; [right |]; assumption.
  - exists x. split; [left; reflexivity | congruence].
Qed.

(** The string title a note has, when it has one. *)
Lemma titleIs_Ok (lower : string) (n : Note) (b : bool) :
  VaultService.titleIs lower n = Ok b ->
  b = match field "title" n with
      | Some (VStr t) => toLowerCase t =? lower
      | _ => false
      end.
Proof.
  unfold VaultService.titleIs.
  destruct (field "title" n) as [[| c | z | s | l] |]; simpl; intros H;
    inversion H; reflexivity.
Qed.

Lemma titleIs_readable (lower : string) (n : Note) :
  titleReadable n = true -> isOk (VaultService.titleIs lower n) = true.
Proof.
  unfold titleReadable, VaultService.titleIs.
  destruct (field "title" n) as [[| c | z | s | l] |]; simpl;
    intros H; try discriminate; reflexivity.
Qed.

Lemma aliasIs_Ok (lower : string) (l : list Val) (b : bool) :
  someR (VaultService.aliasIs lower) l = Ok b ->
  b = true -> existsb (fun a => toLowerCase a =? lower) (strings l) = true.
Proof.
  intros H ->. apply someR_true in H. destruct H as [v [Hin Hv]].
  unfold VaultService.aliasIs in Hv.
  destruct v; simpl in Hv; try discriminate.
  assert (E : (toLowerCase s =? lower) = true) by congruence.
  apply existsb_exists. exists s. split; [| exact E].
  clear - Hin. induction l as [| v l IH]; [destruct Hin |].
  destruct Hin as [-> | Hin]; simpl.
  - left. reflexivity.
  - destruct v; try (apply IH; exact Hin). right. apply IH. exact Hin.
Qed.

Lemma aliasIs_false (lower : string) (l : list Val) :
  someR (VaultService.aliasIs lower) l = Ok false ->
  existsb (fun a => toLowerCase a =? lower) (strings l) = false.
Proof.
  induction l as [| v l IH]; simpl; intros H; [reflexivity |].
  unfold VaultService.aliasIs at 1 in H.
  destruct v; simpl in H; try discriminate.
  simpl. destruct (toLowerCase s =? lower); simpl in *; [discriminate |].
  apply IH. exact H.
Qed.

Lemma aliasNames_Ok (lower : string) (n : Note) (b : bool) :
  VaultService.aliasNames lower n = Ok b ->
  b = existsb (fun a => toLowerCase a =? lower) (aliasesOf n).
Proof.
  unfold VaultService.aliasNames, aliasesOf, VaultService.someAlias.
  destruct (field "aliases" n) as [[| c | z | s | l] |]; simpl; intros H;
    try discriminate; try (inversion H; reflexivity).
  destruct b.
  - symmetry. apply (aliasIs_Ok lower l true H). reflexivity.
  - symmetry. apply aliasIs_false. exact H.
Qed.

Lemma aliasNames_readable (lower : string) (n : Note) :
  aliasesReadable n = true -> isOk (VaultService.aliasNames lower n) = true.
Proof.
  unfold aliasesReadable, VaultService.aliasNames, VaultService.someAlias.
  destruct (field "aliases" n) as [[| c | z | s | l] |]; simpl;
    intros H; try discriminate; try reflexivity.
  rewrite (aliasIs_strings lower l H). reflexivity.
Qed.

Lemma findNoteByTitle_Some (notes : list Note) (title : string) (n : Note) :
  VaultService.findNoteByTitle notes title = Ok (Some n) ->
  In n notes /\ titleNames title n = true.
Proof.
  unfold VaultService.findNoteByTitle, titleNames.
  destruct (find _ notes) as [n1 |] eqn:E1.
  { intros H. inversion H; subst. apply find_Some_holds in E1.
    destruct E1 as [Hin Hp]. split; [exact Hin |]. rewrite Hp. reflexivity. }
  destruct (findR (VaultService.titleIs (toLowerCase title)) notes)
    as [[n2 |] | e2] eqn:E2; simpl; [| | discriminate].
  { intros H. inversion H; subst. apply findR_Some in E2.
    destruct E2 as [Hin Hp]. split; [exact Hin |].
    apply titleIs_Ok in Hp. rewrite <- Hp.
    rewrite orb_true_r. reflexivity. }
  destruct (findR (VaultService.aliasNames (toLowerCase title)) notes)
    as [[n3 |] | e3] eqn:E3; simpl; [| | discriminate].
  { intros H. inversion H; subst. apply findR_Some in E3.
    destruct E3 as [Hin Hp]. split; [exact Hin |].
    apply aliasNames_Ok in Hp. rewrite <- Hp.
    rewrite orb_true_r. reflexivity. }
  intros H. inversion H as [H']. apply find_Some_holds in H'.
  destruct H' as [Hin Hp]. split; [exact Hin |]. rewrite Hp.
  apply orb_true_r.
Qed.

Lemma findNoteByTitle_None (notes : list Note) (title : string) :
  VaultService.findNoteByTitle notes title = Ok None ->
  forall n, In n notes -> titleNames title n = false.
Proof.
  unfold VaultService.findNoteByTitle, titleNames.
  destruct (find _ notes) as [n1 |] eqn:E1; [discriminate |].
  destruct (findR (VaultService.titleIs (toLowerCase title)) notes)
    as [[n2 |] | e2] eqn:E2; simpl; try discriminate.
  destruct (findR (VaultService.aliasNames (toLowerCase title)) notes)
    as [[n3 |] | e3] eqn:E3; simpl; try discriminate.
  intros E4 n Hn. inversion E4 as [E4'].
  rewrite find_None_iff in E1, E4'.
  rewrite findR_None, Forall_forall in E2, E3.
  rewrite (E1 n Hn), (E4' n Hn).
  rewrite <- (titleIs_Ok _ _ _ (E2 n Hn)).
  rewrite <- (aliasNames_Ok _ _ _ (E3 n Hn)). reflexivity.
Qed.

Lemma findR_isOk {A} (p : A -> Result bool) (xs : list A) :
  (forall x, In x xs -> isOk (p x) = true) -> isOk (findR p xs) = true.
Proof.
  induction xs as [| x rest IH]; intros H; simpl; [reflexivity |].
  pose proof (H x (or_introl eq_refl)) as Hx.
  destruct (p x) as [[|] | e]; simpl; try discriminate; [reflexivity |].
  apply IH. intros y Hy. apply H. right. exact Hy.
Qed.

Lemma findNoteByTitle_readable (notes : list Note) (title : string) :
  Forall (fun n => titleReadable n && aliasesReadable n = true) notes ->
  isOk (VaultService.findNoteByTitle notes title) = true.
Proof.
  intros Hall. rewrite Forall_forall in Hall.
  unfold VaultService.findNoteByTitle.
  destruct (find _ notes); [reflexivity |].
  assert (H2 : isOk (findR (VaultService.titleIs (toLowerCase title)) notes)
               = true).
  { apply findR_isOk. intros n Hn. apply titleIs_readable.
    specialize (Hall n Hn). apply andb_true_iff in Hall. tauto. }
  destruct (findR (VaultService.titleIs (toLowerCase title)) notes)
    as [[n2 |] | e2]; simpl; try discriminate; [reflexivity |].
  assert (H3 : isOk (findR (VaultService.aliasNames (toLowerCase title))
                       notes) = true).
  { apply findR_isOk. intros n Hn. apply aliasNames_readable.
    specialize (Hall n Hn). apply andb_true_iff in Hall. tauto. }
  destruct (findR (VaultService.aliasNames (toLowerCase title)) notes)
    as [[n3 |] | e3]; simpl; try discriminate; reflexivity.
Qed.

(** What [findNoteByTitle] throws is a [TypeError], at a note whose title
    or aliases cannot be read. *)
Lemma findNoteByTitle_Throw (notes : list Note) (title : string)
    (e : Error) :
  VaultService.findNoteByTitle notes title = Throw e ->
  (exists msg, e = TypeError msg)
  /\ exists n, In n notes /\ titleReadable n && aliasesReadable n = false.
Proof.
  unfold VaultService.findNoteByTitle.
  destruct (find _ notes); [discriminate |].
  destruct (findR (VaultService.titleIs (toLowerCase title)) notes)
    as [[n2 |] | e2] eqn:E2; simpl; try discriminate.
  - destruct (findR (VaultService.aliasNames (toLowerCase title)) notes)
      as [[n3 |] | e3] eqn:E3; simpl; try discriminate.
    intros H. inversion H; subst e3.
    apply findR_Throw in E3. destruct E3 as [n [Hn Hthrow]].
    split.
    + unfold VaultService.aliasNames, VaultService.someAlias in Hthrow.
      destruct (field "aliases" n) as [[| c | z | s | l] |];
        simpl in Hthrow; try discriminate;
        try (inversion Hthrow; eauto; fail).
      apply someR_Throw in Hthrow. destruct Hthrow as [v [_ Hv]].
      unfold VaultService.aliasIs in Hv.
      destruct v; simpl in Hv; inversion Hv; eauto.
    + exists n. split; [exact Hn |].
      destruct (aliasesReadable n) eqn:Er; [| apply andb_false_r].
      pose proof (aliasNames_readable (toLowerCase title) n Er) as Hok.
      rewrite Hthrow in Hok. discriminate.
  - intros H. inversion H; subst e2.
    apply findR_Throw in E2. destruct E2 as [n [Hn Hthrow]].
    split.
    + unfold VaultService.titleIs in Hthrow.
      destruct (field "title" n) as [[| c | z | s | l] |];
        simpl in Hthrow; inversion Hthrow; eauto.
    + exists n. split; [exact Hn |].
      destruct (titleReadable n) eqn:Er; [| reflexivity].
      pose proof (titleIs_readable (toLowerCase title) n Er) as Hok.
      rewrite Hthrow in Hok. discriminate.
Qed.

(** X5: a note [findNoteByTitle] returns is a note of the scan that the
    title names at one of the four tiers (name, front-matter title, alias,
    part of the name, all case-insensitive); when it returns nothing the
    title names no note at any tier; when some note's name equals the
    title case-insensitively, the note returned has such a name, whatever
    the front matter of the notes holds and whatever longer names they
    have; over notes whose title and aliases are readable (absent, null,
    or a string and an array of strings) it returns, and returns nothing
    exactly when the title names no note; and what it throws is a
    [TypeError], at a scan with a note whose title or aliases are not
    readable. *)
Theorem findNoteByTitle_resolution (notes : list Note) (title : string) :
  (forall n, VaultService.findNoteByTitle notes title = Ok (Some n) ->
             In n notes /\ titleNames title n = true)
  /\ (VaultService.findNoteByTitle notes title = Ok None ->
      forall n, In n notes -> titleNames title n = false)
  /\ ((exists m, In m notes
                 /\ toLowerCase (name m) = toLowerCase title) ->
      exists n, VaultService.findNoteByTitle notes title = Ok (Some n)
                /\ toLowerCase (name n) = toLowerCase title)
  /\ (Forall (fun n => titleReadable n && aliasesReadable n = true) notes ->
      isOk (VaultService.findNoteByTitle notes title) = true
      /\ (VaultService.findNoteByTitle notes title = Ok None <->
          forall n, In n notes -> titleNames title n = false))
  /\ (forall e, VaultService.findNoteByTitle notes title = Throw e ->
        (exists msg, e = TypeError msg)
        /\ exists n, In n notes
                     /\ titleReadable n && aliasesReadable n = false).
Proof.
  split; [apply findNoteByTitle_Some |].
  split; [apply findNoteByTitle_None |].
  split; [| split; [| apply findNoteByTitle_Throw]].
  - intros [m [Hm Heq]].
    unfold VaultService.findNoteByTitle.
    destruct (find (fun n => toLowerCase (name n) =? toLowerCase title)
                notes) as [n1 |] eqn:E1.
    + exists n1. split; [reflexivity |].
      apply find_Some_holds in E1. destruct E1 as [_ Hp].
      apply String.eqb_eq. exact Hp.
    + exfalso. rewrite find_None_iff in E1.
      specialize (E1 m Hm). simpl in E1.
      rewrite Heq, String.eqb_refl in E1. discriminate.
  - intros Hall.
    pose proof (findNoteByTitle_readable notes title Hall) as Hok.
    split; [exact Hok |].
    split; [apply findNoteByTitle_None |].
    intros Hnone.
    destruct (VaultService.findNoteByTitle notes title) as [[n |] | e]
      eqn:E; [| reflexivity | discriminate Hok].
    apply findNoteByTitle_Some in E. destruct E as [Hin Hp].
    rewrite (Hnone n Hin) in Hp. discriminate.
Qed.

Lemma findNoteByTitle_resolution_witness :
  (exists n, VaultService.findNoteByTitle Samples.vaultAB "b" = Ok (Some n)
             /\ toLowerCase (name n) = toLowerCase "b")
  /\ isOk (VaultService.findNoteByTitle Samples.vaultAB "zebra") = true.
Proof.
  destruct (findNoteByTitle_resolution Samples.vaultAB "b") as [_ [_ [H _]]].
  destruct (findNoteByTitle_resolution Samples.vaultAB "zebra")
    as [_ [_ [_ [Hread _]]]].
  split.
  - apply H. exists Samples.noteB.
    split; [simpl; right; left; reflexivity | reflexivity].
  - apply Hread. repeat constructor.
Defined.

(** ** Suggestions *)

Lemma append_empty_r (s : string) : (s ++ "")%string = s.
Proof.
  induction s as [| c s IH]; simpl; [reflexivity | rewrite IH; reflexivity].
Qed.

Lemma slice_from_start {A} (limit : Z) (xs : list A) :
  (0 <= limit)%Z -> slice 0 limit xs = firstn (Z.to_nat limit) xs.
Proof.
  intros H. rewrite slice_window by lia.
  simpl. rewrite Z.sub_0_r. reflexivity.
Qed.

Lemma slice_incl {A} (a b : Z) (xs : list A) (x : A) :
  In x (slice a b xs) -> In x xs.
Proof.
  unfold slice. intros H.
  assert (Hfirst : forall n (l : list A), In x (firstn n l) -> In x l).
  { intros n l Hx. rewrite <- (firstn_skipn n l).
    apply in_or_app. left. exact Hx. }
  assert (Hskip : forall n (l : list A), In x (skipn n l) -> In x l).
  { intros n l Hx. rewrite <- (firstn_skipn n l).
    apply in_or_app. right. exact Hx. }
  apply Hfirst in H. apply Hskip in H. exact H.
Qed.

Lemma getSuggestions_none (notes rescan : list Note) (title : string)
    (limit : Z) :
  VaultService.findNoteByTitle notes title = Ok None ->
  map name rescan = map name notes ->
  VaultLookup.getSuggestions rescan title limit = [].
Proof.
  intros Hnone Hnames.
  pose proof (findNoteByTitle_None notes title Hnone) as Hall.
  assert (Hmiss : Forall (fun nm => includes (toLowerCase nm)
                                             (toLowerCase title) = false)
                         (map name rescan)).
  { rewrite Hnames. apply Forall_map. apply Forall_forall. intros n Hn.
    specialize (Hall n Hn). unfold titleNames in Hall.
    apply orb_false_iff in Hall. tauto. }
  unfold VaultLookup.getSuggestions.
  assert (Hf : filter (fun n => includes (toLowerCase (name n))
                                         (toLowerCase title)) rescan = []).
  { clear - Hmiss. induction rescan as [| n rescan IH]; [reflexivity |].
    simpl in *. apply Forall_cons_iff in Hmiss. destruct Hmiss as [Hn Hrest].
    rewrite Hn. apply IH. exact Hrest. }
  rewrite Hf.
  destruct (slice 0 limit (@nil Note)) as [| x xs] eqn:Es; [reflexivity |].
  assert (Hin : In x (slice 0 limit (@nil Note))).
  { rewrite Es. left. reflexivity. }
  apply slice_incl in Hin. destruct Hin.
Qed.

(** X6: when the second scan of [getNote], the one made for the
    suggestions, finds the names the first one found, the error thrown
    for a title is never followed by suggestions: it is the [TypeError]
    of [findNoteByTitle], or else [findNoteByTitle] found no note, so no
    name contains the title, which is what a suggestion needs, and the
    message is the bare one. *)
Theorem getNote_title_error_has_no_suggestions
    (notes rescan : list Note) (readNote : string -> Result Note)
    (title : string) (e : Error) :
  title <> "" ->
  map name rescan = map name notes ->
  NoteAccess.getNote notes rescan readNote
    (NoteAccess.mkGetNoteInput None (Some title)) = Throw e ->
  ((exists msg, e = TypeError msg)
   /\ VaultService.findNoteByTitle notes title = Throw e)
  \/ (VaultService.findNoteByTitle notes title = Ok None
      /\ VaultLookup.getSuggestions rescan title 5 = []
      /\ e = Err ("Note not found: '" ++ title ++ "'.")).
Proof.
  intros Hne Hnames. unfold NoteAccess.getNote. simpl.
  destruct title as [| c title]; [contradiction Hne; reflexivity |].
  simpl.
  destruct (VaultService.findNoteByTitle notes (String c title))
    as [[n |] | e'] eqn:E; simpl; [discriminate | |].
  - rewrite (getSuggestions_none notes rescan (String c title) 5 E Hnames).
    intros H. inversion H; subst.
    right. split; [reflexivity |]. split; [reflexivity |].
    unfold NoteAccess.titleNotFound.
    rewrite append_empty_r. reflexivity.
  - intros H. inversion H; subst e'.
    left. split; [| reflexivity].
    apply (findNoteByTitle_Throw notes (String c title) e E).
Qed.

Lemma getNote_title_error_has_no_suggestions_witness :
  ((exists msg, Err "Note not found: 'zebra'." = TypeError msg)
   /\ VaultService.findNoteByTitle Samples.vaultAB "zebra"
      = Throw (Err "Note not found: 'zebra'."))
  \/ (VaultService.findNoteByTitle Samples.vaultAB "zebra" = Ok None
      /\ VaultLookup.getSuggestions Samples.vaultAB "zebra" 5 = []
      /\ Err "Note not found: 'zebra'."
         = Err ("Note not found: '" ++ "zebra" ++ "'.")).
Proof.
  apply (getNote_title_error_has_no_suggestions Samples.vaultAB
           Samples.vaultAB (Samples.readIn Samples.vaultAB) "zebra").
  - discriminate.
  - reflexivity.
  - reflexivity.
Defined.

(** The condition on the second scan is needed: a note that only the
    second scan finds is suggested. *)
Lemma getNote_rescan_suggests :
  NoteAccess.getNote [Samples.noteA] Samples.vaultAB
    (Samples.readIn Samples.vaultAB)
    (NoteAccess.mkGetNoteInput None (Some "b"))
  = Throw (Err "Note not found: 'b'. Did you mean: B?").
Proof.
  vm_compute. reflexivity.
Qed.

(** X7: for a limit of 0 or more [getSuggestions] returns at most
    [limit] names, each the name of a note of the scan whose name contains
    the title case-insensitively. *)
Theorem getSuggestions_bounded
    (notes : list Note) (title : string) (limit : Z) :
  (0 <= limit)%Z ->
  (Z.of_nat (List.length (VaultLookup.getSuggestions notes title limit))
   <= limit)%Z
  /\ Forall (fun s => exists n,
                 In n notes /\ name n = s
                 /\ includes (toLowerCase (name n)) (toLowerCase title)
                    = true)
            (VaultLookup.getSuggestions notes title limit).
Proof.
  intros Hl. unfold VaultLookup.getSuggestions.
  split.
  - rewrite length_map, slice_from_start by exact Hl.
    rewrite length_firstn. lia.
  - apply Forall_map. apply Forall_forall. intros n Hn.
    apply slice_incl in Hn. apply filter_In in Hn.
    destruct Hn as [Hin Hp].
    exists n. split; [exact Hin |]. split; [reflexivity | exact Hp].
Qed.

Lemma getSuggestions_bounded_witness :
  (Z.of_nat (List.length (VaultLookup.getSuggestions Samples.chain "" 2))
   <= 2)%Z.
Proof.
  apply (getSuggestions_bounded Samples.chain "" 2). lia.
Defined.

(** ** Creating, updating and deleting notes on disk *)


Lemma readNote_state (matter : Matter) (vaultPath relativePath : string)
    (st : Fs.State) :
  snd (VaultFiles.readNote matter vaultPath relativePath st) = st.
Proof.
  unfold VaultFiles.readNote, Fs.rethrow, Fs.seq, Fs.readFile, Fs.stat.
  destruct (lookup (VaultFiles.getAbsolutePath vaultPath relativePath)
              (Fs.files st)) as [f |] eqn:E; simpl; try rewrite E; simpl;
    [| reflexivity].
  destruct (parseNote matter vaultPath _ (Fs.f_text f) _); reflexivity.
Qed.

Lemma readNote_missing (matter : Matter) (vaultPath relativePath : string)
    (st : Fs.State) :
  Fs.exists_ (VaultFiles.getAbsolutePath vaultPath relativePath) st = false ->
  VaultFiles.readNote matter vaultPath relativePath st
  = (Throw (VaultFiles.notFound relativePath), st).
Proof.
  unfold Fs.exists_, VaultFiles.readNote, Fs.rethrow, Fs.seq, Fs.readFile.
  destruct (lookup (VaultFiles.getAbsolutePath vaultPath relativePath)
              (Fs.files st)); [discriminate | reflexivity].
Qed.




(** X9: [updateNote] on a path where no file is throws the not-found
    error and writes nothing. *)
Theorem updateNote_missing_writes_nothing
    (matter : Matter) (stringify : string -> NoteFrontmatter -> string)
    (vaultPath relativePath : string) (body : option string)
    (fm : option NoteFrontmatter) (append : bool) (st : Fs.State) :
  Fs.exists_ (VaultFiles.getAbsolutePath vaultPath relativePath) st = false ->
  VaultFiles.updateNote matter stringify vaultPath relativePath body fm
    append st
  = (Throw (VaultFiles.notFound relativePath), st).
Proof.
  intros Hno. unfold VaultFiles.updateNote, Fs.seq.
  rewrite (readNote_missing matter vaultPath relativePath st Hno).
  reflexivity.
Qed.

Lemma updateNote_missing_writes_nothing_witness :
  VaultFiles.updateNote Samples.plainMatter Samples.plainStringify
    "/vault" "b.md" (Some "text") None false Samples.oneFile
  = (Throw (VaultFiles.notFound "b.md"), Samples.oneFile).
Proof.
  apply (updateNote_missing_writes_nothing Samples.plainMatter
           Samples.plainStringify "/vault" "b.md").
  reflexivity.
Defined.



(** X11: when [createNote] has returned the note it created,
    [deleteNote] of the same path succeeds, and a following [readNote]
    throws the not-found error. *)
Theorem createNote_deleteNote_readNote
    (matter : Matter) (stringify : string -> NoteFrontmatter -> string)
    (vaultPath relativePath body : string) (fm : option NoteFrontmatter)
    (st st1 : Fs.State) (created : Note) :
  NoteAccess.createNote matter stringify vaultPath relativePath body fm st
  = (Ok created, st1) ->
  exists st2,
    VaultFiles.deleteNote vaultPath relativePath st1 = (Ok tt, st2)
    /\ VaultFiles.readNote matter vaultPath relativePath st2
       = (Throw (VaultFiles.notFound relativePath), st2).
Proof.
  intros Hcreated.
  set (p := VaultFiles.getAbsolutePath vaultPath relativePath).
  assert (Hfile : exists f, lookup p (Fs.files st1) = Some f).
  { assert (Hst : st1 = snd (NoteAccess.createNote matter stringify
                               vaultPath relativePath body fm st))
      by (rewrite Hcreated; reflexivity).
    rewrite Hst. unfold NoteAccess.createNote, Fs.seq, Fs.writeFile.
    fold p. simpl. rewrite readNote_state. simpl.
    eexists. apply lookup_assign_same. }
  destruct Hfile as [f Hf].
  unfold VaultFiles.deleteNote, Fs.rethrow, Fs.unlink. fold p.
  rewrite Hf. simpl.
  eexists. split; [reflexivity |].
  apply readNote_missing. fold p.
  unfold Fs.exists_. simpl. rewrite lookup_remove_same. reflexivity.
Qed.

Lemma createNote_deleteNote_readNote_witness :
  exists st2,
    VaultFiles.deleteNote "/vault" "new.md"
      (snd (NoteAccess.createNote Samples.plainMatter Samples.plainStringify
              "/vault" "new.md" "Some content" None Samples.oneFile))
    = (Ok tt, st2)
    /\ VaultFiles.readNote Samples.plainMatter "/vault" "new.md" st2
       = (Throw (VaultFiles.notFound "new.md"), st2).
Proof.
  eapply (createNote_deleteNote_readNote Samples.plainMatter
            Samples.plainStringify "/vault" "new.md" "Some content" None
            Samples.oneFile).
  vm_compute. reflexivity.
Defined.

(** ** Counting tags and links *)

Section Counting.

(** One more use of a key, as both counting loops record it. *)
Let bump (m : list (string * Z)) (x : string) : list (string * Z) :=
  assign x (match lookup x m with
            | Some k => (k + 1)%Z
            | None => 1%Z
            end) m.

Lemma occurrences_cons (t x : string) (xs : list string) :
  occurrences t (x :: xs)
  = ((if String.eqb t x then 1 else 0) + occurrences t xs)%Z.
Proof.
  unfold occurrences. cbn [filter].
  destruct (t =? x); cbn [List.length]; lia.
Qed.

Lemma occurrences_nonneg (t : string) (xs : list string) :
  (0 <= occurrences t xs)%Z.
Proof.
  unfold occurrences. lia.
Qed.

Lemma occurrences_zero (t : string) (xs : list string) :
  occurrences t xs = 0%Z <-> arrIncludes xs t = false.
Proof.
  induction xs as [| x xs IH].
  - split; reflexivity.
  - rewrite occurrences_cons. unfold arrIncludes in *. cbn [existsb].
    pose proof (occurrences_nonneg t xs).
    destruct (t =? x); cbn [orb].
    + split; [lia | discriminate].
    + rewrite <- IH. split; lia.
Qed.

Lemma bumpAll_lookup (xs : list string) (m : list (string * Z))
    (t : string) :
  lookup t (fold_left bump xs m)
  = match lookup t m with
    | Some k => Some (k + occurrences t xs)%Z
    | None => if (occurrences t xs =? 0)%Z then None
              else Some (occurrences t xs)
    end.
Proof.
  revert m.
  induction xs as [| x xs IH]; intros m.
  - simpl. unfold occurrences. simpl.
    destruct (lookup t m) as [k |]; [f_equal; lia | reflexivity].
  - cbn [fold_left]. rewrite IH. rewrite occurrences_cons.
    pose proof (occurrences_nonneg t xs) as Hpos.
    unfold bump.
    destruct (t =? x) eqn:E.
    + apply String.eqb_eq in E. subst x.
      rewrite lookup_assign_same.
      destruct (lookup t m) as [k |].
      * f_equal. lia.
      * destruct (1 + occurrences t xs =? 0)%Z eqn:E0;
          [apply Z.eqb_eq in E0; lia | reflexivity].
    + rewrite lookup_assign_other
        by (intros ->; rewrite String.eqb_refl in E; discriminate).
      destruct (lookup t m) as [k |]; [f_equal; lia | reflexivity].
Qed.

Lemma bumpAll_NoDup (xs : list string) (m : list (string * Z)) :
  NoDup (map fst m) -> NoDup (map fst (fold_left bump xs m)).
Proof.
  revert m.
  induction xs as [| x xs IH]; intros m Hnd; simpl; [exact Hnd |].
  apply IH. unfold bump. apply assign_NoDup. exact Hnd.
Qed.

Lemma fold_left_flat_map {A} (f : A -> list string) (l : list A)
    (m : list (string * Z)) :
  fold_left (fun acc a => fold_left bump (f a) acc) l m
  = fold_left bump (flat_map f l) m.
Proof.
  revert m.
  induction l as [| a l IH]; intros m; simpl; [reflexivity |].
  rewrite IH, fold_left_app. reflexivity.
Qed.

Lemma tagCounts_flat (notes : list Note) :
  VaultLookup.tagCounts notes = fold_left bump (allTags notes) [].
Proof.
  unfold VaultLookup.tagCounts, allTags.
  apply (fold_left_flat_map tags).
Qed.

Lemma linkCounts_flat (notes : list Note) :
  VaultService.linkCounts notes = fold_left bump (allLinks notes) [].
Proof.
  unfold VaultService.linkCounts, allLinks.
  apply (fold_left_flat_map links).
Qed.

End Counting.

Lemma lookup_In_NoDup {V} (o : list (string * V)) (k : string) (v : V) :
  NoDup (map fst o) -> (In (k, v) o <-> lookup k o = Some v).
Proof.
  induction o as [| [k' v'] o IH]; intros Hnd; simpl.
  - split; [tauto | discriminate].
  - simpl in Hnd. apply NoDup_cons_iff in Hnd. destruct Hnd as [Hk' Hnd].
    destruct (k' =? k) eqn:E.
    + apply String.eqb_eq in E. subst k'.
      split.
      * intros [H | H]; [congruence |].
        exfalso. apply Hk'. apply in_map_iff. exists (k, v). tauto.
      * intros H. left. congruence.
    + rewrite <- (IH Hnd). split; [| tauto].
      intros [H | H]; [| exact H].
      inversion H; subst. rewrite String.eqb_refl in E. discriminate.
Qed.

(** X12: [getAllTags] lists each tag once, with the number of times the
    notes of the scan carry it, no tag with a count of zero, in descending
    order of count. *)
Theorem getAllTags_counts (notes : list Note) :
  NoDup (map VaultLookup.ti_tag (VaultLookup.getAllTags notes))
  /\ descendingBy VaultLookup.ti_count (VaultLookup.getAllTags notes)
  /\ forall t k,
       In (VaultLookup.mkTagInfo t k) (VaultLookup.getAllTags notes)
       <-> (k = occurrences t (allTags notes) /\ (0 < k)%Z).
Proof.
  unfold VaultLookup.getAllTags.
  set (counts := VaultLookup.tagCounts notes).
  set (infos := map (fun e => VaultLookup.mkTagInfo (fst e) (snd e)) counts).
  pose proof (sort_Permutation VaultLookup.ti_count infos) as Hperm.
  assert (Hnd : NoDup (map fst counts)).
  { subst counts. rewrite tagCounts_flat.
    apply bumpAll_NoDup. constructor. }
  split; [| split].
  - apply (Permutation_NoDup
             (l := map VaultLookup.ti_tag infos)).
    + apply Permutation_map. apply Permutation_sym. exact Hperm.
    + subst infos. rewrite map_map. simpl. exact Hnd.
  - apply (sort_descending VaultLookup.ti_count).
  - intros t k.
    transitivity (In (VaultLookup.mkTagInfo t k) infos).
    { split; apply Permutation_in;
        [exact Hperm | apply Permutation_sym; exact Hperm]. }
    transitivity (In (t, k) counts).
    { subst infos. rewrite in_map_iff. split.
      - intros [[t' k'] [Heq Hin]]. simpl in Heq.
        inversion Heq; subst. exact Hin.
      - intros Hin. exists (t, k). split; [reflexivity | exact Hin]. }
    rewrite (lookup_In_NoDup counts t k Hnd).
    subst counts. rewrite tagCounts_flat, bumpAll_lookup. simpl.
    pose proof (occurrences_nonneg t (allTags notes)) as Hpos.
    destruct (occurrences t (allTags notes) =? 0)%Z eqn:E.
    + apply Z.eqb_eq in E. split; [discriminate | lia].
    + apply Z.eqb_neq in E. split.
      * intros H. inversion H; subst. split; [reflexivity | lia].
      * intros [-> _]. reflexivity.
Qed.

(** X13: the orphan count of [getVaultStats] is the number of notes whose
    name and whose path both differ from every raw link of every note; it
    lies between 0 and the number of notes. *)
Theorem orphanNotes_counts_unlinked_names (notes : list Note) :
  VaultService.orphanNotes notes
  = Z.of_nat
      (List.length
         (filter (fun n => negb (arrIncludes (allLinks notes) (name n))
                           && negb (arrIncludes (allLinks notes) (path n)))
                 notes))
  /\ (0 <= VaultService.orphanNotes notes
      <= Z.of_nat (List.length notes))%Z.
Proof.
  assert (Hhas : forall k,
            VaultService.has (VaultService.linkCounts notes) k
            = arrIncludes (allLinks notes) k).
  { intros k. unfold VaultService.has.
    rewrite linkCounts_flat, bumpAll_lookup. simpl.
    destruct (occurrences k (allLinks notes) =? 0)%Z eqn:E.
    - apply Z.eqb_eq in E. apply occurrences_zero in E.
      rewrite E. reflexivity.
    - destruct (arrIncludes (allLinks notes) k) eqn:Ea; [reflexivity |].
      apply occurrences_zero in Ea. apply Z.eqb_neq in E. contradiction. }
  unfold VaultService.orphanNotes.
  split.
  - f_equal. f_equal. apply filter_ext. intros n.
    rewrite !Hhas. reflexivity.
  - split; [lia |].
    apply inj_le. apply filter_length_le.
Qed.

(** ** Strings: prefixes and suffixes of a concatenation *)

Lemma append_assoc (a b c : string) :
  ((a ++ b) ++ c)%string = (a ++ (b ++ c))%string.
Proof.
  induction a as [| x a IH]; simpl; [reflexivity | rewrite IH; reflexivity].
Qed.

Lemma length_append (a b : string) :
  String.length (a ++ b) = (String.length a + String.length b)%nat.
Proof.
  induction a as [| x a IH]; simpl; [reflexivity | rewrite IH; reflexivity].
Qed.

Lemma prefix_append (a b : string) : String.prefix a (a ++ b) = true.
Proof.
  induction a as [| x a IH]; simpl; [destruct b; reflexivity |].
  destruct (ascii_dec x x) as [_ | Hne]; [exact IH | contradiction Hne].
  reflexivity.
Qed.

Lemma prefix_of_append (a b s : string) :
  String.prefix (a ++ b) s = true -> String.prefix a s = true.
Proof.
  revert s.
  induction a as [| x a IH]; intros s H.
  - destruct s; reflexivity.
  - destruct s as [| y s]; [discriminate |].
    simpl in H |- *.
    destruct (ascii_dec x y); [apply IH; exact H | discriminate].
Qed.

Lemma drop_append (a b : string) : drop (String.length a) (a ++ b) = b.
Proof.
  induction a as [| x a IH]; simpl; [reflexivity | exact IH].
Qed.

Lemma take_append (a b : string) : take (String.length a) (a ++ b) = a.
Proof.
  induction a as [| x a IH]; simpl; [reflexivity | rewrite IH; reflexivity].
Qed.

Lemma endsWith_append (a b : string) : endsWith (a ++ b) b = true.
Proof.
  unfold endsWith. rewrite length_append.
  apply andb_true_iff. split.
  - apply Nat.leb_le. lia.
  - replace (String.length a + String.length b - String.length b)%nat
      with (String.length a) by lia.
    rewrite drop_append. apply String.eqb_refl.
Qed.

Lemma dropLast_append (a b : string) :
  dropLast (String.length b) (a ++ b) = a.
Proof.
  unfold dropLast. rewrite length_append.
  replace (String.length a + String.length b - String.length b)%nat
    with (String.length a) by lia.
  apply take_append.
Qed.

(** ** Searching by tag and by front-matter field *)

Lemma searchTag_nested (p q : string) :
  SearchTools.searchTag (p ++ "/" ++ q)
  = (SearchTools.searchTag p ++ "/" ++ q)%string.
Proof.
  unfold SearchTools.searchTag, startsWith.
  destruct p as [| c p]; [reflexivity |].
  cbn [String.prefix append].
  destruct (ascii_dec "#" c); [destruct p |]; reflexivity.
Qed.

Lemma tagAnswers_nested (p q tag : string) :
  SearchTools.tagAnswers (p ++ "/" ++ q) tag = true ->
  SearchTools.tagAnswers p tag = true.
Proof.
  unfold SearchTools.tagAnswers, startsWith.
  intros H. apply orb_true_iff in H. apply orb_true_iff. right.
  destruct H as [H | H].
  - apply String.eqb_eq in H. subst tag.
    rewrite <- append_assoc. apply prefix_append.
  - rewrite <- append_assoc in H.
    apply prefix_of_append in H.
    apply prefix_of_append in H. exact H.
Qed.

(** X14: tag search is nested: every note found for the tag [p/q] is
    found for the tag [p]; and a leading hash on the query changes
    nothing. *)
Theorem searchTags_nested (allNotes : list Note) (p q : string) :
  incl (SearchTools.searchTags allNotes (p ++ "/" ++ q))
       (SearchTools.searchTags allNotes p)
  /\ (startsWith p "#" = false ->
      SearchTools.searchTags allNotes ("#" ++ p)
      = SearchTools.searchTags allNotes p).
Proof.
  split.
  - intros n Hn. unfold SearchTools.searchTags in *.
    apply filter_In in Hn. destruct Hn as [Hin Hex].
    apply filter_In. split; [exact Hin |].
    rewrite searchTag_nested in Hex.
    apply existsb_exists in Hex. destruct Hex as [tag [Htag Hans]].
    apply existsb_exists. exists tag. split; [exact Htag |].
    eapply tagAnswers_nested. exact Hans.
  - intros Hp. unfold SearchTools.searchTags.
    assert (E1 : SearchTools.searchTag ("#" ++ p) = p).
    { clear Hp. destruct p; reflexivity. }
    assert (E2 : SearchTools.searchTag p = p).
    { unfold SearchTools.searchTag. rewrite Hp. reflexivity. }
    rewrite E1, E2. reflexivity.
Qed.

Lemma searchTags_nested_witness :
  SearchTools.searchTags Samples.tagged ("#" ++ "project")
  = SearchTools.searchTags Samples.tagged "project".
Proof.
  apply (searchTags_nested Samples.tagged "project" "alpha").
  reflexivity.
Defined.

Section FrontmatterSearch.

Variable inheritedText : string -> string.

(** X15: with no value given, [searchFrontmatter] returns, in scan
    order, the notes that have front matter in which the field is a key,
    whatever its value; for a field name that every object inherits, such
    as [constructor], it returns every note that has front matter. *)
Theorem searchFrontmatter_presence
    (allNotes : list Note) (field : string) (n : Note) :
  In n (SearchTools.searchFrontmatter inheritedText allNotes field None)
  <-> In n allNotes
      /\ exists fm, frontmatter n = Some fm
                    /\ (VaultService.has fm field = true
                        \/ arrIncludes SearchTools.inheritedKeys field
                           = true).
Proof.
  unfold SearchTools.searchFrontmatter. rewrite filter_In.
  unfold SearchTools.fieldMatches, SearchTools.readField, VaultService.has.
  split.
  - intros [Hin Hm]. split; [exact Hin |].
    destruct (frontmatter n) as [fm |]; [| discriminate].
    exists fm. split; [reflexivity |].
    destruct (lookup field fm); [left; reflexivity |].
    destruct (arrIncludes SearchTools.inheritedKeys field);
      [right; reflexivity | discriminate].
  - intros [Hin [fm [-> H]]]. split; [exact Hin |].
    destruct (lookup field fm); [reflexivity |].
    destruct H as [H | H]; [discriminate | rewrite H; reflexivity].
Qed.

(** X16: with a value given, a note is returned when its field holds
    that string, or an array with that string among its elements; a note
    with front matter that lacks the field, the field being no inherited
    name, is returned exactly when the value is the word [undefined]. *)
Theorem searchFrontmatter_value
    (allNotes : list Note) (field value : string) (n : Note)
    (fm : NoteFrontmatter) :
  In n allNotes ->
  frontmatter n = Some fm ->
  (lookup field fm = Some (VStr value) ->
   In n (SearchTools.searchFrontmatter inheritedText allNotes field
           (Some value)))
  /\ (forall l, lookup field fm = Some (VArr l) -> In (VStr value) l ->
      In n (SearchTools.searchFrontmatter inheritedText allNotes field
              (Some value)))
  /\ (lookup field fm = None ->
      arrIncludes SearchTools.inheritedKeys field = false ->
      (In n (SearchTools.searchFrontmatter inheritedText allNotes field
               (Some value))
       <-> value = "undefined")).
Proof.
  intros Hin Hfm.
  unfold SearchTools.searchFrontmatter, SearchTools.fieldMatches,
    SearchTools.readField.
  split; [| split].
  - intros Hl. apply filter_In. split; [exact Hin |].
    rewrite Hfm, Hl. simpl. apply String.eqb_refl.
  - intros l Hl Hv. apply filter_In. split; [exact Hin |].
    rewrite Hfm, Hl. apply existsb_exists.
    exists (VStr value). split; [exact Hv |]. simpl. apply String.eqb_refl.
  - intros Hl Hinh. rewrite filter_In, Hfm, Hl, Hinh.
    split.
    + intros [_ H]. apply String.eqb_eq in H. symmetry. exact H.
    + intros ->. split; [exact Hin | reflexivity].
Qed.

End FrontmatterSearch.

Lemma searchFrontmatter_value_witness :
  In (mkNote "d.md" "d" "" (Some [("keywords", VArr [VStr "x"; VStr "y"])])
        ["project"] [] [] [] None 0 0)
     (SearchTools.searchFrontmatter (fun _ => "")
        Samples.tagged "keywords" (Some "y")).
Proof.
  destruct (searchFrontmatter_value (fun _ => "") Samples.tagged
              "keywords" "y"
              (mkNote "d.md" "d" ""
                 (Some [("keywords", VArr [VStr "x"; VStr "y"])])
                 ["project"] [] [] [] None 0 0)
              [("keywords", VArr [VStr "x"; VStr "y"])])
    as [_ [H _]].
  - simpl. right. left. reflexivity.
  - reflexivity.
  - apply (H [VStr "x"; VStr "y"]).
    + reflexivity.
    + simpl. right. left. reflexivity.
Defined.

(** ** Paths of new notes, and links with the extension *)

(** X17: the path the note tools create a note at always ends in [.md]:
    a path that already does is kept as it is, and any other path gets
    [.md] appended. *)
Theorem notePath_ends_in_md (p : string) :
  endsWith (NoteAccess.notePath p) ".md" = true
  /\ NoteAccess.notePath (NoteAccess.notePath p) = NoteAccess.notePath p
  /\ (endsWith p ".md" = true -> NoteAccess.notePath p = p)
  /\ (endsWith p ".md" = false ->
      NoteAccess.notePath p = (p ++ ".md")%string).
Proof.
  assert (H : endsWith (NoteAccess.notePath p) ".md" = true).
  { unfold NoteAccess.notePath.
    destruct (endsWith p ".md") eqn:E; [exact E |].
    apply endsWith_append. }
  split; [exact H |].
  split; [| split].
  - unfold NoteAccess.notePath at 1. rewrite H. reflexivity.
  - intros E. unfold NoteAccess.notePath. rewrite E. reflexivity.
  - intros E. unfold NoteAccess.notePath. rewrite E. reflexivity.
Qed.

(** X18: a link written with the [.md] extension matches the same notes
    as the link written without it. *)
Theorem linksMatch_ignores_md_extension (link : string) (n : Note) :
  endsWith link ".md" = false ->
  VaultService.linksMatch (link ++ ".md") n = VaultService.linksMatch link n.
Proof.
  intros Hno.
  unfold VaultService.linksMatch, VaultService.stripMd.
  rewrite endsWith_append, Hno.
  pose proof (dropLast_append link ".md") as Hd.
  change (String.length ".md") with 3 in Hd.
  rewrite Hd. reflexivity.
Qed.

Lemma linksMatch_ignores_md_extension_witness :
  VaultService.linksMatch ("B" ++ ".md") Samples.noteB
  = VaultService.linksMatch "B" Samples.noteB.
Proof.
  apply (linksMatch_ignores_md_extension "B" Samples.noteB).
  reflexivity.
Defined.

Lemma searchFrontmatter_presence_witness :
  In (mkNote "c.md" "c" "" (Some [("status", VStr "draft")])
        ["project/alpha"] [] [] [] None 0 0)
     (SearchTools.searchFrontmatter (fun _ => "") Samples.tagged
        "constructor" None).
Proof.
  apply (searchFrontmatter_presence (fun _ => "") Samples.tagged
           "constructor").
  split.
  - simpl. left. reflexivity.
  - exists [("status", VStr "draft")].
    split; [reflexivity | right; reflexivity].
Defined.

Lemma notePath_ends_in_md_witness :
  NoteAccess.notePath "folder/note.md" = "folder/note.md"
  /\ NoteAccess.notePath "folder/note" = "folder/note.md".
Proof.
  split.
  - apply (notePath_ends_in_md "folder/note.md"). reflexivity.
  - apply (notePath_ends_in_md "folder/note"). reflexivity.
Defined.

(** ** Graph data *)

Lemma linkedNote_In (notes : list Note) (link : string) (t : Note) :
  NavigationTools.linkedNote notes link = Some t -> In t notes.
Proof.
  unfold NavigationTools.linkedNote. intros H.
  apply find_Some_holds in H. tauto.
Qed.

Lemma edgesOf_spec (notes : list Note) (n : Note) :
  Forall (fun e => GraphView.ge_source e = path n
                   /\ In (GraphView.ge_target e) (map path notes))
         (GraphView.edgesOf notes n)
  /\ (List.length (GraphView.edgesOf notes n) <= List.length (links n))%nat.
Proof.
  unfold GraphView.edgesOf.
  induction (links n) as [| link ls IH]; simpl.
  - split; [constructor | lia].
  - destruct IH as [IH1 IH2].
    destruct (NavigationTools.linkedNote notes link) as [t |] eqn:E; simpl.
    + split; [| lia].
      constructor; [| exact IH1].
      simpl. split; [reflexivity |].
      apply in_map. eapply linkedNote_In. exact E.
    + split; [exact IH1 | lia].
Qed.

(** X19: the graph data has one node per note, identified by the note's
    path, and every edge runs from the path of a note of the graph to the
    path of a note of the graph; there are at most as many edges as the
    notes have links. *)
Theorem buildGraphData_edges_join_nodes (notes : list Note) :
  let nodes := fst (GraphView.buildGraphData notes) in
  let edges := snd (GraphView.buildGraphData notes) in
  map GraphView.gn_id nodes = map path notes
  /\ Forall (fun e => In (GraphView.ge_source e) (map GraphView.gn_id nodes)
                      /\ In (GraphView.ge_target e)
                            (map GraphView.gn_id nodes))
            edges
  /\ (List.length edges
      <= list_sum (map (fun n => List.length (links n)) notes))%nat.
Proof.
  simpl.
  assert (Hids : map GraphView.gn_id (map GraphView.nodeOf notes)
                 = map path notes).
  { rewrite map_map. reflexivity. }
  split; [exact Hids |].
  rewrite Hids.
  assert (Hgen : forall sub,
            incl sub notes ->
            Forall (fun e => In (GraphView.ge_source e) (map path notes)
                             /\ In (GraphView.ge_target e) (map path notes))
                   (flat_map (GraphView.edgesOf notes) sub)
            /\ (List.length (flat_map (GraphView.edgesOf notes) sub)
                <= list_sum (map (fun n => List.length (links n)) sub))%nat).
  { induction sub as [| n sub IH]; intros Hsub; simpl.
    - split; [constructor | lia].
    - destruct (IH (fun x Hx => Hsub x (or_intror Hx))) as [IH1 IH2].
      destruct (edgesOf_spec notes n) as [He1 He2].
      split.
      + apply Forall_app. split; [| exact IH1].
        eapply Forall_impl; [| exact He1].
        simpl. intros e [Hs Ht]. split; [| exact Ht].
        rewrite Hs. apply in_map. apply Hsub. left. reflexivity.
      + rewrite length_app. lia. }
  apply Hgen. apply incl_refl.
Qed.

Lemma sorted_app_cross {A} (R : A -> A -> Prop) (a b : list A) :
  StronglySorted R (a ++ b) -> Forall (fun x => Forall (R x) b) a.
Proof.
  induction a as [| x a IH]; intros H; [constructor |].
  simpl in H. apply StronglySorted_inv in H. destruct H as [Hs Hall].
  constructor; [| apply IH; exact Hs].
  apply Forall_app in Hall. tauto.
Qed.

(** X20: with no central note, the graph view takes the [maxNotes] most
    connected notes: for [maxNotes >= 0] it keeps [min maxNotes n] of the
    [n] notes, in descending order of connections, and no note left out
    has more connections than a note kept. *)
Theorem mostConnected_takes_the_top (allNotes : list Note) (maxNotes : Z) :
  (0 <= maxNotes)%Z ->
  let kept := GraphView.mostConnected allNotes maxNotes in
  Z.of_nat (List.length kept)
  = Z.min maxNotes (Z.of_nat (List.length allNotes))
  /\ descendingBy GraphView.connections kept
  /\ exists rest,
       Permutation (kept ++ rest) allNotes
       /\ Forall (fun x =>
                    Forall (fun y => (GraphView.connections y
                                      <= GraphView.connections x)%Z) rest)
                 kept.
Proof.
  intros Hm kept. subst kept. unfold GraphView.mostConnected.
  set (sorted := VaultService.sort GraphView.byConnectionsDesc allNotes).
  assert (Hperm : Permutation sorted allNotes)
    by apply (sort_Permutation GraphView.connections).
  assert (Hdesc : descendingBy GraphView.connections sorted)
    by apply (sort_descending GraphView.connections).
  rewrite slice_from_start by exact Hm.
  split; [| split].
  - rewrite length_firstn.
    rewrite (Permutation_length Hperm). lia.
  - unfold descendingBy in *.
    rewrite <- (firstn_skipn (Z.to_nat maxNotes) sorted) in Hdesc.
    clear - Hdesc.
    induction (firstn (Z.to_nat maxNotes) sorted) as [| x a IH];
      [constructor |].
    simpl in Hdesc. apply StronglySorted_inv in Hdesc.
    destruct Hdesc as [Hs Hall].
    constructor; [apply IH; exact Hs |].
    apply Forall_app in Hall. tauto.
  - exists (skipn (Z.to_nat maxNotes) sorted).
    rewrite firstn_skipn. split; [exact Hperm |].
    unfold descendingBy in Hdesc.
    rewrite <- (firstn_skipn (Z.to_nat maxNotes) sorted) in Hdesc.
    apply sorted_app_cross in Hdesc. exact Hdesc.
Qed.

Lemma mostConnected_takes_the_top_witness :
  Z.of_nat (List.length (GraphView.mostConnected Samples.chain 2))
  = Z.min 2 (Z.of_nat (List.length Samples.chain)).
Proof.
  apply (mostConnected_takes_the_top Samples.chain 2). lia.
Defined.

(** ** Backlinks *)

Lemma filter_keeps_distinct_keys {K V} (keep : V -> bool) (key : V -> K)
    (xs : list V) (Hnd : NoDup (map key xs)) :
  NoDup (map key (filter keep xs)).
Proof.
  induction xs as [| x xs IH]; simpl; [constructor |].
  simpl in Hnd. apply NoDup_cons_iff in Hnd. destruct Hnd as [Hx Hnd].
  destruct (keep x); simpl; [| apply IH; exact Hnd].
  constructor; [| apply IH; exact Hnd].
  intros Hin. apply Hx.
  apply in_map_iff in Hin. destruct Hin as [y [Hy Hin]].
  apply filter_In in Hin. destruct Hin as [Hin _].
  apply in_map_iff. exists y. split; assumption.
Qed.

Lemma hasLink_holds (targetNote note : Note) :
  isOk (VaultService.hasLink targetNote note) = true ->
  (holds (VaultService.hasLink targetNote note) = true
   <-> exists link, In link (links note)
                    /\ VaultService.linksMatch link targetNote = Ok true).
Proof.
  unfold VaultService.hasLink. intros Hok.
  destruct (someR _ (links note)) as [[|] | e] eqn:E; try discriminate;
    simpl.
  - split; [intros _; apply someR_true in E; exact E | reflexivity].
  - split; [discriminate |].
    intros [link [Hin Hm]].
    apply someR_false in E. rewrite Forall_forall in E.
    rewrite (E link Hin) in Hm. discriminate.
Qed.

Lemma backlinksTo_Ok (notes : list Note) (targetPath : string)
    (targetNote : Note) (backlinks : list string) :
  VaultService.backlinksTo notes targetPath targetNote = Ok backlinks ->
  backlinks
  = map path
      (filter (fun note =>
                 negb (path note =? targetPath)
                 && holds (VaultService.hasLink targetNote note))
              notes)
  /\ (forall note, In note notes -> path note <> targetPath ->
                   isOk (VaultService.hasLink targetNote note) = true).
Proof.
  revert backlinks.
  induction notes as [| note rest IH]; simpl; intros backlinks H.
  - inversion H. split; [reflexivity | intros note []].
  - destruct (path note =? targetPath) eqn:Ep; simpl.
    + destruct (IH backlinks H) as [Hl Hok].
      split; [exact Hl |].
      intros m [<- | Hm] Hne; [| apply Hok; assumption].
      apply String.eqb_eq in Ep. contradiction.
    + destruct (VaultService.hasLink targetNote note) as [linked | e]
        eqn:El; simpl in H; [| discriminate].
      destruct (VaultService.backlinksTo rest targetPath targetNote)
        as [bl | e]; simpl in H; [| discriminate].
      destruct (IH bl eq_refl) as [Hl Hok].
      split.
      * inversion H; subst backlinks. simpl.
        destruct linked; simpl; rewrite <- Hl; reflexivity.
      * intros m [<- | Hm] Hne; [rewrite El; reflexivity |].
        apply Hok; assumption.
Qed.

Lemma backlinksTo_Throw (notes : list Note) (targetPath : string)
    (targetNote : Note) (e : Error) :
  VaultService.backlinksTo notes targetPath targetNote = Throw e ->
  exists note link,
    In note notes /\ In link (links note)
    /\ VaultService.linksMatch link targetNote = Throw e.
Proof.
  induction notes as [| note rest IH]; simpl; intros H; [discriminate |].
  assert (Hrest : VaultService.backlinksTo rest targetPath targetNote
                  = Throw e ->
                  exists note0 link,
                    In note0 (note :: rest) /\ In link (links note0)
                    /\ VaultService.linksMatch link targetNote = Throw e).
  { intros H'. destruct (IH H') as [m [link [Hm Hl]]].
    exists m, link. split; [right; exact Hm | exact Hl]. }
  destruct (path note =? targetPath); [apply Hrest; exact H |].
  destruct (VaultService.hasLink targetNote note) as [linked | e']
    eqn:El; simpl in H.
  - destruct (VaultService.backlinksTo rest targetPath targetNote)
      as [bl | e'']; simpl in H; [discriminate |].
    apply Hrest. exact H.
  - inversion H; subst e'.
    unfold VaultService.hasLink in El. apply someR_Throw in El.
    destruct El as [link [Hin Hthrow]].
    exists note, link. split; [left; reflexivity |]. split; assumption.
Qed.

(** X21: [getBacklinks] fails as the read of the target fails.  When the
    target is read and the call returns, it lists exactly the paths,
    other than the target path, of the notes with a link that matches the
    target, in scan order: never the target path itself, and no path
    twice when the scan has no path twice.  It returns whenever the
    aliases of the target are readable (absent, null or an array of
    strings), and what it throws otherwise is what [linksMatch] throws
    for a link of a note of the scan. *)
Theorem getBacklinks_lists_linking_notes
    (notes : list Note) (readNote : string -> Result Note)
    (targetPath : string) :
  (forall e, readNote targetPath = Throw e ->
             VaultService.getBacklinks notes readNote targetPath = Throw e)
  /\ (forall targetNote, readNote targetPath = Ok targetNote ->
      (forall backlinks,
         VaultService.getBacklinks notes readNote targetPath = Ok backlinks ->
         backlinks
         = map path
             (filter (fun note =>
                        negb (path note =? targetPath)
                        && holds (VaultService.hasLink targetNote note))
                     notes)
         /\ ~ In targetPath backlinks
         /\ (forall p, In p backlinks <->
               exists n, In n notes /\ path n = p /\ p <> targetPath
                         /\ exists link, In link (links n)
                              /\ VaultService.linksMatch link targetNote
                                 = Ok true)
         /\ (NoDup (map path notes) -> NoDup backlinks))
      /\ (aliasesReadable targetNote = true ->
          isOk (VaultService.getBacklinks notes readNote targetPath) = true)
      /\ (forall e,
            VaultService.getBacklinks notes readNote targetPath = Throw e ->
            exists note link,
              In note notes /\ In link (links note)
              /\ VaultService.linksMatch link targetNote = Throw e)).
Proof.
  unfold VaultService.getBacklinks.
  split.
  - intros e ->. reflexivity.
  - intros targetNote ->. simpl.
    split; [| split].
    + intros backlinks Hok.
      destruct (backlinksTo_Ok _ _ _ _ Hok) as [Hlist Hall].
      assert (Hchar : forall p,
        In p backlinks
        <-> exists n, In n notes /\ path n = p /\ p <> targetPath
                      /\ exists link, In link (links n)
                           /\ VaultService.linksMatch link targetNote
                              = Ok true).
      { intros p. rewrite Hlist, in_map_iff. split.
        - intros [n [Hp Hn]]. apply filter_In in Hn.
          destruct Hn as [Hin Hc].
          apply andb_true_iff in Hc. destruct Hc as [Hne Hex].
          apply negb_true_iff in Hne. apply String.eqb_neq in Hne.
          apply hasLink_holds in Hex; [| apply Hall; assumption].
          exists n. subst p. repeat split; assumption.
        - intros [n [Hin [Hp [Hne Hex]]]].
          exists n. split; [exact Hp |].
          apply filter_In. split; [exact Hin |].
          apply andb_true_iff. split.
          + apply negb_true_iff. apply String.eqb_neq. congruence.
          + apply hasLink_holds; [apply Hall; congruence | exact Hex]. }
      split; [exact Hlist |].
      split; [| split; [exact Hchar |]].
      * intros Hin. apply Hchar in Hin.
        destruct Hin as [n [_ [_ [Hne _]]]]. apply Hne. reflexivity.
      * intros Hnd. rewrite Hlist.
        apply filter_keeps_distinct_keys. exact Hnd.
    + intros Hreadable.
      rewrite (backlinksTo_readable _ _ _ Hreadable). reflexivity.
    + apply backlinksTo_Throw.
Qed.

Lemma getBacklinks_lists_linking_notes_witness :
  exists backlinks,
    VaultService.getBacklinks Samples.vaultAB
      (Samples.readIn Samples.vaultAB) "B.md" = Ok backlinks
    /\ ~ In "B.md" backlinks
    /\ isOk (VaultService.getBacklinks Samples.vaultAB
               (Samples.readIn Samples.vaultAB) "B.md") = true.
Proof.
  destruct (getBacklinks_lists_linking_notes Samples.vaultAB
              (Samples.readIn Samples.vaultAB) "B.md") as [_ H].
  destruct (H Samples.noteB eq_refl) as [H1 [H2 _]].
  assert (Hok : VaultService.getBacklinks Samples.vaultAB
                  (Samples.readIn Samples.vaultAB) "B.md" = Ok ["A.md"])
    by (vm_compute; reflexivity).
  exists ["A.md"].
  split; [exact Hok |].
  split; [apply (H1 _ Hok) | apply H2; reflexivity].
Defined.
(** ** More on content search *)

Lemma includes_empty (s : string) : includes s "" = true.
Proof.
  destruct s; reflexivity.
Qed.

Lemma toLowerCase_empty (s : string) :
  (toLowerCase s =? "") = (s =? "").
Proof.
  destruct s; reflexivity.
Qed.

Lemma searchNote_source (q : string) (options : VaultService.SearchOptions)
    (n : Note) (r : SearchResult) :
  VaultService.searchNote q options n = Ok (Some r) ->
  sr_path r = path n /\ sr_name r = name n.
Proof.
  unfold VaultService.searchNote.
  destruct (VaultService.tagExcludes options n); [discriminate |].
  destruct (includes _ q).
  { intros H. inversion H; subst. split; reflexivity. }
  destruct (VaultService.titleHit options q n) as [[|] | e]; simpl;
    [| | discriminate].
  { intros H. inversion H; subst. split; reflexivity. }
  destruct (indexOf _ q =? -1)%Z; [discriminate |].
  intros H. inversion H; subst. split; reflexivity.
Qed.

Lemma hitsOf_sources (q : string) (options : VaultService.SearchOptions)
    (notes : list Note) :
  Forall (fun r => exists n, In n notes /\ sr_path r = path n
                             /\ sr_name r = name n)
         (hitsOf q options notes)
  /\ (List.length (hitsOf q options notes) <= List.length notes)%nat
  /\ (NoDup (map path notes) ->
      NoDup (map sr_path (hitsOf q options notes))).
Proof.
  induction notes as [| n notes [IH1 [IH2 IH3]]]; simpl.
  - repeat split; try constructor.
  - fold (hitsOf q options notes).
    assert (IH1' : Forall (fun r => exists n0, (n = n0 \/ In n0 notes)
                                               /\ sr_path r = path n0
                                               /\ sr_name r = name n0)
                          (hitsOf q options notes)).
    { eapply Forall_impl; [| exact IH1]. simpl.
      intros r [m [Hm Hr]]. exists m. split; [right; exact Hm | exact Hr]. }
    assert (Hnone : Forall (fun r => exists n0, (n = n0 \/ In n0 notes)
                                                /\ sr_path r = path n0
                                                /\ sr_name r = name n0)
                           ([] ++ hitsOf q options notes)
                    /\ (List.length ([] ++ hitsOf q options notes)
                        <= S (List.length notes))%nat
                    /\ (NoDup (path n :: map path notes) ->
                        NoDup (map sr_path ([] ++ hitsOf q options notes)))).
    { split; [exact IH1' | split; [simpl; lia |]].
      intros Hnd. apply NoDup_cons_iff in Hnd. apply IH3. tauto. }
    destruct (VaultService.searchNote q options n) as [[r |] | e] eqn:E;
      [| exact Hnone | exact Hnone].
    apply searchNote_source in E. destruct E as [Ep En].
    split; [| split].
    + constructor; [| exact IH1'].
      exists n. split; [left; reflexivity | split; assumption].
    + simpl. lia.
    + intros Hnd. apply NoDup_cons_iff in Hnd. destruct Hnd as [Hn Hnd].
      simpl. constructor; [| apply IH3; exact Hnd].
      rewrite Ep. intros Hin. apply Hn.
      apply in_map_iff in Hin. destruct Hin as [r' [Hr' Hin]].
      rewrite Forall_forall in IH1.
      destruct (IH1 r' Hin) as [m [Hm [Hpm _]]].
      apply in_map_iff. exists m. split; [congruence | exact Hm].
Qed.

(** X22: every result of [searchContent] carries the path and the name
    of a note of the scan; there are at most as many results as notes,
    and at most [limit] when a positive limit is given; and when no two
    notes of the scan share a path, no two results do. *)
Theorem searchContent_results_are_notes
    (notes : list Note) (query : string)
    (options : VaultService.SearchOptions) (results : list SearchResult) :
  VaultService.searchContent notes query options = Ok results ->
  Forall (fun r => exists n, In n notes /\ sr_path r = path n
                             /\ sr_name r = name n) results
  /\ (List.length results <= List.length notes)%nat
  /\ (forall L, VaultService.opt_limit options = Some L -> (0 < L)%Z ->
        (Z.of_nat (List.length results) <= L)%Z)
  /\ (NoDup (map path notes) -> NoDup (map sr_path results)).
Proof.
  unfold VaultService.searchContent.
  set (q := VaultService.folded options query).
  destruct (VaultService.searchScan q options notes) as [scanned | e]
    eqn:Escan; simpl; [| discriminate].
  intros Hres. inversion Hres as [Hresults]. clear Hres.
  apply searchScan_Ok in Escan.
  set (sorted := VaultService.sort VaultService.byScoreDesc scanned) in *.
  destruct (hitsOf_sources q options notes) as [H1 [H2 H3]].
  rewrite <- Escan in H1, H2, H3.
  assert (Hperm : Permutation sorted scanned)
    by apply (sort_Permutation sr_score).
  assert (Hsub : forall L r, In r (slice 0 L sorted) -> In r scanned).
  { intros L r Hr. apply slice_incl in Hr.
    eapply Permutation_in; [exact Hperm | exact Hr]. }
  assert (Hlen : forall L, (List.length (slice 0 L sorted)
                            <= List.length scanned)%nat).
  { intros L. unfold slice. rewrite length_firstn, length_skipn.
    rewrite (Permutation_length Hperm). lia. }
  assert (Hsorted_nd : NoDup (map path notes) -> NoDup (map sr_path sorted)).
  { intros Hnd.
    apply (Permutation_NoDup (l := map sr_path scanned)).
    - apply Permutation_map. apply Permutation_sym. exact Hperm.
    - apply H3. exact Hnd. }
  assert (Hslice_nd : forall L, NoDup (map sr_path sorted) ->
                                NoDup (map sr_path (slice 0 L sorted))).
  { intros L Hnd. unfold slice.
    set (k := Z.to_nat (sliceIndex (Z.of_nat (List.length sorted)) 0)).
    set (e := Z.to_nat _).
    rewrite <- (firstn_skipn k sorted), map_app in Hnd.
    apply NoDup_app_remove_l in Hnd.
    rewrite <- (firstn_skipn e (skipn k sorted)), map_app in Hnd.
    apply NoDup_app_remove_r in Hnd. exact Hnd. }
  rewrite Forall_forall in H1.
  destruct (VaultService.opt_limit options) as [L |] eqn:El.
  - destruct (L =? 0)%Z eqn:E0.
    + subst results. split; [| split; [| split]].
      * apply Forall_forall. intros r Hr. apply H1.
        eapply Permutation_in; [exact Hperm | exact Hr].
      * rewrite (Permutation_length Hperm). exact H2.
      * intros L' HL' Hpos. inversion HL'; subst L'.
        apply Z.eqb_eq in E0. lia.
      * exact Hsorted_nd.
    + subst results. split; [| split; [| split]].
      * apply Forall_forall. intros r Hr. apply H1. eapply Hsub. exact Hr.
      * pose proof (Hlen L). lia.
      * intros L' HL' Hpos. inversion HL'; subst L'.
        rewrite slice_from_start by lia.
        rewrite length_firstn. lia.
      * intros Hnd. apply Hslice_nd. apply Hsorted_nd. exact Hnd.
  - subst results. split; [| split; [| split]].
    + apply Forall_forall. intros r Hr. apply H1.
      eapply Permutation_in; [exact Hperm | exact Hr].
    + rewrite (Permutation_length Hperm). exact H2.
    + intros L' HL'. discriminate HL'.
    + exact Hsorted_nd.
Qed.

Lemma searchContent_results_are_notes_witness :
  exists results,
    VaultService.searchContent Samples.searched "plan"
      (VaultService.mkSearchOptions None false (Some 2%Z)) = Ok results
    /\ (Z.of_nat (List.length results) <= 2)%Z.
Proof.
  eexists. split; [vm_compute; reflexivity |].
  destruct (searchContent_results_are_notes Samples.searched "plan"
              (VaultService.mkSearchOptions None false (Some 2%Z)) _
              eq_refl)
    as [_ [_ [H _]]].
  apply (H 2%Z); [reflexivity | lia].
Defined.

(** X23: the empty query matches every note by name: with no limit,
    [searchContent] returns one title result per note that passes the tag
    filter, scored [TITLE_EXACT] for a note whose name is empty and
    [TITLE_PARTIAL] for every other, without snippet; no front matter is
    read, so the search returns whatever the front matter holds. *)
Theorem searchContent_empty_query
    (notes : list Note) (tag : option string) (caseSensitive : bool) :
  let options := VaultService.mkSearchOptions tag caseSensitive None in
  exists results,
    VaultService.searchContent notes "" options = Ok results
    /\ Permutation
         results
         (map (fun n => mkSearchResult (path n) (name n)
                          (if name n =? "" then TITLE_EXACT
                           else TITLE_PARTIAL)
                          None MTitle)
              (filter (fun n => negb (VaultService.tagExcludes options n))
                      notes)).
Proof.
  intros options. unfold VaultService.searchContent. simpl.
  assert (Hq : VaultService.folded options "" = "").
  { unfold VaultService.folded. destruct caseSensitive; reflexivity. }
  rewrite Hq.
  assert (Hscan :
    VaultService.searchScan "" options notes
    = Ok (map (fun n => mkSearchResult (path n) (name n)
                          (if name n =? "" then TITLE_EXACT
                           else TITLE_PARTIAL)
                          None MTitle)
              (filter (fun n => negb (VaultService.tagExcludes options n))
                      notes))).
  { induction notes as [| n notes IH]; [reflexivity |].
    cbn [VaultService.searchScan filter].
    unfold VaultService.searchNote at 1.
    destruct (VaultService.tagExcludes options n); cbn [negb bind];
      [rewrite IH; reflexivity |].
    rewrite includes_empty.
    assert (He : (VaultService.folded options (name n) =? "")
                 = (name n =? "")).
    { unfold VaultService.folded. simpl.
      destruct caseSensitive; [reflexivity | apply toLowerCase_empty]. }
    rewrite He. cbn [bind]. rewrite IH. reflexivity. }
  rewrite Hscan. simpl.
  eexists. split; [reflexivity |].
  apply (sort_Permutation sr_score).
Qed.
(** ** More on the traversal of connected notes *)

(** X24: when no note of the collection has the central path, or when
    [maxNotes] is 0 or less, the traversal returns no note. *)
Theorem getConnectedNotes_empty
    (centralPath : string) (allNotes : list Note) (maxDepth maxNotes : Z) :
  Graph.noteAt allNotes centralPath = None \/ (maxNotes <= 0)%Z ->
  NavigationTools.getConnectedNotes centralPath allNotes maxDepth maxNotes
  = Some [].
Proof.
  intros H.
  unfold NavigationTools.getConnectedNotes, NavigationTools.turns.
  cbn [NavigationTools.run].
  unfold NavigationTools.step at 1. simpl.
  destruct (0 <? maxNotes)%Z eqn:Epos; simpl; [| reflexivity].
  destruct H as [Hnone | Hle]; [| apply Z.ltb_lt in Epos; lia].
  unfold Graph.noteAt in Hnone.
  destruct (maxDepth <? 0)%Z.
  - destruct (list_sum (map NavigationTools.degree allNotes));
      reflexivity.
  - rewrite Hnone.
    destruct (list_sum (map NavigationTools.degree allNotes));
      reflexivity.
Qed.

Lemma getConnectedNotes_empty_witness :
  NavigationTools.getConnectedNotes "missing.md" Samples.chain 2 10
  = Some [].
Proof.
  apply (getConnectedNotes_empty "missing.md" Samples.chain 2 10).
  left. reflexivity.
Defined.

(** ** More on unlinked references *)

Lemma searchTermsLoop_result (engine : VaultService.RegExpEngine)
    (note : Note) (terms : list Val) (r : SearchResult) :
  VaultService.searchTermsLoop engine note terms = Ok (Some r) ->
  sr_path r = path note /\ sr_name r = name note
  /\ sr_matchType r = MContent /\ (0 <= sr_score r)%Z.
Proof.
  induction terms as [| term rest IH]; simpl; [discriminate |].
  destruct (engine (VaultService.wordSource (toString term)))
    as [regex | e]; [| discriminate].
  simpl.
  destruct (regex (content note)) as [matches |]; [| exact IH].
  destruct (toLowerCaseOf term) as [lowerTerm | e]; [| discriminate].
  simpl. intros H. inversion H; subst. simpl.
  repeat split. lia.
Qed.

Lemma unlinkedLoop_results (engine : VaultService.RegExpEngine)
    (targetPath : string) (targetNote : Note) (terms : list Val)
    (notes : list Note) (rs : list SearchResult) :
  VaultService.unlinkedLoop engine targetPath targetNote terms notes
  = Ok rs ->
  Forall (fun r => exists n,
              In n notes /\ sr_path r = path n /\ sr_name r = name n
              /\ RegExp.searched targetPath targetNote n = true
              /\ sr_matchType r = MContent)
         rs
  /\ (List.length rs <= List.length notes)%nat.
Proof.
  revert rs.
  induction notes as [| note rest IH]; intros rs; simpl.
  - intros H. inversion H; subst. split; [constructor | simpl; lia].
  - assert (Hlift : forall rs0,
              Forall (fun r => exists n,
                          In n rest /\ sr_path r = path n
                          /\ sr_name r = name n
                          /\ RegExp.searched targetPath targetNote n = true
                          /\ sr_matchType r = MContent) rs0 ->
              Forall (fun r => exists n,
                          (note = n \/ In n rest) /\ sr_path r = path n
                          /\ sr_name r = name n
                          /\ RegExp.searched targetPath targetNote n = true
                          /\ sr_matchType r = MContent) rs0).
    { intros rs0 H0. eapply Forall_impl; [| exact H0]. simpl.
      intros r [n [Hn Hr]]. exists n. split; [right; exact Hn | exact Hr]. }
    destruct (path note =? targetPath) eqn:Ep.
    { intros H. destruct (IH rs H) as [H1 H2].
      split; [apply Hlift; exact H1 | lia]. }
    destruct (VaultService.hasLink targetNote note) as [[|] | e] eqn:El;
      simpl; [| | discriminate].
    { intros H. destruct (IH rs H) as [H1 H2].
      split; [apply Hlift; exact H1 | lia]. }
    destruct (VaultService.searchTermsLoop engine note terms)
      as [hit | e] eqn:Eh; [| discriminate].
    simpl.
    destruct (VaultService.unlinkedLoop engine targetPath targetNote terms
                rest) as [rs' | e]; [| discriminate].
    simpl. destruct (IH rs' eq_refl) as [H1 H2].
    intros H. inversion H; subst rs.
    destruct hit as [r |]; unfold VaultService.pushed.
    + split; [| simpl; lia].
      constructor; [| apply Hlift; exact H1].
      apply searchTermsLoop_result in Eh.
      destruct Eh as [E1 [E2 [E3 _]]].
      exists note. split; [left; reflexivity |].
      unfold RegExp.searched. rewrite Ep, El.
      repeat split; assumption.
    + split; [apply Hlift; exact H1 | lia].
Qed.

(** X25: what [getUnlinkedReferences] returns are content results for
    notes of the scan other than the target and without a link to it, at
    most one per note, and at most [limit] for a limit of 0 or more. *)
Theorem getUnlinkedReferences_excludes_linked
    (engine : VaultService.RegExpEngine) (notes : list Note)
    (readNote : string -> Result Note) (targetPath : string) (limit : Z)
    (targetNote : Note) (results : list SearchResult) :
  readNote targetPath = Ok targetNote ->
  VaultService.getUnlinkedReferences engine notes readNote targetPath limit
  = Ok results ->
  Forall (fun r => exists n,
              In n notes /\ sr_path r = path n /\ sr_name r = name n
              /\ path n <> targetPath
              /\ (forall link, In link (links n) ->
                    VaultService.linksMatch link targetNote = Ok false)
              /\ sr_matchType r = MContent)
         results
  /\ (List.length results <= List.length notes)%nat
  /\ ((0 <= limit)%Z -> (Z.of_nat (List.length results) <= limit)%Z).
Proof.
  intros Hread. unfold VaultService.getUnlinkedReferences.
  rewrite Hread. simpl.
  destruct (VaultService.searchTermsOf targetNote) as [terms | e];
    simpl; [| discriminate].
  destruct (VaultService.unlinkedLoop engine targetPath targetNote terms
              notes) as [rs |] eqn:E; [| discriminate].
  simpl. intros H. inversion H; subst results. clear H.
  apply unlinkedLoop_results in E. destruct E as [H1 H2].
  split; [| split].
  - apply Forall_forall. intros r Hr. apply slice_incl in Hr.
    rewrite Forall_forall in H1.
    destruct (H1 r Hr) as [n [Hn [Hp [Hnm [Hs Hm]]]]].
    exists n. split; [exact Hn |]. split; [exact Hp |].
    split; [exact Hnm |].
    unfold RegExp.searched in Hs. apply andb_true_iff in Hs.
    destruct Hs as [Hne Hno].
    apply negb_true_iff in Hne. apply String.eqb_neq in Hne.
    split; [exact Hne |]. split; [| exact Hm].
    intros link Hl.
    destruct (VaultService.hasLink targetNote n) as [[|] | e] eqn:Eh;
      try discriminate.
    unfold VaultService.hasLink in Eh.
    apply someR_false in Eh. rewrite Forall_forall in Eh.
    apply Eh. exact Hl.
  - unfold slice. rewrite length_firstn, length_skipn. lia.
  - intros Hl. rewrite slice_from_start by exact Hl.
    rewrite length_firstn. lia.
Qed.

Lemma getUnlinkedReferences_excludes_linked_witness :
  exists results,
    VaultService.getUnlinkedReferences RegExp.wordEngine
      [Samples.mention; Samples.planNote]
      (Samples.readIn [Samples.mention; Samples.planNote]) "Plan.md" 50
    = Ok results
    /\ (Z.of_nat (List.length results) <= 50)%Z.
Proof.
  eexists. split; [vm_compute; reflexivity |].
  eapply (getUnlinkedReferences_excludes_linked RegExp.wordEngine
            [Samples.mention; Samples.planNote]
            (Samples.readIn [Samples.mention; Samples.planNote])
            "Plan.md" 50 Samples.planNote).
  - reflexivity.
  - vm_compute. reflexivity.
  - lia.
Defined.

(** ** Scanning the vault *)

Lemma Dirent_nested_ind (P : Scan.Dirent -> Prop) :
  (forall n body, P (Scan.DFile n body)) ->
  (forall n, P (Scan.DDir n None)) ->
  (forall n es, Forall P es -> P (Scan.DDir n (Some es))) ->
  (forall n, P (Scan.DOther n)) ->
  forall e, P e.
Proof.
  intros HF HN HD HO.
  fix IH 1.
  intros [n body | n [es |] | n].
  - apply HF.
  - apply HD. induction es as [| e es IHes]; constructor.
    + apply IH.
    + exact IHes.
  - apply HN.
  - apply HO.
Qed.

Lemma slashed_app (a b : list string) :
  slashed (a ++ b) = (slashed a ++ slashed b)%string.
Proof.
  induction a as [| s a IH]; simpl; [reflexivity |].
  rewrite IH, append_assoc. reflexivity.
Qed.

Lemma slashed_join (s : string) (rest : list string) :
  (s ++ slashed rest)%string = NoteAccess.join "/" (s :: rest).
Proof.
  revert s.
  induction rest as [| r rest IH]; intros s.
  - simpl. apply append_empty_r.
  - cbn [slashed NoteAccess.join]. rewrite IH. reflexivity.
Qed.

Lemma relative_below (root : string) (s : string) (rest : list string) :
  Path.relative root (root ++ slashed (s :: rest))
  = NoteAccess.join "/" (s :: rest).
Proof.
  unfold Path.relative, startsWith.
  cbn [slashed].
  replace (root ++ "/" ++ s ++ slashed rest)%string
    with ((root ++ "/") ++ (s ++ slashed rest))%string
    by (rewrite append_assoc; reflexivity).
  rewrite prefix_append.
  replace (S (String.length root)) with (String.length (root ++ "/"))
    by (rewrite length_append; simpl; lia).
  rewrite drop_append. apply slashed_join.
Qed.

Lemma parseNote_path (matter : Matter) (vaultPath filePath text : string)
    (stats : Z * Z) (note : Note) :
  parseNote matter vaultPath filePath text stats = Ok note ->
  path note = Path.relative vaultPath filePath.
Proof.
  unfold parseNote.
  destruct (matter text) as [parsed | e]; [| discriminate].
  simpl.
  destruct (extractTags (gm_content parsed) (lookup "tags" (gm_data parsed)))
    as [tags | e]; [| discriminate].
  simpl. intros H. inversion H; subst. reflexivity.
Qed.

Section ScanPaths.

Variable matter : Matter.
Variable vaultPath : string.

Lemma scanEntry_paths (base : string) (e : Scan.Dirent) :
  forall segs notes,
    visibleSegments segs ->
    Forall (fun n => scannedBelow vaultPath base (path n)) notes ->
    Forall (fun n => scannedBelow vaultPath base (path n))
           (Scan.scanEntry matter vaultPath (base ++ slashed segs) e notes).
Proof.
  induction e as [n body | n | n es IHes | n] using Dirent_nested_ind;
    intros segs notes Hvis Hnotes; cbn [Scan.scanEntry].
  - destruct (startsWith n ".") eqn:Edot; [exact Hnotes |].
    destruct (VaultLookup.isMarkdownFile n) eqn:Emd; [| exact Hnotes].
    destruct body as [[text stats] |]; [| exact Hnotes].
    destruct (parseNote matter vaultPath
                (Path.join (base ++ slashed segs) n) text stats)
      as [note | err] eqn:Ep; [| exact Hnotes].
    apply Forall_app. split; [exact Hnotes |].
    constructor; [| constructor].
    apply parseNote_path in Ep. rewrite Ep.
    unfold Path.join.
    replace ((base ++ slashed segs) ++ "/" ++ n)%string
      with (base ++ slashed (segs ++ [n]))%string.
    2:{ rewrite slashed_app, append_assoc. simpl.
        rewrite append_empty_r. reflexivity. }
    assert (Hvis' : visibleSegments (segs ++ [n])).
    { apply Forall_app. split; [exact Hvis |].
      constructor; [exact Edot | constructor]. }
    exists (segs ++ [n]).
    split; [destruct segs; discriminate |].
    split; [reflexivity |].
    split; [exact Hvis' |]. rewrite last_last. exact Emd.
  - destruct (startsWith n "."); exact Hnotes.
  - destruct (startsWith n ".") eqn:Edot; [exact Hnotes |].
    assert (Hvis' : visibleSegments (segs ++ [n])).
    { apply Forall_app. split; [exact Hvis |].
      constructor; [exact Edot | constructor]. }
    assert (Hdir : Path.join (base ++ slashed segs) n
                   = (base ++ slashed (segs ++ [n]))%string).
    { unfold Path.join. rewrite slashed_app, append_assoc. simpl.
      rewrite append_empty_r. reflexivity. }
    rewrite Hdir.
    revert notes Hnotes.
    induction es as [| e es IHloop]; intros notes Hnotes; [exact Hnotes |].
    apply Forall_cons_iff in IHes. destruct IHes as [He Hes].
    apply (IHloop Hes).
    apply He; assumption.
  - exact Hnotes.
Qed.

Lemma scanDirectory_paths (base : string) (entries : list Scan.Dirent) :
  Forall (fun n => scannedBelow vaultPath base (path n))
         (Scan.scanDirectory matter vaultPath base entries []).
Proof.
  unfold Scan.scanDirectory.
  assert (Hgen : forall notes,
            Forall (fun n => scannedBelow vaultPath base (path n)) notes ->
            Forall (fun n => scannedBelow vaultPath base (path n))
                   (fold_left
                      (fun acc e => Scan.scanEntry matter vaultPath
                                      base e acc) entries notes)).
  { induction entries as [| e entries IH]; intros notes Hn; [exact Hn |].
    simpl. apply IH.
    pose proof (scanEntry_paths base e [] notes (Forall_nil _) Hn) as H.
    simpl in H. rewrite append_empty_r in H. exact H. }
  apply Hgen. constructor.
Qed.

Lemma scannedBelow_vault (p : string) :
  scannedBelow vaultPath vaultPath p -> scannedPath p.
Proof.
  intros [segs [Hne [Hp [Hvis Hmd]]]].
  exists segs. split; [exact Hne |]. split; [| split; assumption].
  rewrite Hp. destruct segs as [| s segs]; [contradiction Hne; reflexivity |].
  apply relative_below.
Qed.

(** X26: every note [getAllNotes] returns lies below the directory the
    scan starts at, through segments none of which begins with a dot, the
    last of them the name of a markdown file: no hidden file, and nothing
    below a hidden folder met on the way, is ever returned.  A scan of the
    whole vault, started without a folder or with the empty string,
    therefore returns only paths made of visible segments joined by
    slashes. *)
Theorem getAllNotes_paths_are_visible (folder : option string)
    (entries : option (list Scan.Dirent)) :
  Forall (fun n => scannedBelow vaultPath
                     (Scan.searchPath vaultPath folder) (path n))
         (Scan.getAllNotes matter vaultPath folder entries)
  /\ Forall (fun n => scannedPath (path n))
            (Scan.getAllNotes matter vaultPath None entries)
  /\ Forall (fun n => scannedPath (path n))
            (Scan.getAllNotes matter vaultPath (Some EmptyString) entries).
Proof.
  unfold Scan.getAllNotes.
  destruct entries as [es |]; [| repeat split; constructor].
  split; [apply scanDirectory_paths |].
  split.
  - eapply Forall_impl; [| apply scanDirectory_paths].
    intros n Hn. apply scannedBelow_vault. exact Hn.
  - eapply Forall_impl; [| apply scanDirectory_paths].
    intros n Hn. apply scannedBelow_vault. exact Hn.
Qed.

End ScanPaths.

(** The folder the scan starts at is not asked for its name: a scan
    started at a hidden folder returns the notes below it. *)
Lemma getAllNotes_inside_hidden_folder :
  map path
      (Scan.getAllNotes Samples.plainMatter "/vault" (Some ".trash")
         (Some [Scan.DFile "old.md" (Some ("gone", (1%Z, 1%Z)))]))
  = [".trash/old.md"].
Proof.
  vm_compute. reflexivity.
Qed.
